(** * pandera array backend: validation and coercion pipeline

    A shallow embedding of [pandera/backends/pandas/array.py]
    ([ArraySchemaBackend] and [SeriesSchemaBackend]) together with the
    properties its design document states about it.

    Python objects are references: data objects live in a heap and the
    backend passes locations around.  The pipeline runs in a small
    state-and-exception monad over the heap, the error handler of the
    running call, and the history of check invocations. *)

From Stdlib Require Import ZArith String Ascii List Bool Lia.
From stdpp Require Import base tactics option list strings.
Import ListNotations.

Local Open Scope string_scope.
Local Open Scope list_scope.

(** ** Data model *)

(** Cell values of a column.  [VNull] stands for NaN / None / NA. *)
Inductive Value :=
  | VInt (z : Z)
  | VStr (s : string)
  | VBool (b : bool)
  | VNull.

#[global] Instance Value_eq_dec : EqDecision Value.
Proof. solve_decision. Defined.

Definition Label := Z.

(** The Python type of an object: [type(obj).__module__] and
    [type(obj).__name__]. *)
Record PyType := { ty_module : string; ty_name : string }.

(** A pandas-like Series: name, dtype (as [str(series.dtype)]), and
    rows as (index label, value) pairs in positional order. *)
Record Series := {
  s_type : PyType;
  s_name : option string;
  s_dtype : string;
  s_rows : list (Label * Value)
}.

Definition s_index (s : Series) : list Label := map fst (s_rows s).
Definition s_values (s : Series) : list Value := map snd (s_rows s).

(** A field (Series-like) or a frame (columns by name). *)
Inductive PandasData :=
  | Field (s : Series)
  | Frame (cols : list Series).

(** Identity of a schema object ([id(schema)]); data objects and errors
    refer to schemas through it. *)
Abbreviation SchemaId := nat (only parsing).

(** The [pandera] accessor of a data object and the schema attached to
    it, if any. *)
Record Accessor := { acc_schema : option SchemaId }.

(** A data object: its contents and, when the accessor is registered for
    its type ([hasattr(obj, "pandera")]), the accessor state. *)
Record PandasObj := {
  obj_data : PandasData;
  obj_pandera : option Accessor
}.

(** Locations are positions in the heap. *)
Abbreviation loc := nat (only parsing).
Abbreviation Heap := (list PandasObj) (only parsing).

(** A failure case: a location (row label, absent for a scalar case) and
    the offending value. *)
Record FailureCase := { fc_index : option Label; fc_value : Value }.
Definition FailureCases := list FailureCase.

(** Raised by the type engine when coercion fails. *)
Record ParserError := {
  pe_message : string;
  pe_failure_cases : FailureCases
}.

(** Result of [dtype.check]: one boolean or a per-element mask. *)
Inductive DtypeCheckResults :=
  | DtBool (b : bool)
  | DtMask (m : list bool).

(** What [dtype.try_coerce(obj)] does besides what it may do to [obj]
    itself: it hands [obj] back, returns a new object, or raises
    [ParserError]. *)
Inductive CoerceOutcome :=
  | CoercedInPlace
  | CoercedNew (o : PandasObj)
  | CoerceFailed (e : ParserError).

(** A logical dtype of the type engine: [str(dtype)], the compatibility
    check against the engine dtype of a column, and coercion.  Foreign
    code reaches the object it is handed and nothing else: [dt_try_coerce]
    maps the argument to its state afterwards and the outcome. *)
Record DataType := {
  dt_name : string;
  dt_check : string -> Series -> DtypeCheckResults;
  dt_try_coerce : PandasObj -> PandasObj * CoerceOutcome
}.

(** Python exceptions other than the framework's own: class name,
    [args] (as strings) and [__cause__]. *)
#[warnings="-register-all"]
Inductive PyExc :=
  | mkPyExc (cls : string) (args : list string) (cause : option PyExc).

Definition exc_class (e : PyExc) : string :=
  match e with mkPyExc c _ _ => c end.
Definition exc_args (e : PyExc) : list string :=
  match e with mkPyExc _ a _ => a end.
Definition exc_cause (e : PyExc) : option PyExc :=
  match e with mkPyExc _ _ c => c end.

(** What calling a declared check on a data object (and optional column
    key) produces: a verdict with optional failure cases, or an exception
    raised by its implementation.  [chk_call] also gives the state of the
    argument afterwards. *)
Inductive CheckOutcome :=
  | CheckReturned (check_passed : bool) (failure_cases : option FailureCases)
  | CheckRaised (e : PyExc).

Record Check := {
  chk_name : string;
  chk_call : PandasObj -> option string -> PandasObj * CheckOutcome
}.

(** [schema.report_duplicates] *)
Inductive UniqueSettings := exclude_first | exclude_last | report_all.

(** The [keep] argument of pandas' [duplicated]: ["first"], ["last"] or
    [False]. *)
Inductive Keep := keep_first | keep_last | keep_False.

Record Schema := {
  sch_id : SchemaId;
  name : option string;
  dtype : option DataType;
  nullable : bool;
  unique : bool;
  report_duplicates : UniqueSettings;
  coerce : bool;
  checks : list Check
}.

(** Messages are kept symbolic: one constructor per f-string of the
    source, holding the interpolated parts. *)
Inductive Message :=
  | MsgCoerce (schema_name : option string) (dtype_name : string)
              (exc : ParserError)
  | MsgName (ty : PyType) (expected found : option string)
  | MsgNulls (series_name : option string) (nulls : list (Label * Value))
  | MsgDuplicates (series_name : option string)
                  (failed : list (Label * Value))
  | MsgDtypeScalar (series_name : option string) (expected got : string)
  | MsgDtypeMask (series_name : option string) (expected : string)
                 (failure_cases : FailureCases)
  | MsgCheckError (err_str : string)
  | MsgCheckFailed (check_name : string) (check_index : nat).

(** The [check] attribute of an error: a string for the core checks, the
    check object for declared ones. *)
Inductive CheckRef :=
  | CheckStr (s : string)
  | CheckObj (check_name : string).

(** Namedtuple for holding results of core checks. *)
Record CoreCheckResult := {
  check : string;
  reason_code : string;
  passed : bool;
  message : option Message;
  failure_cases : option FailureCases
}.

Record SchemaError := {
  err_schema : SchemaId;
  err_data : loc;
  err_message : option Message;
  err_failure_cases : option FailureCases;
  err_check : option CheckRef;
  err_check_index : option nat;
  err_reason_code : option string
}.

(** An entry of the error handler: reason code and error. *)
Record CollectedError := {
  ce_reason_code : option string;
  ce_error : SchemaError
}.

(** Exceptions travelling through the pipeline. *)
Inductive Exc :=
  | ExSchemaError (e : SchemaError)
  | ExSchemaErrors (schema : SchemaId) (schema_errors : list CollectedError)
                   (data : loc)
  | ExOther (e : PyExc).

(** Modelled from the spec: [SchemaErrorHandler] (pandera/error_handlers.py)
    is not part of the sources.  It has two modes fixed at construction
    and an ordered list of collected errors. *)
Record SchemaErrorHandler := {
  eh_lazy : bool;
  eh_collected : list CollectedError
}.

(** Invocations of checks, in the order they happen. *)
Inductive Call :=
  | CallCore (core_check : string)
  | CallCheck (check_index : nat).

(** The state a validation call runs in. *)
Record World := {
  heap : Heap;
  error_handler : SchemaErrorHandler;
  calls : list Call
}.

(** ** The state-and-exception monad *)

Inductive Result (A : Type) :=
  | Ok (a : A)
  | Raise (e : Exc).
Arguments Ok {A} a.
Arguments Raise {A} e.

Definition M (A : Type) := World -> Result A * World.

Definition ret {A} (a : A) : M A := fun w => (Ok a, w).

Definition bind {A B} (m : M A) (k : A -> M B) : M B :=
  fun w => match m w with
           | (Ok a, w') => k a w'
           | (Raise e, w') => (Raise e, w')
           end.

Definition raise {A} (e : Exc) : M A := fun w => (Raise e, w).

(** [try: m except: h] *)
Definition try_except {A} (m : M A) (h : Exc -> M A) : M A :=
  fun w => match m w with
           | (Ok a, w') => (Ok a, w')
           | (Raise e, w') => h e w'
           end.

Declare Scope py_scope.
Delimit Scope py_scope with py.
Notation "x <- c1 ;; c2" := (bind c1 (fun x => c2))
  (at level 100, c1 at next level, right associativity) : py_scope.
Notation "c1 ;;; c2" := (bind c1 (fun _ => c2))
  (at level 100, right associativity) : py_scope.
Local Open Scope py_scope.

Definition with_heap (h : Heap) (w : World) : World :=
  {| heap := h; error_handler := error_handler w; calls := calls w |}.
Definition with_handler (eh : SchemaErrorHandler) (w : World) : World :=
  {| heap := heap w; error_handler := eh; calls := calls w |}.
Definition with_calls (c : list Call) (w : World) : World :=
  {| heap := heap w; error_handler := error_handler w; calls := c |}.

Definition AttributeError (msg : string) : Exc :=
  ExOther (mkPyExc "AttributeError" [msg] None).
Definition KeyError (key : string) : Exc :=
  ExOther (mkPyExc "KeyError" [key] None).
Definition AssertionError (msg : list string) : Exc :=
  ExOther (mkPyExc "AssertionError" msg None).
Definition ReferenceError : Exc :=
  ExOther (mkPyExc "ReferenceError" [] None).
Definition TypeError (msg : string) : Exc :=
  ExOther (mkPyExc "TypeError" [msg] None).

(** Dereference a location.  Python references never dangle; the error
    branch only makes the function total. *)
Definition get_obj (l : loc) : M PandasObj :=
  fun w => match heap w !! l with
           | Some o => (Ok o, w)
           | None => (Raise ReferenceError, w)
           end.

Definition set_obj (l : loc) (o : PandasObj) : M unit :=
  fun w => (Ok tt, with_heap (<[l := o]> (heap w)) w).

(** A new object gets the next free location. *)
Definition alloc (o : PandasObj) : M loc :=
  fun w => (Ok (length (heap w)), with_heap (heap w ++ [o]) w).

Definition record_call (c : Call) : M unit :=
  fun w => (Ok tt, with_calls (calls w ++ [c]) w).

(** ** Collaborators that are not part of the sources *)

(** What the backend takes from code that is not in the sources and that
    the design document leaves open: the reason code a [SchemaError] gets
    when its constructor is called without one, the default of
    [reshape_failure_cases]' [ignore_na] argument, the engine's resolution
    of a pandas dtype ([Engine.dtype]), and the row selection of
    [subsample] (head, tail, sample, random_state). *)
Class Collaborators := {
  default_reason_code : option string;
  default_ignore_na : bool;
  Engine_dtype : string -> string;
  select_rows : option nat -> option nat -> option nat -> option Z ->
                list (Label * Value) -> list (Label * Value)
}.

(** ** pandas operations used by the backend *)

Definition is_null (v : Value) : bool :=
  match v with VNull => true | _ => false end.

(** [series.isna()] *)
Definition isna (s : Series) : list bool := map is_null (s_values s).

(** Truthiness of a list. *)
Definition nonempty {A} (l : list A) : bool :=
  match l with [] => false | _ :: _ => true end.

(** [mask.any()] and [mask.all()] *)
Definition any (m : list bool) : bool := existsb id m.
Definition all (m : list bool) : bool := forallb id m.

(** Boolean indexing [series[mask]], by position. *)
Fixpoint mask_rows (rows : list (Label * Value)) (m : list bool)
  : list (Label * Value) :=
  match rows, m with
  | r :: rows', b :: m' =>
      if b then r :: mask_rows rows' m' else mask_rows rows' m'
  | _, _ => []
  end.

(** What a cell is hashed and compared by.  pandas finds duplicates with
    Python's [==] and [hash], under which [True] is 1 and [False] is 0;
    nulls count as equal to each other. *)
Definition value_key (v : Value) : Value :=
  match v with
  | VBool b => VInt (if b then 1 else 0)
  | _ => v
  end.

Definition value_eqb (a b : Value) : bool :=
  bool_decide (value_key a = value_key b).

(** [duplicated(keep=...)]: flags every occurrence of a repeated value
    except the first ([keep_first]), except the last ([keep_last]), or
    none of them excepted ([keep_False]). *)
Fixpoint duplicated_from (keep : Keep) (before rest : list Value)
  : list bool :=
  match rest with
  | [] => []
  | v :: rest' =>
      let earlier := existsb (value_eqb v) before in
      let later := existsb (value_eqb v) rest' in
      (match keep with
       | keep_first => earlier
       | keep_last => later
       | keep_False => earlier || later
       end) :: duplicated_from keep (v :: before) rest'
  end.

Definition duplicated (keep : Keep) (s : Series) : list bool :=
  duplicated_from keep [] (s_values s).

(** [series.to_frame()], [frame.duplicated(keep=...)] as a labelled mask,
    and [mask.reindex(index)], which looks every label up. *)
Definition to_frame (s : Series) : list Series := [s].

Definition frame_duplicated (keep : Keep) (cols : list Series)
  : list (Label * bool) :=
  match cols with
  | [s] => combine (s_index s) (duplicated keep s)
  | _ => []
  end.

Fixpoint lookup_label (l : Label) (m : list (Label * bool)) : bool :=
  match m with
  | [] => false
  | (l', b) :: m' => if Z.eqb l l' then b else lookup_label l m'
  end.

Definition reindex (m : list (Label * bool)) (index : list Label)
  : list bool :=
  map (fun l => lookup_label l m) index.

(** [frame[key]] *)
Fixpoint find_column (key : string) (cols : list Series) : option Series :=
  match cols with
  | [] => None
  | c :: cols' =>
      if bool_decide (s_name c = Some key) then Some c
      else find_column key cols'
  end.

(** [obj.copy()] and other operations that build a new object: the data
    is duplicated, the accessor of the new object starts without a
    schema. *)
Definition fresh_accessor (o : PandasObj) : option Accessor :=
  match obj_pandera o with
  | Some _ => Some {| acc_schema := None |}
  | None => None
  end.

Definition copy (o : PandasObj) : PandasObj :=
  {| obj_data := obj_data o; obj_pandera := fresh_accessor o |}.

(** [str(x)] of an optional string. *)
Definition py_str (o : option string) : string :=
  match o with Some s => s | None => "None" end.

Definition name_value (o : option string) : Value :=
  match o with Some s => VStr s | None => VNull end.

Definition quote : string := String (ascii_of_nat 34) EmptyString.

(** ** Failure-case formatting *)

(** Modelled from the spec: [scalar_failure_case]
    (pandera/backends/pandas/error_formatters.py) is not part of the
    sources; a scalar violation yields one synthetic failure case. *)
Definition scalar_failure_case (x : Value) : FailureCases :=
  [ {| fc_index := None; fc_value := x |} ].

(** Modelled from the spec: [reshape_failure_cases] (same module) is not
    part of the sources; one failure case (index, value) per offending
    row, nulls being dropped when [ignore_na] is set. *)
Definition reshape_failure_cases (rows : list (Label * Value))
    (ignore_na : bool) : FailureCases :=
  map (fun r => {| fc_index := Some (fst r); fc_value := snd r |})
      (List.filter (fun r => negb (ignore_na && is_null (snd r))) rows).

(** Modelled from the spec: [convert_uniquesettings]
    (pandera/backends/pandas/utils.py) is not part of the sources; it
    turns the schema's policy into the [keep] argument. *)
Definition convert_uniquesettings (u : UniqueSettings) : Keep :=
  match u with
  | exclude_first => keep_first
  | exclude_last => keep_last
  | report_all => keep_False
  end.

(** ** Error handler *)

(** Modelled from the spec: [SchemaErrorHandler.collect_error] is not part
    of the sources.  Eager: the error is raised at once.  Lazy: it is
    appended to the handler's list and nothing is raised. *)
Definition collect_error (reason : option string) (schema_error : SchemaError)
    (original_exc : option PyExc) : M unit :=
  fun w =>
    let eh := error_handler w in
    if eh_lazy eh then
      (Ok tt,
       with_handler
         {| eh_lazy := eh_lazy eh;
            eh_collected := eh_collected eh ++
              [ {| ce_reason_code := reason; ce_error := schema_error |} ] |}
         w)
    else (Raise (ExSchemaError schema_error), w).

(** [SchemaErrorHandler(lazy)] *)
Definition new_error_handler (lazy : bool) : M unit :=
  fun w => (Ok tt, with_handler {| eh_lazy := lazy; eh_collected := [] |} w).

(** [error_handler.collected_errors] *)
Definition collected_errors : M (list CollectedError) :=
  fun w => (Ok (eh_collected (error_handler w)), w).

(** ** The array backend *)

Section Backend.
Context `{Collaborators}.

(** [ArraySchemaBackend.preprocess] *)
Definition preprocess (check_obj : loc) (inplace : bool) : M loc :=
  if inplace then ret check_obj
  else (o <- get_obj check_obj ;; alloc (copy o)).

(** [is_field(obj)] *)
Definition is_field (check_obj : loc) : M bool :=
  o <- get_obj check_obj ;;
  ret (match obj_data o with Field _ => true | Frame _ => false end).

(** [check_obj[schema.name]] on a frame; a missing column raises
    [KeyError]. *)
Definition getitem (check_obj : loc) (key : option string) : M loc :=
  o <- get_obj check_obj ;;
  match obj_data o, key with
  | Frame cols, Some k =>
      match find_column k cols with
      | Some c => alloc {| obj_data := Field c;
                           obj_pandera := fresh_accessor o |}
      | None => raise (KeyError k)
      end
  | _, _ => raise (KeyError (py_str key))
  end.

(** The series behind a field object. *)
Definition get_series (field_obj : loc) : M Series :=
  o <- get_obj field_obj ;;
  match obj_data o with
  | Field s => ret s
  | Frame _ => raise (AttributeError "name")
  end.

Definition subsample_series (head tail sample : option nat)
    (random_state : option Z) (s : Series) : Series :=
  {| s_type := s_type s; s_name := s_name s; s_dtype := s_dtype s;
     s_rows := select_rows head tail sample random_state (s_rows s) |}.

(** Modelled from the spec: [PandasSchemaBackend.subsample]
    (pandera/backends/pandas/base.py) is not part of the sources.  Without
    head, tail and sample there is no subsampling and the object itself
    is returned; otherwise a new object holds the selected rows. *)
Definition subsample (check_obj : loc) (head tail sample : option nat)
    (random_state : option Z) : M loc :=
  match head, tail, sample with
  | None, None, None => ret check_obj
  | _, _, _ =>
      o <- get_obj check_obj ;;
      alloc {| obj_data :=
                 match obj_data o with
                 | Field s =>
                     Field (subsample_series head tail sample random_state s)
                 | Frame cols =>
                     Frame (map (subsample_series head tail sample
                                   random_state) cols)
                 end;
               obj_pandera := fresh_accessor o |}
  end.

(** [schema.dtype.try_coerce(check_obj)] *)
Definition try_coerce (dt : DataType) (check_obj : loc)
  : M (loc + ParserError) :=
  o <- get_obj check_obj ;;
  let '(o', outcome) := dt_try_coerce dt o in
  set_obj check_obj o' ;;;
  match outcome with
  | CoercedInPlace => ret (inl check_obj)
  | CoercedNew n => (coerced <- alloc n ;; ret (inl coerced))
  | CoerceFailed e => ret (inr e)
  end.

(** [check(check_obj, *args)] *)
Definition call_check (chk : Check) (check_obj : loc) (key : option string)
  : M CheckOutcome :=
  o <- get_obj check_obj ;;
  let '(o', outcome) := chk_call chk o key in
  set_obj check_obj o' ;;;
  ret outcome.

(** The [SchemaError] that [coerce_dtype] raises from a [ParserError]; the
    constructor is called without a reason code. *)
Definition coerce_error (check_obj : loc) (schema : Schema) (dt : DataType)
    (exc : ParserError) : SchemaError :=
  {| err_schema := sch_id schema;
     err_data := check_obj;
     err_message := Some (MsgCoerce (name schema) (dt_name dt) exc);
     err_failure_cases := Some (pe_failure_cases exc);
     err_check := Some (CheckStr ("coerce_dtype('" +:+ dt_name dt +:+ "')"));
     err_check_index := None;
     err_reason_code := default_reason_code |}.

(** [ArraySchemaBackend.coerce_dtype] *)
Definition coerce_dtype (check_obj : loc) (schema : option Schema) : M loc :=
  match schema with
  | None =>
      raise (AssertionError ["The `schema` argument must be provided."])
  | Some schema =>
      match dtype schema with
      | None => ret check_obj
      | Some dt =>
          if negb (coerce schema) then ret check_obj
          else
            r <- try_coerce dt check_obj ;;
            match r with
            | inl coerced => ret coerced
            | inr exc =>
                raise (ExSchemaError (coerce_error check_obj schema dt exc))
            end
      end
  end.

(** [ArraySchemaBackend.check_name] *)
Definition check_name (check_obj : Series) (schema : Schema)
  : CoreCheckResult :=
  {| check := "field_name('" +:+ py_str (name schema) +:+ "')";
     reason_code := "wrong_field_name";
     passed :=
       match name schema with
       | None => true
       | Some n => bool_decide (s_name check_obj = Some n)
       end;
     message :=
       Some (MsgName (s_type check_obj) (name schema) (s_name check_obj));
     failure_cases :=
       Some (scalar_failure_case (name_value (s_name check_obj))) |}.

(** [ArraySchemaBackend.check_nullable] *)
Definition check_nullable (check_obj : Series) (schema : Schema)
  : CoreCheckResult :=
  let isna := isna check_obj in
  let passed := nullable schema || negb (any isna) in
  {| check := "not_nullable";
     reason_code := "series_contains_nulls";
     passed := passed;
     message :=
       Some (MsgNulls (s_name check_obj) (mask_rows (s_rows check_obj) isna));
     failure_cases :=
       Some (reshape_failure_cases (mask_rows (s_rows check_obj) isna)
               false) |}.

(** [type(check_obj).__module__.startswith("pyspark.pandas")] *)
Definition is_pyspark (check_obj : Series) : bool :=
  String.prefix "pyspark.pandas" (ty_module (s_type check_obj)).

(** The duplicate mask of [check_unique], on either engine. *)
Definition duplicates_mask (check_obj : Series) (keep_argument : Keep)
  : list bool :=
  if is_pyspark check_obj then
    reindex (frame_duplicated keep_argument (to_frame check_obj))
            (s_index check_obj)
  else duplicated keep_argument check_obj.

(** [ArraySchemaBackend.check_unique] *)
Definition check_unique (check_obj : Series) (schema : Schema)
  : CoreCheckResult :=
  let '(passed, failure_cases, message) :=
    if unique schema then
      let keep_argument := convert_uniquesettings (report_duplicates schema) in
      let duplicates := duplicates_mask check_obj keep_argument in
      let failed := mask_rows (s_rows check_obj) duplicates in
      if any duplicates then
        (false,
         Some (reshape_failure_cases failed default_ignore_na),
         Some (MsgDuplicates (s_name check_obj) failed))
      else (true, None, None)
    else (true, None, None) in
  {| check := "field_uniqueness";
     reason_code := "series_contains_duplicates";
     passed := passed;
     message := message;
     failure_cases := failure_cases |}.

(** [ArraySchemaBackend.check_dtype] *)
Definition check_dtype (check_obj : Series) (schema : Schema)
  : CoreCheckResult :=
  let '(passed, failure_cases, msg) :=
    match dtype schema with
    | Some dt =>
        match dt_check dt (Engine_dtype (s_dtype check_obj)) check_obj with
        | DtBool b =>
            (b,
             Some (scalar_failure_case (VStr (s_dtype check_obj))),
             Some (MsgDtypeScalar (s_name check_obj) (dt_name dt)
                     (s_dtype check_obj)))
        | DtMask dtype_check_results =>
            let failure_cases :=
              reshape_failure_cases
                (mask_rows (s_rows check_obj) (map negb dtype_check_results))
                false in
            (all dtype_check_results,
             Some failure_cases,
             Some (MsgDtypeMask (s_name check_obj) (dt_name dt)
                     failure_cases))
        end
    | None => (true, None, None)
    end in
  {| check := "dtype('" +:+ py_str (dt_name <$> dtype schema) +:+ "')";
     reason_code := "wrong_dtype";
     passed := passed;
     message := msg;
     failure_cases := failure_cases |}.

(** Modelled from the spec: [PandasSchemaBackend.run_check]
    (pandera/backends/pandas/base.py) is not part of the sources.  It
    calls the check; a check that passes gives [True], a check that
    reports a failure raises a [SchemaError] carrying the failure cases
    (a scalar [False] when there are none), and an exception of the
    check's implementation propagates. *)
Definition check_failure_error (check_obj : loc) (schema : Schema)
    (chk : Check) (check_index : nat) (fc : option FailureCases)
  : SchemaError :=
  {| err_schema := sch_id schema;
     err_data := check_obj;
     err_message := Some (MsgCheckFailed (chk_name chk) check_index);
     err_failure_cases :=
       Some (match fc with
             | Some cases => cases
             | None => scalar_failure_case (VBool false)
             end);
     err_check := Some (CheckObj (chk_name chk));
     err_check_index := Some check_index;
     err_reason_code := default_reason_code |}.

Definition run_check (check_obj : loc) (schema : Schema) (chk : Check)
    (check_index : nat) (key : option string) : M bool :=
  r <- call_check chk check_obj key ;;
  match r with
  | CheckRaised e => raise (ExOther e)
  | CheckReturned true _ => ret true
  | CheckReturned false fc =>
      raise (ExSchemaError
               (check_failure_error check_obj schema chk check_index fc))
  end.

(** [isinstance(err, DispatchError)] *)
Definition is_DispatchError (err : PyExc) : bool :=
  bool_decide (exc_class err = "DispatchError").

(** [f"{err.__class__.__name__}({ err_msg})"] *)
Definition err_str (err : PyExc) : string :=
  let err_msg :=
    match exc_args err with
    | a :: _ => quote +:+ a +:+ quote
    | [] => ""
    end in
  exc_class err +:+ "(" +:+ err_msg +:+ ")".

(** The [SchemaError] that [run_checks] wraps an exception of a check
    in. *)
Definition check_error (check_obj : loc) (schema : Schema) (chk : Check)
    (check_index : nat) (err : PyExc) : SchemaError :=
  {| err_schema := sch_id schema;
     err_data := check_obj;
     err_message := Some (MsgCheckError (err_str err));
     err_failure_cases := Some (scalar_failure_case (VStr (err_str err)));
     err_check := Some (CheckObj (chk_name chk));
     err_check_index := Some check_index;
     err_reason_code := default_reason_code |}.

(** The [except] clauses of [run_checks] for the check at [check_index]. *)
Definition handle_check_exception (check_obj : loc) (schema : Schema)
    (chk : Check) (check_index : nat) (exc : Exc) : M unit :=
  match exc with
  | ExSchemaError err => collect_error (Some "dataframe_check") err None
  | ExSchemaErrors _ _ _ =>
      (* not raised by [run_check]; any other exception takes the broad
         clause *)
      raise exc
  | ExOther err =>
      match (if is_DispatchError err then exc_cause err else Some err) with
      | None =>
          (* [err = err.__cause__] is [None]; [err.args] fails *)
          raise (AttributeError "args")
      | Some err =>
          collect_error (Some "check_error")
            (check_error check_obj schema chk check_index err) (Some err)
      end
  end.

(** [ArraySchemaBackend.run_checks]: the loop over
    [enumerate(schema.checks)], from [check_index] on. *)
Fixpoint run_checks_from (check_index : nat) (remaining : list Check)
    (check_results : list bool) (check_obj : loc) (schema : Schema)
    (lazy : bool) : M (list bool) :=
  match remaining with
  | [] => ret check_results
  | chk :: remaining' =>
      fld <- is_field check_obj ;;
      let check_args := if fld then None else name schema in
      record_call (CallCheck check_index) ;;;
      check_results' <-
        try_except
          (r <- run_check check_obj schema chk check_index check_args ;;
           ret (check_results ++ [r]))
          (fun exc =>
             handle_check_exception check_obj schema chk check_index exc ;;;
             ret check_results) ;;
      run_checks_from (S check_index) remaining' check_results' check_obj
        schema lazy
  end.

Definition run_checks (check_obj : loc) (schema : Schema) (lazy : bool)
  : M (list bool) :=
  run_checks_from 0 (checks schema) [] check_obj schema lazy.

(** The core checks, in the order of the tuple in [validate]. *)
Definition core_checks : list (string * (Series -> Schema -> CoreCheckResult)) :=
  [ ("check_name", check_name);
    ("check_nullable", check_nullable);
    ("check_unique", check_unique);
    ("check_dtype", check_dtype) ].

(** The [SchemaError] that [validate] builds from a failed core check. *)
Definition core_check_error (check_obj : loc) (schema : Schema)
    (check_result : CoreCheckResult) : SchemaError :=
  {| err_schema := sch_id schema;
     err_data := check_obj;
     err_message := message check_result;
     err_failure_cases := failure_cases check_result;
     err_check := Some (CheckStr (check check_result));
     err_check_index := None;
     err_reason_code := Some (reason_code check_result) |}.

(** The loop over the core checks in [validate]. *)
Fixpoint run_core_checks
    (remaining : list (string * (Series -> Schema -> CoreCheckResult)))
    (field_obj_subsample check_obj : loc) (schema : Schema) : M unit :=
  match remaining with
  | [] => ret tt
  | (fn, core_check) :: remaining' =>
      record_call (CallCore fn) ;;;
      s <- get_series field_obj_subsample ;;
      let check_result := core_check s schema in
      (if negb (passed check_result) then
         collect_error (Some (reason_code check_result))
           (core_check_error check_obj schema check_result) None
       else ret tt) ;;;
      run_core_checks remaining' field_obj_subsample check_obj schema
  end.

(** The two backends differ in [coerce_dtype] only. *)
Inductive BackendKind := ArraySchemaBackend | SeriesSchemaBackend.

(** Modelled from the spec: the [pandera] accessor
    (pandera/accessors/pandas_accessor.py) is not part of the sources, and
    the design document only asks that the association be there after
    coercion.  [add_schema] first checks the schema against the kind of
    object: the accessor of a series takes a series schema, which is what
    this backend works with, the accessor of a frame takes a frame schema,
    and neither takes [None]. *)
Definition schema_accepted (o : PandasObj) (schema : option Schema) : bool :=
  match obj_data o, schema with
  | Field _, Some _ => true
  | _, _ => false
  end.

(** Modelled from the spec: [add_schema] of the accessor of the object [o]
    at [check_obj].  A schema that fails the check raises [TypeError] and
    the association stays as it was; otherwise the accessor records the
    schema and hands the object back. *)
Definition add_schema (check_obj : loc) (o : PandasObj)
    (schema : option Schema) : M loc :=
  if schema_accepted o schema then
    set_obj check_obj
      {| obj_data := obj_data o;
         obj_pandera := Some {| acc_schema := sch_id <$> schema |} |} ;;;
    ret check_obj
  else raise (TypeError "schema arg").

(** [if hasattr(check_obj, "pandera"):
       check_obj = check_obj.pandera.add_schema(schema)] *)
Definition add_schema_if_accessor (check_obj : loc) (schema : option Schema)
  : M loc :=
  o <- get_obj check_obj ;;
  match obj_pandera o with
  | Some _ => add_schema check_obj o schema
  | None => ret check_obj
  end.

(** [SeriesSchemaBackend.coerce_dtype] *)
Definition series_coerce_dtype (check_obj : loc) (schema : option Schema)
  : M loc :=
  check_obj <- add_schema_if_accessor check_obj schema ;;
  check_obj <- coerce_dtype check_obj schema ;;
  add_schema_if_accessor check_obj schema.

(** [self.coerce_dtype] *)
Definition self_coerce_dtype (self : BackendKind) : loc -> option Schema -> M loc :=
  match self with
  | ArraySchemaBackend => coerce_dtype
  | SeriesSchemaBackend => series_coerce_dtype
  end.

(** [ArraySchemaBackend.validate], the coercion step. *)
Definition validate_coerce (self : BackendKind) (check_obj : loc)
    (schema : Schema) : M loc :=
  if coerce schema then
    try_except
      (self_coerce_dtype self check_obj (Some schema))
      (fun exc =>
         match exc with
         | ExSchemaError e =>
             collect_error (err_reason_code e) e None ;;; ret check_obj
         | _ => raise exc
         end)
  else ret check_obj.

(** [ArraySchemaBackend.validate], the two subsamples. *)
Definition validate_subsample (check_obj : loc) (schema : Schema)
    (head tail sample : option nat) (random_state : option Z)
  : M (loc * loc) :=
  fld <- is_field check_obj ;;
  field_obj <- (if fld then ret check_obj
                else getitem check_obj (name schema)) ;;
  field_obj_subsample <-
    subsample field_obj head tail sample random_state ;;
  check_obj_subsample <-
    subsample check_obj head tail sample random_state ;;
  ret (field_obj_subsample, check_obj_subsample).

(** [ArraySchemaBackend.validate], from subsampling to the end. *)
Definition validate_checks (check_obj : loc) (schema : Schema)
    (head tail sample : option nat) (random_state : option Z)
    (lazy : bool) : M loc :=
  subsamples <-
    validate_subsample check_obj schema head tail sample random_state ;;
  let '(field_obj_subsample, check_obj_subsample) := subsamples in
  run_core_checks core_checks field_obj_subsample check_obj schema ;;;
  check_results <- run_checks check_obj_subsample schema lazy ;;
  (if all check_results then ret tt else raise (AssertionError [])) ;;;
  errors <- collected_errors ;;
  if lazy && nonempty errors then
    raise (ExSchemaErrors (sch_id schema) errors check_obj)
  else ret check_obj.

(** [ArraySchemaBackend.validate], up to and including coercion. *)
Definition validate_prepare (self : BackendKind) (check_obj : loc)
    (schema : Schema) (lazy inplace : bool) : M loc :=
  new_error_handler lazy ;;;
  check_obj <- preprocess check_obj inplace ;;
  validate_coerce self check_obj schema.

(** [ArraySchemaBackend.validate] *)
Definition validate (self : BackendKind) (check_obj : loc) (schema : Schema)
    (head tail sample : option nat) (random_state : option Z)
    (lazy inplace : bool) : M loc :=
  check_obj <- validate_prepare self check_obj schema lazy inplace ;;
  validate_checks check_obj schema head tail sample random_state lazy.

(** ** Vocabulary of the statements *)

(** The series the core checks look at: the object itself when it is a
    field, its column [key] when it is a frame. *)
Definition field_of (o : PandasObj) (key : option string) : option Series :=
  match obj_data o, key with
  | Field s, _ => Some s
  | Frame cols, Some k => find_column k cols
  | Frame _, None => None
  end.

(** The rows of a series that [subsample] keeps. *)
Definition subsampled (head tail sample : option nat)
    (random_state : option Z) (s : Series) : Series :=
  match head, tail, sample with
  | None, None, None => s
  | _, _, _ => subsample_series head tail sample random_state s
  end.

(** The object that reaches the checks of a [validate] call: the input
    or its copy, coerced when coercion is requested and succeeds. *)
Definition checked_object (self : BackendKind) (check_obj : loc)
    (schema : Schema) (lazy inplace : bool) (w : World)
  : option (loc * PandasObj) :=
  match validate_prepare self check_obj schema lazy inplace w with
  | (Ok l, w') =>
      match heap w' !! l with Some o => Some (l, o) | None => None end
  | (Raise _, _) => None
  end.

(** The heap holds a field with series [s] at [l]. *)
Definition field_at (h : Heap) (l : loc) (s : Series) : Prop :=
  exists o, h !! l = Some o /\ obj_data o = Field s.

(** A world whose handler is lazy. *)
Definition lazy_world (h : Heap) (errs : list CollectedError) (c : list Call)
  : World :=
  {| heap := h;
     error_handler := {| eh_lazy := true; eh_collected := errs |};
     calls := c |}.

(** What the handler holds when the checks start: the coercion error, if
    coercion was requested and failed. *)
Definition coercion_errors (self : BackendKind) (check_obj : loc)
    (schema : Schema) (lazy inplace : bool) (w : World)
  : list CollectedError :=
  eh_collected
    (error_handler (snd (validate_prepare self check_obj schema lazy inplace w))).

(** The run of [self.coerce_dtype] inside the [try] of [validate], on the
    preprocessed object. *)
Definition coercion_attempt (self : BackendKind) (check_obj : loc)
    (schema : Schema) (lazy inplace : bool) : M loc :=
  new_error_handler lazy ;;;
  check_obj <- preprocess check_obj inplace ;;
  self_coerce_dtype self check_obj (Some schema).

(** The column matches the dtype: the check says [True], or its mask is
    true everywhere. *)
Definition dtype_matches (dt : DataType) (s : Series) : bool :=
  match dt_check dt (Engine_dtype (s_dtype s)) s with
  | DtBool b => b
  | DtMask m => all m
  end.

(** The rows of [s] at which a mask is false. *)
Definition nonconforming_rows (s : Series) (m : list bool)
  : list (Label * Value) :=
  map fst (List.filter (fun rb => negb (snd rb)) (combine (s_rows s) m)).

(** The row labels listed in the failure cases of a result. *)
Definition failure_index (r : CoreCheckResult) : list Label :=
  match failure_cases r with
  | Some cases => omap fc_index cases
  | None => []
  end.

(** The results of the core checks that did not pass, in the order the
    checks run. *)
Definition failed_results (s : Series) (schema : Schema)
  : list CoreCheckResult :=
  List.filter (fun r => negb (passed r))
    (map (fun c => snd c s schema) core_checks).

(** The row labels listed in the failure cases of an error. *)
Definition error_index (err : SchemaError) : list Label :=
  match err_failure_cases err with
  | Some cases => omap fc_index cases
  | None => []
  end.

(** The schema attached to an object through its accessor. *)
Definition attached (o : PandasObj) : option SchemaId :=
  match obj_pandera o with
  | Some acc => acc_schema acc
  | None => None
  end.

(** An entry of the handler has reason code [rc]. *)
Definition has_reason (rc : string) (e : CollectedError) : bool :=
  bool_decide (ce_reason_code e = Some rc).

(** Handler entries of the failed core checks among [cs], in order. *)
Definition core_entries
    (cs : list (string * (Series -> Schema -> CoreCheckResult)))
    (s : Series) (check_obj : loc) (schema : Schema) : list CollectedError :=
  map (fun r => {| ce_reason_code := Some (reason_code r);
                   ce_error := core_check_error check_obj schema r |})
      (List.filter (fun r => negb (passed r))
              (map (fun c => snd c s schema) cs)).

Definition core_calls
    (cs : list (string * (Series -> Schema -> CoreCheckResult))) : list Call :=
  map (fun c => CallCore (fst c)) cs.

(** The object after [obj.pandera.add_schema(schema)]. *)
Definition with_schema (o : PandasObj) (schema : Schema) : PandasObj :=
  match obj_pandera o with
  | Some _ =>
      {| obj_data := obj_data o;
         obj_pandera := Some {| acc_schema := Some (sch_id schema) |} |}
  | None => o
  end.

(** All four core checks were invoked, in order, between [w] and [w']. *)
Definition ran_core_checks (w w' : World) : Prop :=
  exists c, calls w' = calls w ++ core_calls core_checks ++ c.

(** The invocations of a complete run: the four core checks, then the
    declared checks by index. *)
Definition all_calls (schema : Schema) : list Call :=
  core_calls core_checks ++ map CallCheck (seq 0 (length (checks schema))).

(** The arguments [run_checks] calls a check with: no key on a field, the
    schema's name on a frame. *)
Definition check_args (o : PandasObj) (schema : Schema) : option string :=
  match obj_data o with
  | Field _ => None
  | Frame _ => name schema
  end.

(** The exception [run_checks] wraps: the cause of a dispatch error, the
    exception itself otherwise. *)
Definition unwrapped (err : PyExc) : option PyExc :=
  if is_DispatchError err then exc_cause err else Some err.

(** A dispatch error raised by the check carries its underlying cause. *)
Definition dispatch_has_cause (chk : Check) : Prop :=
  forall o key o' e,
    chk_call chk o key = (o', CheckRaised e) ->
    is_DispatchError e = true -> is_Some (exc_cause e).

(** Reason codes under which [run_checks] collects. *)
Definition declared_reason (e : CollectedError) : Prop :=
  ce_reason_code e = Some "dataframe_check" \/
  ce_reason_code e = Some "check_error".

(** Whether [subsample] is asked for rows. *)
Definition subsampling (head tail sample : option nat) : bool :=
  match head, tail, sample with
  | None, None, None => false
  | _, _, _ => true
  end.

(** The object [validate] hands to [run_checks]: the checked object itself
    without subsampling, a new object holding the selected rows of every
    column otherwise. *)
Definition subsampled_object (head tail sample : option nat)
    (random_state : option Z) (o : PandasObj) : PandasObj :=
  if subsampling head tail sample then
    {| obj_data :=
         match obj_data o with
         | Field s => Field (subsample_series head tail sample random_state s)
         | Frame cols =>
             Frame (map (subsample_series head tail sample random_state) cols)
         end;
       obj_pandera := fresh_accessor o |}
  else o.

(** Where that object lives, [next] being the first free location when
    [validate] starts subsampling: at the checked object without
    subsampling; otherwise it is made after the subsample of the column,
    which on a frame comes after the column taken out of it. *)
Definition subsample_loc (head tail sample : option nat) (next check_obj : loc)
    (o : PandasObj) : loc :=
  if subsampling head tail sample then
    match obj_data o with
    | Field _ => S next
    | Frame _ => S (S next)
    end
  else check_obj.

(** The first free location once [validate] has preprocessed and coerced
    its input. *)
Definition first_free (self : BackendKind) (check_obj : loc)
    (schema : Schema) (lazy inplace : bool) (w : World) : loc :=
  length (heap (snd (validate_prepare self check_obj schema lazy inplace w))).

(** What a declared check answers on an object when [run_checks] calls it,
    and the state it leaves the object in. *)
Definition check_outcome (chk : Check) (o : PandasObj) (schema : Schema)
  : CheckOutcome :=
  snd (chk_call chk o (check_args o schema)).

Definition check_state (chk : Check) (o : PandasObj) (schema : Schema)
  : PandasObj :=
  fst (chk_call chk o (check_args o schema)).

(** What a lazy handler receives from the declared checks [cs], numbered
    from [check_index] and called one after the other on the object [o] at
    [check_obj]: nothing from a check that passes, an entry under
    "dataframe_check" from one that reports a failure, an entry under
    "check_error" from one that raises.  A dispatch error without a cause
    ends the run. *)
Fixpoint declared_entries (check_index : nat) (cs : list Check)
    (o : PandasObj) (check_obj : loc) (schema : Schema)
  : list CollectedError :=
  match cs with
  | [] => []
  | chk :: cs' =>
      let later :=
        declared_entries (S check_index) cs' (check_state chk o schema)
          check_obj schema in
      match check_outcome chk o schema with
      | CheckReturned true _ => later
      | CheckReturned false fc =>
          {| ce_reason_code := Some "dataframe_check";
             ce_error :=
               check_failure_error check_obj schema chk check_index fc |}
          :: later
      | CheckRaised e =>
          match unwrapped e with
          | Some e' =>
              {| ce_reason_code := Some "check_error";
                 ce_error := check_error check_obj schema chk check_index e' |}
              :: later
          | None => []
          end
      end
  end.

(** Every declared check passes, each on the object as the checks before
    it left it. *)
Fixpoint checks_pass (cs : list Check) (o : PandasObj) (schema : Schema)
  : bool :=
  match cs with
  | [] => true
  | chk :: cs' =>
      match check_outcome chk o schema with
      | CheckReturned true _ => checks_pass cs' (check_state chk o schema) schema
      | _ => false
      end
  end.

(** How many declared checks are invoked under an eager handler: those
    that pass and the first one that does not. *)
Fixpoint eager_invoked (cs : list Check) (o : PandasObj) (schema : Schema)
  : nat :=
  match cs with
  | [] => 0
  | chk :: cs' =>
      match check_outcome chk o schema with
      | CheckReturned true _ =>
          S (eager_invoked cs' (check_state chk o schema) schema)
      | _ => 1
      end
  end.

(** An error describes a failed core result: it carries the schema, the
    checked object, and the message, failure cases, check name and reason
    code of the result. *)
Definition describes (check_obj : loc) (schema : Schema)
    (r : CoreCheckResult) (err : SchemaError) : Prop :=
  err_schema err = sch_id schema /\
  err_data err = check_obj /\
  err_message err = message r /\
  err_failure_cases err = failure_cases r /\
  err_check err = Some (CheckStr (check r)) /\
  err_check_index err = None /\
  err_reason_code err = Some (reason_code r).

End Backend.

(** ** Vocabulary of further properties *)

(** The rows the message of a core check shows ([check_obj[isna]] of
    [check_nullable], [failed] of [check_unique]). *)
Definition reported_rows (r : CoreCheckResult) : list (Label * Value) :=
  match message r with
  | Some (MsgNulls _ rows) | Some (MsgDuplicates _ rows) => rows
  | _ => []
  end.

(** The rows whose value is null. *)
Definition null_rows (s : Series) : list (Label * Value) :=
  List.filter (fun r => is_null (snd r)) (s_rows s).

(** How often a value occurs in a column. *)
Definition occurrences (v : Value) (s : Series) : nat :=
  length (List.filter (value_eqb v) (s_values s)).

(** The rows whose value occurs more than once in the column. *)
Definition repeated_rows (s : Series) : list (Label * Value) :=
  List.filter (fun r => Nat.leb 2 (occurrences (snd r) s)) (s_rows s).

(** The part of [validate_checks] after the declared checks. *)
Definition validate_finish (l : loc) (schema : Schema) (lazy : bool)
    (check_results : list bool) : M loc :=
  (if all check_results then ret tt else raise (AssertionError [])) ;;;
  errors <- collected_errors ;;
  if lazy && nonempty errors then
    raise (ExSchemaErrors (sch_id schema) errors l)
  else ret l.

(** ** Concrete collaborators, data, dtypes and checks

    Used to run the pipeline on explicit inputs. *)

Definition last_rows {A} (n : nat) (l : list A) : list A :=
  drop (length l - n) l.

Definition ex_select_rows (head tail sample : option nat)
    (random_state : option Z) (rows : list (Label * Value))
  : list (Label * Value) :=
  match head, tail, sample with
  | Some n, _, _ => take n rows
  | None, Some n, _ => last_rows n rows
  | None, None, Some n => take n rows
  | None, None, None => rows
  end.

Definition ex_collaborators : Collaborators :=
  {| default_reason_code := None;
     default_ignore_na := true;
     Engine_dtype := fun d => d;
     select_rows := ex_select_rows |}.

Definition pd_Series : PyType :=
  {| ty_module := "pandas.core.series"; ty_name := "Series" |}.

Definition ps_Series : PyType :=
  {| ty_module := "pyspark.pandas.series"; ty_name := "Series" |}.

Fixpoint label_from (i : Z) (vs : list Value) : list (Label * Value) :=
  match vs with
  | [] => []
  | v :: vs' => (i, v) :: label_from (i + 1) vs'
  end.

(** A pandas Series with a range index. *)
Definition ex_series (nm : option string) (dt : string) (vs : list Value)
  : Series :=
  {| s_type := pd_Series; s_name := nm; s_dtype := dt;
     s_rows := label_from 0 vs |}.

(** The values [1, 1, 2, 1]. *)
Definition ex_1121 : Series :=
  ex_series None "int64" [VInt 1; VInt 1; VInt 2; VInt 1].

(** A field object with the accessor registered and, possibly, a schema
    attached. *)
Definition ex_field (s : Series) (attached : option SchemaId) : PandasObj :=
  {| obj_data := Field s;
     obj_pandera := Some {| acc_schema := attached |} |}.

Definition ex_world (h : Heap) : World :=
  {| heap := h;
     error_handler := {| eh_lazy := false; eh_collected := [] |};
     calls := [] |}.

(** Coercion to integers: booleans become 0/1, integers stay, anything
    else cannot be parsed. *)
Definition to_int (v : Value) : option Value :=
  match v with
  | VInt z => Some (VInt z)
  | VBool b => Some (VInt (if b then 1 else 0))
  | _ => None
  end.

Definition coerce_rows (rows : list (Label * Value)) : list (Label * Value) :=
  map (fun r => (fst r, match to_int (snd r) with
                        | Some v => v
                        | None => snd r
                        end)) rows.

Definition unparsed_rows (rows : list (Label * Value))
  : list (Label * Value) :=
  List.filter (fun r => negb (bool_decide (is_Some (to_int (snd r))))) rows.

Definition coerce_series (s : Series) : Series :=
  {| s_type := s_type s; s_name := s_name s; s_dtype := "int64";
     s_rows := coerce_rows (s_rows s) |}.

Definition coerce_data (d : PandasData) : PandasData :=
  match d with
  | Field s => Field (coerce_series s)
  | Frame cols => Frame (map coerce_series cols)
  end.

Definition data_rows (d : PandasData) : list (Label * Value) :=
  match d with
  | Field s => s_rows s
  | Frame cols => concat (map s_rows cols)
  end.

(** An integer dtype whose coercion builds a new object and leaves its
    argument alone. *)
Definition ex_int64 : DataType :=
  {| dt_name := "int64";
     dt_check := fun engine_dtype _ => DtBool (bool_decide (engine_dtype = "int64"));
     dt_try_coerce := fun o =>
       match unparsed_rows (data_rows (obj_data o)) with
       | [] => (o, CoercedNew {| obj_data := coerce_data (obj_data o);
                                 obj_pandera := fresh_accessor o |})
       | bad => (o, CoerceFailed
                      {| pe_message := "could not coerce to int64";
                         pe_failure_cases := reshape_failure_cases bad false |})
       end |}.

(** The same dtype with a coercion that converts its argument in place,
    cell by cell, and so leaves it half converted when it fails. *)
Definition ex_int64_inplace : DataType :=
  {| dt_name := "int64";
     dt_check := fun engine_dtype _ => DtBool (bool_decide (engine_dtype = "int64"));
     dt_try_coerce := fun o =>
       let o' := {| obj_data := coerce_data (obj_data o);
                    obj_pandera := obj_pandera o |} in
       match unparsed_rows (data_rows (obj_data o)) with
       | [] => (o', CoercedInPlace)
       | bad => (o', CoerceFailed
                       {| pe_message := "could not coerce to int64";
                          pe_failure_cases := reshape_failure_cases bad false |})
       end |}.

(** A dtype whose check answers per element. *)
Definition ex_int_elementwise : DataType :=
  {| dt_name := "int_like";
     dt_check := fun _ s =>
       DtMask (map (fun v => bool_decide (is_Some (to_int v))) (s_values s));
     dt_try_coerce := dt_try_coerce ex_int64 |}.

(** Declared checks: one that passes, one that reports a failure, one
    whose implementation raises, and two raising a dispatch error, with
    and without an underlying cause. *)
Definition ex_check_pass : Check :=
  {| chk_name := "always";
     chk_call := fun o _ => (o, CheckReturned true None) |}.

Definition ex_check_fail : Check :=
  {| chk_name := "never";
     chk_call := fun o _ => (o, CheckReturned false None) |}.

(** A declared check that looks at the data: every cell of the column
    holds a positive integer.  On a frame it takes the column under the
    key it is given. *)
Definition is_positive (v : Value) : bool :=
  match v with
  | VInt z => (0 <? z)%Z
  | _ => false
  end.

Definition ex_check_positive : Check :=
  {| chk_name := "positive";
     chk_call := fun o key =>
       match field_of o key with
       | Some s =>
           match List.filter (fun r => negb (is_positive (snd r))) (s_rows s)
           with
           | [] => (o, CheckReturned true None)
           | bad =>
               (o, CheckReturned false (Some (reshape_failure_cases bad false)))
           end
       | None => (o, CheckRaised (mkPyExc "KeyError" [py_str key] None))
       end |}.

Definition ex_ValueError : PyExc := mkPyExc "ValueError" ["boom"] None.

Definition ex_check_raise : Check :=
  {| chk_name := "broken";
     chk_call := fun o _ => (o, CheckRaised ex_ValueError) |}.

Definition ex_check_dispatch : Check :=
  {| chk_name := "dispatched";
     chk_call := fun o _ =>
       (o, CheckRaised (mkPyExc "DispatchError" ["Function f"]
                          (Some (mkPyExc "TypeError" ["bad operand"] None)))) |}.

Definition ex_check_dispatch_nocause : Check :=
  {| chk_name := "unmatched";
     chk_call := fun o _ =>
       (o, CheckRaised (mkPyExc "DispatchError" ["no match"] None)) |}.

Definition ex_schema (nm : option string) (dt : option DataType)
    (nullable unique coerce : bool) (cs : list Check) : Schema :=
  {| sch_id := 1; name := nm; dtype := dt; nullable := nullable;
     unique := unique; report_duplicates := exclude_first;
     coerce := coerce; checks := cs |}.

(** A column named "a" with a null and a repeated value, one that holds a
    string among integers, and one that is already of dtype int64. *)
Definition ex_nulls_dups : Series :=
  ex_series (Some "a") "object" [VInt 1; VNull; VInt 1].
Definition ex_mixed : Series :=
  ex_series (Some "a") "object" [VInt 1; VStr "x"].
Definition ex_ints : Series :=
  ex_series (Some "a") "int64" [VInt 1; VInt 2].

(** A schema for column "a": not nullable, unique, no dtype, with a check
    that raises followed by one that passes. *)
Definition ex_schema_strict : Schema :=
  ex_schema (Some "a") None false true false [ex_check_raise; ex_check_pass].

(** A schema for column "a" that coerces to int64. *)
Definition ex_schema_coerce : Schema :=
  ex_schema (Some "a") (Some ex_int64) true false true [ex_check_pass].

(** A frame with the columns "a" and "b". *)
Definition ex_frame : PandasObj :=
  {| obj_data := Frame [ex_ints; ex_series (Some "b") "object" [VStr "x"; VNull]];
     obj_pandera := Some {| acc_schema := None |} |}.

(** A schema for column "a" that asks for int64 without coercing. *)
Definition ex_schema_int : Schema :=
  ex_schema (Some "a") (Some ex_int64) false true false [ex_check_pass].

(** A schema for column "a" whose declared checks look at the data. *)
Definition ex_schema_positive : Schema :=
  ex_schema (Some "a") (Some ex_int64) false true false
    [ex_check_positive; ex_check_pass].

(** A schema that asks for unique values and reports every duplicate. *)
Definition ex_schema_report_all : Schema :=
  {| sch_id := 1; name := None; dtype := None; nullable := true;
     unique := true; report_duplicates := report_all;
     coerce := false; checks := [] |}.

(** ** Invariants of a call *)

(** The first [n] objects of the heap stay as they are. *)
Definition frame_pre (n : nat) (w : World) : Prop := n <= length (heap w).
Definition frame_rel (n : nat) (w w' : World) : Prop :=
  take n (heap w') = take n (heap w).
Definition above (n : nat) (l : loc) : Prop := n <= l.

(** No requirement on the world, none on a location. *)
Definition no_pre (_ : World) : Prop := True.
Definition any_loc (_ : loc) : Prop := True.

(** The error handler stays as it is. *)
Definition handler_rel (w w' : World) : Prop :=
  error_handler w' = error_handler w.

(** The history of invocations stays as it is. *)
Definition calls_rel (w w' : World) : Prop := calls w' = calls w.

(** The mode of the error handler stays as it is. *)
Definition mode_rel (w w' : World) : Prop :=
  eh_lazy (error_handler w') = eh_lazy (error_handler w).

(** ** Further invariants and outcomes *)

(** [m] reads and writes the heap only: its outcome and the heap it
    leaves depend on the heap alone, the handler and the history stay. *)
Definition blind {A} (m : M A) : Prop :=
  forall w,
    error_handler (snd (m w)) = error_handler w /\
    calls (snd (m w)) = calls w /\
    forall w2, heap w2 = heap w ->
      fst (m w2) = fst (m w) /\ heap (snd (m w2)) = heap (snd (m w)).

(** Exceptions other than the framework's own. *)
Definition other (e : Exc) : Prop :=
  match e with ExOther _ => True | _ => False end.

(** Anything but the aggregate [SchemaErrors]. *)
Definition no_aggregate (e : Exc) : Prop :=
  match e with ExSchemaErrors _ _ _ => False | _ => True end.

(** Anything but a single [SchemaError]. *)
Definition no_single (e : Exc) : Prop :=
  match e with ExSchemaError _ => False | _ => True end.

(** The exceptions that leave [m] satisfy [E]. *)
Definition raises {A} (E : Exc -> Prop) (m : M A) : Prop :=
  forall w e, fst (m w) = Raise e -> E e.

(** Started where [P] holds, [m] ends where [P] holds, and the exceptions
    that leave it satisfy [E]. *)
Definition ends {A} (P : World -> Prop) (E : Exc -> Prop) (m : M A) : Prop :=
  forall w, P w -> P (snd (m w)) /\ forall e, fst (m w) = Raise e -> E e.

(** The handler of a lazy call; the handler of an eager call, which never
    holds an error. *)
Definition lazy_mode (w : World) : Prop := eh_lazy (error_handler w) = true.
Definition eager_clean (w : World) : Prop :=
  error_handler w = {| eh_lazy := false; eh_collected := [] |}.

(** A world of a lazy call and a world of an eager call that agree on the
    heap and the history, no error collected yet. *)
Definition twin (wl we : World) : Prop :=
  heap wl = heap we /\ calls wl = calls we /\
  error_handler wl = {| eh_lazy := true; eh_collected := [] |} /\
  error_handler we = {| eh_lazy := false; eh_collected := [] |}.

(** The lazy handler of [w] holds [first] as its first error. *)
Definition collected_first (first : SchemaError) (w : World) : Prop :=
  eh_lazy (error_handler w) = true /\
  exists rc rest,
    eh_collected (error_handler w) =
    {| ce_reason_code := rc; ce_error := first |} :: rest.

(** [ml] under a lazy handler and [me] under an eager one, started in twin
    worlds: either they end alike, in twin worlds, or the eager run has
    raised the error that the lazy run collected first. *)
Definition agree {A} (ml me : M A) : Prop :=
  forall wl we, twin wl we ->
    (fst (ml wl) = fst (me we) /\ twin (snd (ml wl)) (snd (me we))) \/
    (exists e, collected_first e (snd (ml wl)) /\
               fst (me we) = Raise (ExSchemaError e)).

(** [m] leaves the first collected error where it is. *)
Definition keeps_first {A} (m : M A) : Prop :=
  forall e, ends (collected_first e) (fun _ => True) m.

(** * Properties *)

(** ** Duplicate masks *)

Lemma existsb_value_eqb v l :
  existsb (value_eqb v) l = true <-> value_key v ∈ map value_key l.
Proof.
  rewrite existsb_exists, list_elem_of_fmap. split.
  - intros (x & Hin & Heq). unfold value_eqb in Heq.
    apply bool_decide_eq_true in Heq. exists x.
    split; [done|by apply list_elem_of_In].
  - intros (x & Heq & Hin). exists x. split; [by apply list_elem_of_In|].
    unfold value_eqb. by apply bool_decide_eq_true.
Qed.

Lemma existsb_value_eqb_false v l :
  existsb (value_eqb v) l = false <-> value_key v ∉ map value_key l.
Proof.
  rewrite <- existsb_value_eqb. destruct (existsb _ _); split; congruence.
Qed.

Lemma any_duplicated_from keep before rest :
  any (duplicated_from keep before rest) = false <->
  NoDup (map value_key rest) /\
  (match keep with
   | keep_last => True
   | _ => forall k, k ∈ map value_key rest -> k ∉ map value_key before
   end).
Proof.
  unfold any. revert before. induction rest as [|v rest IH]; intros before;
    cbn [duplicated_from existsb map].
  - split; [intros _|done]. split; [constructor|].
    destruct keep; try done; intros k Hk; by apply elem_of_nil in Hk.
  - unfold id at 1. rewrite orb_false_iff, IH, NoDup_cons. cbn [map].
    destruct keep.
    + rewrite existsb_value_eqb_false. split.
      * intros (Hb & Hnd & Hdis). split.
        -- split; [|done]. intros Hin. apply (Hdis _ Hin). by left.
        -- intros x Hx. apply elem_of_cons in Hx as [->|Hx]; [done|].
           intros Hxb. apply (Hdis x Hx). by right.
      * intros ((Hv & Hnd) & Hdis). split; [apply Hdis; by left|].
        split; [done|]. intros x Hx Hxb.
        apply elem_of_cons in Hxb as [->|Hxb]; [done|].
        apply (Hdis x); [by right|done].
    + rewrite existsb_value_eqb_false. tauto.
    + rewrite orb_false_iff, !existsb_value_eqb_false. split.
      * intros ((Hb & Hr) & Hnd & Hdis). split; [done|].
        intros x Hx. apply elem_of_cons in Hx as [->|Hx]; [done|].
        intros Hxb. apply (Hdis x Hx). by right.
      * intros ((Hv & Hnd) & Hdis). split.
        -- split; [apply Hdis; by left|done].
        -- split; [done|]. intros x Hx Hxb.
           apply elem_of_cons in Hxb as [->|Hxb]; [done|].
           apply (Hdis x); [by right|done].
Qed.

Lemma any_duplicated keep s :
  any (duplicated keep s) = false <-> NoDup (map value_key (s_values s)).
Proof.
  unfold duplicated. rewrite any_duplicated_from. split; [tauto|].
  intros Hnd. split; [done|]. destruct keep; try done; intros v _ Hv;
    by apply elem_of_nil in Hv.
Qed.

Lemma length_duplicated_from keep before rest :
  length (duplicated_from keep before rest) = length rest.
Proof. revert before. induction rest; intros; simpl; [done|]. by rewrite IHrest. Qed.

Lemma reindex_combine idx m :
  NoDup idx -> length m = length idx -> reindex (combine idx m) idx = m.
Proof.
  unfold reindex. revert m. induction idx as [|i idx IH]; intros m Hnd Hlen.
  - destruct m; [done|discriminate].
  - destruct m as [|b m]; [discriminate|]. simpl.
    rewrite Z.eqb_refl. f_equal.
    apply NoDup_cons in Hnd as [Hi Hnd].
    transitivity (map (fun l => lookup_label l (combine idx m)) idx);
      [|apply IH; [done|simpl in Hlen; lia]].
    apply map_ext_in. intros l Hl.
    destruct (Z.eqb_spec l i) as [->|]; [|done].
    exfalso. apply Hi. by apply list_elem_of_In.
Qed.

(** ** The pipeline, step by step *)

Section Proofs.
Context `{Collaborators}.

Arguments core_calls : simpl never.
Arguments core_entries : simpl never.

Lemma get_series_field h eh c l s :
  field_at h l s ->
  get_series l {| heap := h; error_handler := eh; calls := c |} =
  (Ok s, {| heap := h; error_handler := eh; calls := c |}).
Proof.
  intros (o & Hl & Hd). unfold get_series, bind, get_obj. simpl.
  rewrite Hl, Hd. reflexivity.
Qed.

Lemma core_entries_cons fn f cs s co schema :
  core_entries ((fn, f) :: cs) s co schema =
  (if passed (f s schema) then []
   else [ {| ce_reason_code := Some (reason_code (f s schema));
             ce_error := core_check_error co schema (f s schema) |} ])
  ++ core_entries cs s co schema.
Proof.
  unfold core_entries. simpl. by destruct (passed (f s schema)).
Qed.

Lemma core_calls_cons fn f cs :
  core_calls ((fn, f) :: cs) = CallCore fn :: core_calls cs.
Proof. reflexivity. Qed.

Lemma core_calls_app cs1 cs2 :
  core_calls (cs1 ++ cs2) = core_calls cs1 ++ core_calls cs2.
Proof. unfold core_calls. by rewrite map_app. Qed.

Lemma run_core_checks_lazy cs fl co schema s h errs c :
  field_at h fl s ->
  run_core_checks cs fl co schema
    {| heap := h; error_handler := {| eh_lazy := true; eh_collected := errs |};
       calls := c |} =
  (Ok tt,
   {| heap := h;
      error_handler :=
        {| eh_lazy := true;
           eh_collected := errs ++ core_entries cs s co schema |};
      calls := c ++ core_calls cs |}).
Proof.
  intros Hf. revert errs c.
  induction cs as [|[fn f] cs IH]; intros errs c; simpl.
  - unfold ret. cbn. by rewrite !app_nil_r.
  - unfold bind at 1. unfold record_call at 1. unfold with_calls. simpl.
    unfold bind at 1. rewrite (get_series_field _ _ _ _ _ Hf).
    rewrite core_entries_cons, core_calls_cons.
    destruct (passed (f s schema)) eqn:Hp; simpl.
    + unfold bind at 1. unfold ret at 1. rewrite IH.
      by rewrite <- !app_assoc.
    + unfold bind at 1. unfold collect_error, with_handler. simpl.
      rewrite IH. by rewrite <- !app_assoc.
Qed.

Lemma run_core_checks_eager_pass cs fl co schema s h errs c :
  field_at h fl s ->
  Forall (fun f => passed (snd f s schema) = true) cs ->
  run_core_checks cs fl co schema
    {| heap := h; error_handler := {| eh_lazy := false; eh_collected := errs |};
       calls := c |} =
  (Ok tt,
   {| heap := h;
      error_handler := {| eh_lazy := false; eh_collected := errs |};
      calls := c ++ core_calls cs |}).
Proof.
  intros Hf Hall. revert c.
  induction Hall as [|[fn f] cs Hp Hall IH]; intros c; simpl.
  - unfold ret. cbn. by rewrite !app_nil_r.
  - unfold bind at 1. unfold record_call at 1. unfold with_calls. simpl.
    unfold bind at 1. rewrite (get_series_field _ _ _ _ _ Hf).
    simpl in Hp. rewrite Hp. simpl.
    unfold bind at 1. unfold ret at 1. rewrite IH.
    rewrite core_calls_cons. by rewrite <- !app_assoc.
Qed.

Lemma run_core_checks_eager_fail pre fn f post fl co schema s h errs c :
  field_at h fl s ->
  Forall (fun f => passed (snd f s schema) = true) pre ->
  passed (f s schema) = false ->
  run_core_checks (pre ++ (fn, f) :: post) fl co schema
    {| heap := h; error_handler := {| eh_lazy := false; eh_collected := errs |};
       calls := c |} =
  (Raise (ExSchemaError (core_check_error co schema (f s schema))),
   {| heap := h;
      error_handler := {| eh_lazy := false; eh_collected := errs |};
      calls := c ++ core_calls (pre ++ [(fn, f)]) |}).
Proof.
  intros Hf Hall Hfail. revert c.
  induction Hall as [|[gn g] pre Hp Hall IH]; intros c; simpl.
  - unfold bind at 1. unfold record_call at 1. unfold with_calls. simpl.
    unfold bind at 1. rewrite (get_series_field _ _ _ _ _ Hf).
    rewrite Hfail. simpl. unfold bind at 1. unfold collect_error. simpl.
    reflexivity.
  - unfold bind at 1. unfold record_call at 1. unfold with_calls. simpl.
    unfold bind at 1. rewrite (get_series_field _ _ _ _ _ Hf).
    simpl in Hp. rewrite Hp. simpl.
    unfold bind at 1. unfold ret at 1. rewrite IH.
    rewrite core_calls_cons. by rewrite <- !app_assoc.
Qed.

Lemma lookup_alloc_new (h : Heap) (o : PandasObj) :
  (h ++ [o]) !! length h = Some o.
Proof. by apply list_lookup_middle. Qed.

Lemma subsample_spec l head tail sample rs h eh c o :
  h !! l = Some o ->
  exists l' hx o',
    subsample l head tail sample rs
      {| heap := h; error_handler := eh; calls := c |} =
    (Ok l', {| heap := h ++ hx; error_handler := eh; calls := c |}) /\
    (h ++ hx) !! l' = Some o' /\
    (l' = l \/ length h <= l') /\
    (forall s, obj_data o = Field s ->
               obj_data o' = Field (subsampled head tail sample rs s)).
Proof.
  intros Hl.
  assert (Hsome :
    exists l' hx o',
      (o <- get_obj l ;;
       alloc {| obj_data :=
                  match obj_data o with
                  | Field s =>
                      Field (subsample_series head tail sample rs s)
                  | Frame cols =>
                      Frame (map (subsample_series head tail sample rs) cols)
                  end;
                obj_pandera := fresh_accessor o |})
        {| heap := h; error_handler := eh; calls := c |} =
      (Ok l', {| heap := h ++ hx; error_handler := eh; calls := c |}) /\
      (h ++ hx) !! l' = Some o' /\
      (l' = l \/ length h <= l') /\
      (forall s, obj_data o = Field s ->
                 obj_data o' = Field (subsample_series head tail sample rs s))).
  { unfold bind, get_obj, alloc, with_heap. simpl. rewrite Hl.
    eexists _, [_], _. split; [reflexivity|].
    split; [apply lookup_alloc_new|]. split; [right; simpl; lia|].
    intros s Hs. simpl. by rewrite Hs. }
  unfold subsample, subsampled.
  destruct head, tail, sample; try exact Hsome.
  exists l, [], o. rewrite app_nil_r. unfold ret. repeat split; auto.
Qed.

Lemma validate_subsample_spec co schema head tail sample rs h eh c o fld :
  h !! co = Some o ->
  field_of o (name schema) = Some fld ->
  exists fl cs hx,
    validate_subsample co schema head tail sample rs
      {| heap := h; error_handler := eh; calls := c |} =
    (Ok (fl, cs), {| heap := h ++ hx; error_handler := eh; calls := c |}) /\
    field_at (h ++ hx) fl (subsampled head tail sample rs fld) /\
    is_Some ((h ++ hx) !! cs) /\
    (cs = co \/ length h <= cs).
Proof.
  intros Hco Hfld. unfold validate_subsample.
  unfold bind at 1. unfold is_field, bind at 1, get_obj. simpl. rewrite Hco.
  unfold ret at 1. unfold field_of in Hfld.
  destruct (obj_data o) as [s|cols] eqn:Hd.
  - injection Hfld as ->. unfold bind at 1. unfold ret at 1.
    unfold bind at 1.
    destruct (subsample_spec co head tail sample rs h eh c o Hco)
      as (fl & hx & ofl & -> & Hfl & _ & Hdata).
    unfold bind at 1.
    destruct (subsample_spec co head tail sample rs (h ++ hx) eh c o
                (lookup_app_l_Some _ _ _ _ Hco))
      as (cs & hy & ocs & -> & Hcs & Hcs' & _).
    exists fl, cs, (hx ++ hy). rewrite app_assoc. unfold ret.
    split; [done|]. split.
    + exists ofl. split; [by apply lookup_app_l_Some|by apply Hdata].
    + split; [done|]. rewrite length_app in Hcs'. lia.
  - destruct (name schema) as [k|] eqn:Hk; [|done].
    unfold bind at 1. unfold getitem, bind at 1, get_obj. simpl.
    rewrite Hco, Hd, Hfld. unfold alloc, with_heap. simpl.
    unfold bind at 1.
    destruct (subsample_spec (length h) head tail sample rs
                (h ++ [ {| obj_data := Field fld;
                           obj_pandera := fresh_accessor o |} ]) eh c _
                (lookup_alloc_new _ _))
      as (fl & hx & ofl & -> & Hfl & _ & Hdata).
    unfold bind at 1.
    destruct (subsample_spec co head tail sample rs _ eh c o
                (lookup_app_l_Some _ hx _ _
                   (lookup_app_l_Some _ [ {| obj_data := Field fld;
                           obj_pandera := fresh_accessor o |} ] _ _ Hco)))
      as (cs & hy & ocs & -> & Hcs & Hcs' & _).
    exists fl, cs, ([ {| obj_data := Field fld;
                         obj_pandera := fresh_accessor o |} ] ++ hx ++ hy).
    rewrite !app_assoc. unfold ret.
    split; [done|]. split.
    + exists ofl. split; [by apply lookup_app_l_Some|by apply Hdata].
    + split; [done|]. rewrite !length_app in Hcs'. lia.
Qed.

Lemma run_checks_from_step idx chk rest acc co schema lz h errs c o :
  h !! co = Some o ->
  run_checks_from idx (chk :: rest) acc co schema lz (lazy_world h errs c) =
  let after es :=
    lazy_world (<[co := fst (chk_call chk o (check_args o schema))]> h)
      (errs ++ es) (c ++ [CallCheck idx]) in
  match snd (chk_call chk o (check_args o schema)) with
  | CheckReturned true _ =>
      run_checks_from (S idx) rest (acc ++ [true]) co schema lz (after [])
  | CheckReturned false fc =>
      run_checks_from (S idx) rest acc co schema lz
        (after [ {| ce_reason_code := Some "dataframe_check";
                    ce_error := check_failure_error co schema chk idx fc |} ])
  | CheckRaised e =>
      match unwrapped e with
      | Some e' =>
          run_checks_from (S idx) rest acc co schema lz
            (after [ {| ce_reason_code := Some "check_error";
                        ce_error := check_error co schema chk idx e' |} ])
      | None => (Raise (AttributeError "args"), after [])
      end
  end.
Proof.
  intros Hco. cbn [run_checks_from]. unfold lazy_world.
  unfold bind at 1. unfold is_field, bind at 1, get_obj. simpl. rewrite Hco.
  unfold ret at 1.
  replace (if match obj_data o with Field _ => true | Frame _ => false end
           then None else name schema) with (check_args o schema)
    by (unfold check_args; destruct (obj_data o); done).
  unfold bind at 1. unfold record_call at 1, with_calls. simpl.
  unfold bind at 1. unfold try_except at 1.
  unfold bind at 1. unfold run_check, bind at 1.
  unfold call_check, bind at 1, get_obj. simpl. rewrite Hco.
  destruct (chk_call chk o (check_args o schema)) as [o' out]. simpl.
  destruct out as [[|] fc|e]; simpl.
  - unfold ret, with_heap. simpl. by rewrite app_nil_r.
  - unfold raise, with_heap, bind, collect_error, with_handler, ret. simpl.
    reflexivity.
  - unfold raise, with_heap, unwrapped. simpl.
    destruct (is_DispatchError e); [destruct (exc_cause e)|];
      unfold bind, collect_error, with_handler, ret, raise; simpl;
      rewrite ?app_nil_r; reflexivity.
Qed.

Lemma declared_reason_dataframe e :
  declared_reason {| ce_reason_code := Some "dataframe_check"; ce_error := e |}.
Proof. by left. Qed.

Lemma declared_reason_check_error e :
  declared_reason {| ce_reason_code := Some "check_error"; ce_error := e |}.
Proof. by right. Qed.

Lemma all_app_true acc : all acc = true -> all (acc ++ [true]) = true.
Proof. unfold all. rewrite forallb_app. intros ->. reflexivity. Qed.

Lemma run_checks_from_lazy cs idx acc co schema lz h errs c :
  is_Some (h !! co) ->
  Forall dispatch_has_cause cs ->
  exists results entries h',
    run_checks_from idx cs acc co schema lz (lazy_world h errs c) =
    (Ok results,
     lazy_world h' (errs ++ entries)
       (c ++ map CallCheck (seq idx (length cs)))) /\
    length h' = length h /\
    (all acc = true -> all results = true) /\
    Forall declared_reason entries /\
    (forall l, l <> co -> h' !! l = h !! l).
Proof.
  intros Hco Hcause. revert idx acc h errs c Hco.
  induction Hcause as [|chk cs Hchk Hcause IH]; intros idx acc h errs c Hco.
  - exists acc, [], h. simpl. unfold ret. rewrite !app_nil_r.
    repeat split; auto.
  - destruct Hco as [o Hco].
    rewrite (run_checks_from_step _ _ _ _ _ _ _ _ _ _ _ Hco). cbv zeta.
    destruct (chk_call chk o (check_args o schema)) as [o' out] eqn:Hcall.
    simpl.
    assert (Hco' : is_Some (<[co:=o']> h !! co)).
    { exists o'. apply list_lookup_insert_eq. by apply lookup_lt_Some with o. }
    assert (Hframe : forall (h' : Heap) l,
              (forall l, l <> co -> h' !! l = <[co:=o']> h !! l) ->
              l <> co -> h' !! l = h !! l).
    { intros h' l Hh' Hne. rewrite Hh' by done.
      by apply list_lookup_insert_ne. }
    destruct out as [[|] fc|e].
    + destruct (IH (S idx) (acc ++ [true]) _ (errs ++ []) (c ++ [CallCheck idx]) Hco')
        as (results & entries & h' & -> & Hlen & Hall & Hent & Hfr).
      exists results, entries, h'. rewrite app_nil_r, <- !app_assoc. simpl.
      split; [done|]. rewrite length_insert in Hlen.
      repeat split; eauto using all_app_true.
    + destruct (IH (S idx) acc _
                  (errs ++ [ {| ce_reason_code := Some "dataframe_check";
                      ce_error := check_failure_error co schema chk idx fc |} ])
                  (c ++ [CallCheck idx]) Hco')
        as (results & entries & h' & -> & Hlen & Hall & Hent & Hfr).
      eexists results, (_ :: entries), h'. rewrite <- !app_assoc. simpl.
      split; [done|]. rewrite length_insert in Hlen.
      repeat split; eauto using declared_reason_dataframe.
    + destruct (unwrapped e) as [e'|] eqn:Hun.
      * destruct (IH (S idx) acc _
                  (errs ++ [ {| ce_reason_code := Some "check_error";
                      ce_error := check_error co schema chk idx e' |} ])
                  (c ++ [CallCheck idx]) Hco')
          as (results & entries & h' & -> & Hlen & Hall & Hent & Hfr).
        eexists results, (_ :: entries), h'. rewrite <- !app_assoc. simpl.
        split; [done|]. rewrite length_insert in Hlen.
        repeat split; eauto using declared_reason_check_error.
      * exfalso. unfold unwrapped in Hun.
        destruct (is_DispatchError e) eqn:Hd; [|done].
        destruct (Hchk _ _ _ _ Hcall Hd) as [x Hx]. congruence.
Qed.

(** *** The objects and locations of the two subsamples *)

Lemma subsample_exact l head tail sample rs h eh c o :
  h !! l = Some o ->
  subsample l head tail sample rs
    {| heap := h; error_handler := eh; calls := c |} =
  if subsampling head tail sample then
    (Ok (length h),
     {| heap := h ++ [subsampled_object head tail sample rs o];
        error_handler := eh; calls := c |})
  else (Ok l, {| heap := h; error_handler := eh; calls := c |}).
Proof.
  intros Hl. unfold subsample, subsampled_object, subsampling.
  destruct head, tail, sample;
    unfold bind, get_obj, alloc, with_heap, ret; simpl; rewrite ?Hl;
    reflexivity.
Qed.

Lemma subsampled_object_field head tail sample rs o s :
  obj_data o = Field s ->
  obj_data (subsampled_object head tail sample rs o) =
  Field (subsampled head tail sample rs s).
Proof.
  intros Hd. unfold subsampled_object, subsampled, subsampling.
  destruct head, tail, sample; simpl; by rewrite Hd.
Qed.

Lemma validate_subsample_exact co schema head tail sample rs h eh c o fld :
  h !! co = Some o ->
  field_of o (name schema) = Some fld ->
  exists fl hx,
    validate_subsample co schema head tail sample rs
      {| heap := h; error_handler := eh; calls := c |} =
    (Ok (fl, subsample_loc head tail sample (length h) co o),
     {| heap := h ++ hx; error_handler := eh; calls := c |}) /\
    field_at (h ++ hx) fl (subsampled head tail sample rs fld) /\
    (h ++ hx) !! subsample_loc head tail sample (length h) co o =
      Some (subsampled_object head tail sample rs o).
Proof.
  intros Hco Hfld. unfold validate_subsample.
  unfold bind at 1. unfold is_field, bind at 1, get_obj. simpl. rewrite Hco.
  unfold ret at 1. unfold field_of in Hfld. unfold subsample_loc.
  destruct (obj_data o) as [s|cols] eqn:Hd.
  - injection Hfld as ->. unfold bind at 1. unfold ret at 1.
    unfold bind at 1. rewrite (subsample_exact _ _ _ _ _ _ _ _ _ Hco).
    destruct (subsampling head tail sample) eqn:Hs.
    + unfold bind at 1.
      rewrite (subsample_exact co head tail sample rs _ eh c o
                 (lookup_app_l_Some _ _ _ _ Hco)), Hs.
      unfold ret. rewrite length_app. simpl.
      replace (length h + 1) with (S (length h)) by lia.
      eexists (length h), [_; _].
      replace (h ++ [subsampled_object head tail sample rs o;
                     subsampled_object head tail sample rs o])
        with ((h ++ [subsampled_object head tail sample rs o]) ++
              [subsampled_object head tail sample rs o])
        by (by rewrite <- app_assoc).
      split; [reflexivity|]. split.
      * exists (subsampled_object head tail sample rs o). split.
        -- apply lookup_app_l_Some, lookup_alloc_new.
        -- by apply subsampled_object_field.
      * replace (S (length h))
          with (length (h ++ [subsampled_object head tail sample rs o]))
          by (rewrite length_app; simpl; lia).
        apply lookup_alloc_new.
    + unfold bind at 1. rewrite (subsample_exact _ _ _ _ _ _ _ _ _ Hco), Hs.
      unfold ret. exists co, []. rewrite app_nil_r.
      assert (Ho : subsampled_object head tail sample rs o = o)
        by (unfold subsampled_object; by rewrite Hs).
      split; [reflexivity|]. split; [|by rewrite Ho].
      exists o. split; [done|]. rewrite <- Ho.
      by apply subsampled_object_field.
  - destruct (name schema) as [k|] eqn:Hk; [|done].
    unfold bind at 1. unfold getitem, bind at 1, get_obj. simpl.
    rewrite Hco, Hd, Hfld. unfold alloc, with_heap. simpl.
    set (col := {| obj_data := Field fld; obj_pandera := fresh_accessor o |}).
    unfold bind at 1.
    rewrite (subsample_exact (length h) head tail sample rs (h ++ [col]) eh c
               col (lookup_alloc_new _ _)).
    destruct (subsampling head tail sample) eqn:Hs.
    + unfold bind at 1.
      rewrite (subsample_exact co head tail sample rs _ eh c o
                 (lookup_app_l_Some _ _ _ _
                    (lookup_app_l_Some _ [col] _ _ Hco))), Hs.
      unfold ret. rewrite !length_app. simpl.
      replace (length h + 1 + 1) with (S (S (length h))) by lia.
      replace (length h + 1) with (S (length h)) by lia.
      exists (S (length h)),
        [col; subsampled_object head tail sample rs col;
         subsampled_object head tail sample rs o].
      replace (h ++ [col; subsampled_object head tail sample rs col;
                     subsampled_object head tail sample rs o])
        with (((h ++ [col]) ++ [subsampled_object head tail sample rs col]) ++
              [subsampled_object head tail sample rs o])
        by (by rewrite <- !app_assoc).
      split; [reflexivity|]. split.
      * exists (subsampled_object head tail sample rs col). split.
        -- apply lookup_app_l_Some.
           replace (S (length h)) with (length (h ++ [col]))
             by (rewrite length_app; simpl; lia).
           apply lookup_alloc_new.
        -- by apply subsampled_object_field.
      * replace (S (S (length h)))
          with (length ((h ++ [col]) ++
                        [subsampled_object head tail sample rs col]))
          by (rewrite !length_app; simpl; lia).
        apply lookup_alloc_new.
    + unfold bind at 1.
      rewrite (subsample_exact co head tail sample rs _ eh c o
                 (lookup_app_l_Some _ [col] _ _ Hco)), Hs.
      unfold ret. exists (length h), [col].
      assert (Ho : forall x, subsampled_object head tail sample rs x = x)
        by (intros x; unfold subsampled_object; by rewrite Hs).
      split; [reflexivity|]. split.
      * exists col. split; [apply lookup_alloc_new|].
        rewrite <- (Ho col). by apply subsampled_object_field.
      * rewrite Ho. by apply lookup_app_l_Some.
Qed.

(** *** One turn of the loop of [run_checks], under any handler *)

Lemma run_checks_from_cons idx chk rest acc co schema lz h eh c o :
  h !! co = Some o ->
  run_checks_from idx (chk :: rest) acc co schema lz
    {| heap := h; error_handler := eh; calls := c |} =
  let w1 := {| heap := <[co := check_state chk o schema]> h;
               error_handler := eh; calls := c ++ [CallCheck idx] |} in
  match check_outcome chk o schema with
  | CheckReturned true _ =>
      run_checks_from (S idx) rest (acc ++ [true]) co schema lz w1
  | CheckReturned false fc =>
      (collect_error (Some "dataframe_check")
         (check_failure_error co schema chk idx fc) None ;;;
       run_checks_from (S idx) rest acc co schema lz) w1
  | CheckRaised e =>
      match unwrapped e with
      | Some e' =>
          (collect_error (Some "check_error")
             (check_error co schema chk idx e') (Some e') ;;;
           run_checks_from (S idx) rest acc co schema lz) w1
      | None => (Raise (AttributeError "args"), w1)
      end
  end.
Proof.
  intros Hco. cbn [run_checks_from]. unfold check_outcome, check_state.
  unfold bind at 1. unfold is_field, bind at 1, get_obj. simpl. rewrite Hco.
  unfold ret at 1.
  replace (if match obj_data o with Field _ => true | Frame _ => false end
           then None else name schema) with (check_args o schema)
    by (unfold check_args; destruct (obj_data o); done).
  unfold bind at 1. unfold record_call at 1, with_calls. simpl.
  unfold bind at 1. unfold try_except at 1.
  unfold bind at 1. unfold run_check, bind at 1.
  unfold call_check, bind at 1, get_obj. simpl. rewrite Hco.
  destruct (chk_call chk o (check_args o schema)) as [o' out]. simpl.
  destruct out as [[|] fc|e]; simpl.
  - reflexivity.
  - unfold raise, with_heap, bind. simpl.
    by destruct (collect_error _ _ _ _) as [[[]|x] wx].
  - unfold raise, with_heap, unwrapped. simpl.
    destruct (is_DispatchError e); [destruct (exc_cause e)|];
      unfold bind, raise; simpl; try reflexivity;
      by destruct (collect_error _ _ _ _) as [[[]|x] wx].
Qed.

Lemma lookup_insert_same (h : Heap) (l : loc) (o o' : PandasObj) :
  h !! l = Some o -> <[l := o']> h !! l = Some o'.
Proof.
  intros Hl. apply list_lookup_insert_eq. by apply lookup_lt_Some with o.
Qed.

(** Checks that pass collect nothing, so the handler plays no part. *)
Lemma run_checks_from_pass cs idx acc co schema lz h eh c o :
  h !! co = Some o ->
  checks_pass cs o schema = true ->
  exists h',
    run_checks_from idx cs acc co schema lz
      {| heap := h; error_handler := eh; calls := c |} =
    (Ok (acc ++ repeat true (length cs)),
     {| heap := h'; error_handler := eh;
        calls := c ++ map CallCheck (seq idx (length cs)) |}).
Proof.
  revert idx acc h c o.
  induction cs as [|chk cs IH]; intros idx acc h c o Hco Hpass.
  - exists h. simpl. unfold ret. by rewrite !app_nil_r.
  - rewrite (run_checks_from_cons _ _ _ _ _ _ _ _ _ _ _ Hco). cbv zeta.
    cbn [checks_pass] in Hpass.
    destruct (check_outcome chk o schema) as [[|] fc|e]; try done.
    destruct (IH (S idx) (acc ++ [true]) _ (c ++ [CallCheck idx]) _
                (lookup_insert_same _ _ _ _ Hco) Hpass) as (h' & ->).
    exists h'. by rewrite <- !app_assoc.
Qed.

(** Under an eager handler the loop stops at the first check that does
    not pass. *)
Lemma run_checks_from_eager cs idx acc co schema lz h errs c o :
  h !! co = Some o ->
  calls (snd (run_checks_from idx cs acc co schema lz
                {| heap := h;
                   error_handler := {| eh_lazy := false; eh_collected := errs |};
                   calls := c |})) =
  c ++ map CallCheck (seq idx (eager_invoked cs o schema)).
Proof.
  revert idx acc h c o.
  induction cs as [|chk cs IH]; intros idx acc h c o Hco.
  - simpl. by rewrite app_nil_r.
  - rewrite (run_checks_from_cons _ _ _ _ _ _ _ _ _ _ _ Hco). cbv zeta.
    cbn [eager_invoked].
    destruct (check_outcome chk o schema) as [[|] fc|e].
    + rewrite (IH _ _ _ _ _ (lookup_insert_same _ _ _ _ Hco)).
      by rewrite <- app_assoc.
    + reflexivity.
    + by destruct (unwrapped e).
Qed.

Lemma eager_invoked_pass cs o schema :
  checks_pass cs o schema = true -> eager_invoked cs o schema = length cs.
Proof.
  revert o. induction cs as [|chk cs IH]; intros o Hpass; [done|].
  cbn [checks_pass eager_invoked length] in *.
  destruct (check_outcome chk o schema) as [[|] fc|e]; try done.
  by rewrite IH.
Qed.

(** Under a lazy handler the loop collects [declared_entries]. *)
Lemma run_checks_from_collects cs idx acc co schema lz h errs c o :
  h !! co = Some o ->
  Forall dispatch_has_cause cs ->
  exists results h',
    run_checks_from idx cs acc co schema lz (lazy_world h errs c) =
    (Ok results,
     lazy_world h' (errs ++ declared_entries idx cs o co schema)
       (c ++ map CallCheck (seq idx (length cs)))) /\
    (all acc = true -> all results = true).
Proof.
  intros Hco Hcause. revert idx acc h errs c o Hco.
  induction Hcause as [|chk cs Hchk Hcause IH]; intros idx acc h errs c o Hco.
  - exists acc, h. simpl. unfold ret. by rewrite !app_nil_r.
  - unfold lazy_world.
    rewrite (run_checks_from_cons _ _ _ _ _ _ _ _ _ _ _ Hco). cbv zeta.
    cbn [declared_entries].
    pose proof (lookup_insert_same _ _ _ (check_state chk o schema) Hco)
      as Hco'.
    destruct (check_outcome chk o schema) as [[|] fc|e] eqn:Hout.
    + destruct (IH (S idx) (acc ++ [true]) _ errs (c ++ [CallCheck idx]) _ Hco')
        as (results & h' & Hrun & Hall).
      unfold lazy_world in Hrun. rewrite Hrun.
      exists results, h'. rewrite <- !app_assoc.
      split; [done|]. eauto using all_app_true.
    + unfold bind, collect_error, with_handler. simpl.
      destruct (IH (S idx) acc _
                  (errs ++ [ {| ce_reason_code := Some "dataframe_check";
                      ce_error := check_failure_error co schema chk idx fc |} ])
                  (c ++ [CallCheck idx]) _ Hco')
        as (results & h' & Hrun & Hall).
      unfold lazy_world in Hrun. rewrite Hrun.
      exists results, h'. rewrite <- !app_assoc. done.
    + destruct (unwrapped e) as [e'|] eqn:Hun.
      * unfold bind, collect_error, with_handler. simpl.
        destruct (IH (S idx) acc _
                    (errs ++ [ {| ce_reason_code := Some "check_error";
                        ce_error := check_error co schema chk idx e' |} ])
                    (c ++ [CallCheck idx]) _ Hco')
          as (results & h' & Hrun & Hall).
        unfold lazy_world in Hrun. rewrite Hrun.
        exists results, h'. rewrite <- !app_assoc. done.
      * exfalso. unfold unwrapped in Hun.
        destruct (is_DispatchError e) eqn:Hd; [|done].
        unfold check_outcome in Hout.
        destruct (chk_call chk o (check_args o schema)) as [o' out] eqn:Hcall.
        simpl in Hout. subst out.
        destruct (Hchk _ _ _ _ Hcall Hd) as [x Hx]. congruence.
Qed.

End Proofs.

(** ** Invariants kept on every path *)

Section Invariants.
Context `{Collaborators}.

(** A relation [R] between the world before and after, kept by every step
    started where [P] holds; [Q] holds of the value returned.  [L] is what
    the steps need to know of a location to work on it. *)
Variable P : World -> Prop.
Variable R : World -> World -> Prop.
Variable L : loc -> Prop.

Hypothesis R_refl : forall w, R w w.
Hypothesis R_trans : forall w1 w2 w3, R w1 w2 -> R w2 w3 -> R w1 w3.
Hypothesis P_R : forall w w', P w -> R w w' -> P w'.

Definition keeps {A} (m : M A) (Q : A -> Prop) : Prop :=
  forall w, P w ->
    R w (snd (m w)) /\ forall a, fst (m w) = Ok a -> Q a.

Lemma keeps_ret {A} (a : A) (Q : A -> Prop) : Q a -> keeps (ret a) Q.
Proof. intros Ha w _. simpl. split; [apply R_refl|]. by intros ? [= <-]. Qed.

Lemma keeps_raise {A} (e : Exc) (Q : A -> Prop) : keeps (raise e) Q.
Proof. intros w _. simpl. split; [apply R_refl|]. done. Qed.

Lemma keeps_bind {A B} (m : M A) (k : A -> M B) Q Q' :
  keeps m Q -> (forall a, Q a -> keeps (k a) Q') -> keeps (bind m k) Q'.
Proof.
  intros Hm Hk w Hw. unfold bind. destruct (Hm w Hw) as [HR HQ].
  destruct (m w) as [[a|e] w1]; simpl in *.
  - destruct (Hk a (HQ a eq_refl) w1 (P_R _ _ Hw HR)) as [HR' HQ'].
    split; [by eapply R_trans|done].
  - split; [done|]. intros ? [=].
Qed.

Lemma keeps_try_except {A} (m : M A) (h : Exc -> M A) Q :
  keeps m Q -> (forall e, keeps (h e) Q) -> keeps (try_except m h) Q.
Proof.
  intros Hm Hh w Hw. unfold try_except. destruct (Hm w Hw) as [HR HQ].
  destruct (m w) as [[a|e] w1]; simpl in *.
  - done.
  - destruct (Hh e w1 (P_R _ _ Hw HR)) as [HR' HQ'].
    split; [by eapply R_trans|done].
Qed.

Lemma keeps_weaken {A} (m : M A) (Q Q' : A -> Prop) :
  keeps m Q -> (forall a, Q a -> Q' a) -> keeps m Q'.
Proof. intros Hm HQ w Hw. destruct (Hm w Hw). split; eauto. Qed.

Definition anything {A} (_ : A) : Prop := True.

Hypothesis keeps_get_obj : forall l, keeps (get_obj l) anything.
Hypothesis keeps_set_obj : forall l o, L l -> keeps (set_obj l o) anything.
Hypothesis keeps_alloc : forall o, keeps (alloc o) L.

Ltac keeps_step :=
  first
    [ apply keeps_get_obj
    | apply keeps_alloc
    | apply keeps_set_obj; assumption
    | apply keeps_raise
    | apply keeps_ret; first [assumption | exact I | split; assumption]
    | eapply keeps_bind; [|intros ? ?] ].

Lemma keeps_preprocess_copy l : keeps (preprocess l false) L.
Proof. unfold preprocess. repeat keeps_step. Qed.

Lemma keeps_preprocess l inplace : L l -> keeps (preprocess l inplace) L.
Proof. intros Hl. unfold preprocess. destruct inplace; repeat keeps_step. Qed.

Lemma keeps_is_field l : keeps (is_field l) anything.
Proof. unfold is_field. repeat keeps_step. Qed.

Lemma keeps_getitem l key : keeps (getitem l key) L.
Proof.
  unfold getitem. eapply keeps_bind; [apply keeps_get_obj|intros o _].
  destruct (obj_data o), key; try keeps_step.
  destruct (find_column _ _); keeps_step.
Qed.

Lemma keeps_get_series l : keeps (get_series l) anything.
Proof.
  unfold get_series. eapply keeps_bind; [apply keeps_get_obj|intros o _].
  destruct (obj_data o); keeps_step.
Qed.

Lemma keeps_subsample l head tail sample rs :
  L l -> keeps (subsample l head tail sample rs) L.
Proof.
  intros Hl. unfold subsample.
  destruct head, tail, sample; repeat keeps_step.
Qed.

Lemma keeps_try_coerce dt l :
  L l -> keeps (try_coerce dt l)
           (fun r => match r with inl l' => L l' | inr _ => True end).
Proof.
  intros Hl. unfold try_coerce.
  eapply keeps_bind; [apply keeps_get_obj|intros o _].
  destruct (dt_try_coerce dt o) as [o' out].
  eapply keeps_bind; [by apply keeps_set_obj|intros _ _].
  destruct out; try (by apply keeps_ret).
  eapply keeps_bind; [apply keeps_alloc|intros l' Hl']. by apply keeps_ret.
Qed.

Lemma keeps_call_check chk l key : L l -> keeps (call_check chk l key) anything.
Proof.
  intros Hl. unfold call_check.
  eapply keeps_bind; [apply keeps_get_obj|intros o _].
  destruct (chk_call chk o key) as [o' out]. repeat keeps_step.
Qed.

Lemma keeps_coerce_dtype l schema : L l -> keeps (coerce_dtype l schema) L.
Proof.
  intros Hl. unfold coerce_dtype. destruct schema as [schema|]; [|keeps_step].
  destruct (dtype schema) as [dt|]; [|keeps_step].
  destruct (negb (coerce schema)); [keeps_step|].
  eapply keeps_bind; [by apply keeps_try_coerce|intros r Hr].
  destruct r as [l'|e]; keeps_step.
Qed.

Lemma keeps_add_schema_if_accessor l schema :
  L l -> keeps (add_schema_if_accessor l schema) L.
Proof.
  intros Hl. unfold add_schema_if_accessor, add_schema.
  eapply keeps_bind; [apply keeps_get_obj|intros o _].
  destruct (obj_pandera o); [|keeps_step].
  destruct (schema_accepted o schema); repeat keeps_step.
Qed.

Lemma keeps_series_coerce_dtype l schema :
  L l -> keeps (series_coerce_dtype l schema) L.
Proof.
  intros Hl. unfold series_coerce_dtype.
  eapply keeps_bind; [by apply keeps_add_schema_if_accessor|intros l1 Hl1].
  eapply keeps_bind; [by apply keeps_coerce_dtype|intros l2 Hl2].
  by apply keeps_add_schema_if_accessor.
Qed.

Lemma keeps_self_coerce_dtype self l schema :
  L l -> keeps (self_coerce_dtype self l schema) L.
Proof.
  destruct self; [apply keeps_coerce_dtype|apply keeps_series_coerce_dtype].
Qed.

Lemma keeps_validate_subsample l schema head tail sample rs :
  L l ->
  keeps (validate_subsample l schema head tail sample rs)
        (fun p => L (fst p) /\ L (snd p)).
Proof.
  intros Hl. unfold validate_subsample.
  eapply keeps_bind; [apply keeps_is_field|intros fld _].
  eapply keeps_bind with (Q := L).
  { destruct fld; [by apply keeps_ret|apply keeps_getitem]. }
  intros fl Hfl.
  eapply keeps_bind; [by apply keeps_subsample|intros fs Hfs].
  eapply keeps_bind; [by apply keeps_subsample|intros cs Hcs].
  by apply keeps_ret.
Qed.

(** Steps that feed the error handler. *)
Hypothesis keeps_collect_error :
  forall rc e orig, keeps (collect_error rc e orig) anything.

Lemma keeps_validate_coerce self l schema :
  L l -> keeps (validate_coerce self l schema) L.
Proof.
  intros Hl. unfold validate_coerce. destruct (coerce schema); [|keeps_step].
  apply keeps_try_except; [by apply keeps_self_coerce_dtype|].
  intros exc. destruct exc as [e|sid errs data|e]; [|apply keeps_raise..].
  eapply keeps_bind; [apply keeps_collect_error|intros _ _].
  by apply keeps_ret.
Qed.

Lemma keeps_run_check l schema chk idx key :
  L l -> keeps (run_check l schema chk idx key) anything.
Proof.
  intros Hl. unfold run_check.
  eapply keeps_bind; [by apply keeps_call_check|intros r Hr].
  destruct r as [[|] fc|e]; keeps_step.
Qed.

Lemma keeps_handle_check_exception l schema chk idx exc :
  keeps (handle_check_exception l schema chk idx exc) anything.
Proof.
  unfold handle_check_exception. destruct exc as [e|sid errs data|e].
  - apply keeps_collect_error.
  - apply keeps_raise.
  - destruct (if is_DispatchError e then exc_cause e else Some e);
      [apply keeps_collect_error|apply keeps_raise].
Qed.

Hypothesis keeps_new_error_handler :
  forall lazy, keeps (new_error_handler lazy) anything.

Lemma keeps_validate_prepare self l schema lazy inplace :
  L l -> keeps (validate_prepare self l schema lazy inplace) L.
Proof.
  intros Hl. unfold validate_prepare.
  eapply keeps_bind; [apply keeps_new_error_handler|intros _ _].
  eapply keeps_bind; [by apply keeps_preprocess|intros l1 Hl1].
  by apply keeps_validate_coerce.
Qed.

(** Steps that record an invocation. *)
Hypothesis keeps_record_call : forall c, keeps (record_call c) anything.
Hypothesis keeps_collected_errors : keeps collected_errors anything.

Lemma keeps_run_core_checks cs fl co schema :
  keeps (run_core_checks cs fl co schema) anything.
Proof.
  induction cs as [|[fn f] cs IH]; simpl; [keeps_step|].
  eapply keeps_bind; [apply keeps_record_call|intros _ _].
  eapply keeps_bind; [apply keeps_get_series|intros s _].
  eapply keeps_bind with (Q := anything); [|intros _ _; apply IH].
  destruct (negb _); [apply keeps_collect_error|keeps_step].
Qed.

Lemma keeps_run_checks_from idx cs acc l schema lazy :
  L l -> keeps (run_checks_from idx cs acc l schema lazy) anything.
Proof.
  intros Hl. revert idx acc.
  induction cs as [|chk cs IH]; intros idx acc; simpl; [keeps_step|].
  eapply keeps_bind; [apply keeps_is_field|intros fld _].
  eapply keeps_bind; [apply keeps_record_call|intros _ _].
  eapply keeps_bind with (Q := anything); [|intros ? _; apply IH].
  apply keeps_try_except.
  - eapply keeps_bind; [by apply keeps_run_check|intros ? _]. keeps_step.
  - intros e. eapply keeps_bind;
      [apply keeps_handle_check_exception|intros _ _]. keeps_step.
Qed.

Lemma keeps_validate_checks l schema head tail sample rs lazy :
  L l -> keeps (validate_checks l schema head tail sample rs lazy) L.
Proof.
  intros Hl. unfold validate_checks.
  eapply keeps_bind; [by apply keeps_validate_subsample|].
  intros [fl cs] [Hfl Hcs]. cbn [fst snd] in Hfl, Hcs. cbv beta iota.
  eapply keeps_bind; [apply keeps_run_core_checks|intros _ _].
  eapply keeps_bind; [by apply keeps_run_checks_from|intros results _].
  eapply keeps_bind with (Q := anything).
  { destruct (all results); keeps_step. }
  intros _ _.
  eapply keeps_bind; [apply keeps_collected_errors|intros errors _].
  destruct (lazy && nonempty errors); keeps_step.
Qed.

Lemma keeps_validate self l schema head tail sample rs lazy inplace :
  L l -> keeps (validate self l schema head tail sample rs lazy inplace) L.
Proof.
  intros Hl. unfold validate.
  eapply keeps_bind; [by apply keeps_validate_prepare|intros l1 Hl1].
  by apply keeps_validate_checks.
Qed.

Lemma keeps_validate_copy self l schema head tail sample rs lazy :
  keeps (validate self l schema head tail sample rs lazy false) L.
Proof.
  unfold validate, validate_prepare.
  eapply keeps_bind; [|intros l1 Hl1; by apply keeps_validate_checks].
  eapply keeps_bind; [apply keeps_new_error_handler|intros _ _].
  eapply keeps_bind; [apply keeps_preprocess_copy|intros l1 Hl1].
  by apply keeps_validate_coerce.
Qed.

End Invariants.

Section Instances.
Context `{Collaborators}.

Lemma frame_rel_pre n w w' : frame_pre n w -> frame_rel n w w' -> frame_pre n w'.
Proof.
  unfold frame_pre, frame_rel. intros Hn Ht.
  apply (f_equal length) in Ht. rewrite !length_take in Ht. lia.
Qed.

Lemma frame_get_obj n l : keeps (frame_pre n) (frame_rel n) (get_obj l) anything.
Proof.
  intros w _. unfold get_obj. destruct (heap w !! l); simpl; by split.
Qed.

Lemma frame_set_obj n l o :
  above n l -> keeps (frame_pre n) (frame_rel n) (set_obj l o) anything.
Proof.
  intros Hl w _. unfold set_obj, frame_rel. simpl.
  split; [by apply take_insert_ge|done].
Qed.

Lemma frame_alloc n o : keeps (frame_pre n) (frame_rel n) (alloc o) (above n).
Proof.
  intros w Hw. unfold alloc, frame_rel, above. simpl.
  split; [by apply take_app_le|]. by intros ? [= <-].
Qed.

Lemma frame_collect_error n rc e orig :
  keeps (frame_pre n) (frame_rel n) (collect_error rc e orig) anything.
Proof.
  intros w _. unfold collect_error.
  destruct (eh_lazy (error_handler w)); simpl; by split.
Qed.

Lemma validate_frame self l schema head tail sample rs lazy w :
  frame_rel (length (heap w)) w
    (snd (validate self l schema head tail sample rs lazy false w)).
Proof.
  refine (proj1 (keeps_validate_copy (frame_pre (length (heap w)))
            (frame_rel (length (heap w))) (above (length (heap w)))
            _ _ _ _ _ _ _ _ _ _ self l schema head tail sample rs lazy w _));
    try done.
  - intros w1 w2 w3. unfold frame_rel. congruence.
  - apply frame_rel_pre.
  - apply frame_get_obj.
  - apply frame_set_obj.
  - apply frame_alloc.
  - apply frame_collect_error.
  - unfold frame_pre. lia.
Qed.

End Instances.

(** ** The history of invocations *)

Section History.
Context `{Collaborators}.

Arguments core_calls : simpl never.
Arguments core_entries : simpl never.

Ltac prim :=
  intros;
  match goal with
  | |- keeps _ _ _ _ =>
      intros ? _;
      unfold get_obj, set_obj, alloc, collect_error, new_error_handler,
        record_call, collected_errors, calls_rel, mode_rel, handler_rel,
        any_loc, anything;
      simpl; repeat case_match; simpl; split; done
  | |- _ => unfold calls_rel, mode_rel, handler_rel, no_pre, any_loc in *;
           (done || congruence)
  end.

Lemma validate_prepare_calls self l schema lazy inplace w :
  calls (snd (validate_prepare self l schema lazy inplace w)) = calls w.
Proof.
  eapply (keeps_validate_prepare no_pre calls_rel any_loc); try prim.
Qed.

Lemma validate_subsample_calls l schema head tail sample rs w :
  calls (snd (validate_subsample l schema head tail sample rs w)) = calls w.
Proof.
  eapply (keeps_validate_subsample no_pre calls_rel any_loc); try prim.
Qed.

Lemma get_series_calls l w : calls (snd (get_series l w)) = calls w.
Proof. eapply (keeps_get_series no_pre calls_rel); try prim. Qed.

Lemma run_check_calls l schema chk idx key w :
  calls (snd (run_check l schema chk idx key w)) = calls w.
Proof. eapply (keeps_run_check no_pre calls_rel any_loc); try prim. Qed.

Lemma handle_check_exception_calls l schema chk idx exc w :
  calls (snd (handle_check_exception l schema chk idx exc w)) = calls w.
Proof.
  eapply (keeps_handle_check_exception no_pre calls_rel); try prim.
Qed.

Lemma is_field_calls l w : calls (snd (is_field l w)) = calls w.
Proof. eapply (keeps_is_field no_pre calls_rel); try prim. Qed.

Lemma collect_error_calls rc e orig w :
  calls (snd (collect_error rc e orig w)) = calls w.
Proof. unfold collect_error. by destruct (eh_lazy _). Qed.

Lemma preprocess_mode l inplace w :
  eh_lazy (error_handler (snd (preprocess l inplace w))) =
  eh_lazy (error_handler w).
Proof. eapply (keeps_preprocess no_pre mode_rel any_loc); try prim. Qed.

Lemma validate_coerce_mode self l schema w :
  eh_lazy (error_handler (snd (validate_coerce self l schema w))) =
  eh_lazy (error_handler w).
Proof. eapply (keeps_validate_coerce no_pre mode_rel any_loc); try prim. Qed.

Lemma validate_prepare_mode self l schema lazy inplace w :
  eh_lazy (error_handler (snd (validate_prepare self l schema lazy inplace w)))
  = lazy.
Proof.
  unfold validate_prepare. unfold bind at 1. unfold new_error_handler at 1.
  unfold bind. 
  match goal with |- context [preprocess l inplace ?w0] =>
    pose proof (preprocess_mode l inplace w0) as Hp;
    destruct (preprocess l inplace w0) as [[l1|e] w1] end; simpl in *; [|done].
  pose proof (validate_coerce_mode self l1 schema w1) as Hc.
  destruct (validate_coerce self l1 schema w1) as [r w2]. simpl in *.
  congruence.
Qed.

Lemma run_core_checks_calls cs fl co schema w r w' :
  run_core_checks cs fl co schema w = (r, w') ->
  exists k,
    calls w' = calls w ++ take k (core_calls cs) /\
    (forall a, r = Ok a -> calls w' = calls w ++ core_calls cs).
Proof.
  revert w. induction cs as [|[fn f] cs IH]; intros w Hrun.
  - exists 0. injection Hrun as <- <-.
    unfold core_calls. simpl. rewrite !app_nil_r. done.
  - cbn [run_core_checks] in Hrun. unfold bind at 1 in Hrun.
    unfold record_call at 1 in Hrun.
    set (w1 := with_calls (calls w ++ [CallCore fn]) w) in Hrun.
    assert (Hw1 : calls w1 = calls w ++ [CallCore fn]) by reflexivity.
    unfold bind at 1 in Hrun. pose proof (get_series_calls fl w1) as Hs.
    destruct (get_series fl w1) as [[s|e] w2]; simpl in Hs.
    2:{ injection Hrun as <- <-. exists 1. rewrite core_calls_cons. simpl. rewrite take_0. split; [congruence|done]. }
    unfold bind at 1 in Hrun.
    set (m := if negb (passed (f s schema)) then _ else _) in Hrun.
    assert (Hm : calls (snd (m w2)) = calls w2).
    { subst m. destruct (negb _); [apply collect_error_calls|done]. }
    destruct (m w2) as [[[]|e] w3]; simpl in Hm.
    2:{ injection Hrun as <- <-. exists 1. rewrite core_calls_cons. simpl. rewrite take_0. split; [congruence|done]. }
    destruct (IH w3 Hrun) as (k & Hk & Hok). exists (S k).
    assert (Hw3 : calls w3 = calls w ++ [CallCore fn]) by congruence.
    rewrite Hw3 in Hk, Hok. rewrite <- app_assoc in Hk, Hok.
    rewrite core_calls_cons. done.
Qed.

Lemma run_checks_from_calls cs idx acc l schema lz w r w' :
  run_checks_from idx cs acc l schema lz w = (r, w') ->
  exists k,
    k <= length cs /\
    calls w' = calls w ++ map CallCheck (seq idx k) /\
    (forall a, r = Ok a -> k = length cs).
Proof.
  revert idx acc w. induction cs as [|chk cs IH]; intros idx acc w Hrun.
  - exists 0. injection Hrun as <- <-. simpl. rewrite app_nil_r. done.
  - cbn [run_checks_from] in Hrun. unfold bind at 1 in Hrun.
    pose proof (is_field_calls l w) as Hf.
    destruct (is_field l w) as [[fld|e] w1]; simpl in Hf.
    2:{ injection Hrun as <- <-. exists 0. simpl. rewrite app_nil_r.
        split; [lia|done]. }
    unfold bind at 1 in Hrun. unfold record_call at 1 in Hrun.
    set (w2 := with_calls (calls w1 ++ [CallCheck idx]) w1) in Hrun.
    assert (Hw2 : calls w2 = calls w ++ [CallCheck idx])
      by (simpl; congruence).
    unfold bind at 1 in Hrun. unfold try_except at 1 in Hrun.
    unfold bind at 1 in Hrun.
    set (key := if fld then None else name schema) in Hrun.
    pose proof (run_check_calls l schema chk idx key w2) as Hr.
    destruct (run_check l schema chk idx key w2) as [[b|e] w3];
      cbn [snd] in Hr; rewrite Hw2 in Hr.
    + unfold ret at 1 in Hrun.
      destruct (IH (S idx) (acc ++ [b]) w3 Hrun) as (k & Hle & Hk & Hok).
      exists (S k). split; [simpl; lia|]. split.
      * rewrite Hk, Hr, <- app_assoc. done.
      * intros a Ha. simpl. f_equal. by apply (Hok a).
    + unfold bind at 1 in Hrun.
      pose proof (handle_check_exception_calls l schema chk idx e w3) as He.
      destruct (handle_check_exception l schema chk idx e w3)
        as [[[]|e'] w4]; cbn [snd] in He; rewrite Hr in He.
      * unfold ret at 1 in Hrun.
        destruct (IH (S idx) acc w4 Hrun) as (k & Hle & Hk & Hok).
        exists (S k). split; [simpl; lia|]. split.
        -- rewrite Hk, He, <- app_assoc. done.
        -- intros a Ha. simpl. f_equal. by apply (Hok a).
      * injection Hrun as <- <-. exists 1. split; [simpl; lia|].
        split; [|done]. simpl. exact He.
Qed.

Lemma prefix_of_take {A} (l : list A) k : take k l `prefix_of` l.
Proof. exists (drop k l). by rewrite take_drop. Qed.

Lemma validate_checks_calls l schema head tail sample rs lazy w r w' :
  validate_checks l schema head tail sample rs lazy w = (r, w') ->
  exists c,
    calls w' = calls w ++ c /\ c `prefix_of` all_calls schema.
Proof.
  intros Hrun. unfold validate_checks in Hrun. unfold bind at 1 in Hrun.
  pose proof (validate_subsample_calls l schema head tail sample rs w) as Hs.
  destruct (validate_subsample l schema head tail sample rs w)
    as [[[fl cs]|e] w1]; simpl in Hs.
  2:{ injection Hrun as <- <-. exists []. rewrite app_nil_r.
      split; [done|apply prefix_nil]. }
  unfold bind at 1 in Hrun.
  destruct (run_core_checks core_checks fl l schema w1) as [r1 w2] eqn:Hcore.
  destruct (run_core_checks_calls _ _ _ _ _ _ _ Hcore) as (k & Hk & Hok).
  destruct r1 as [[]|e].
  2:{ injection Hrun as <- <-.
      exists (take k (core_calls core_checks)). split; [congruence|].
      unfold all_calls. apply prefix_app_r, prefix_of_take. }
  specialize (Hok tt eq_refl).
  unfold bind at 1 in Hrun. unfold run_checks in Hrun.
  destruct (run_checks_from 0 (checks schema) [] cs schema lazy w2)
    as [r2 w3] eqn:Hchecks.
  destruct (run_checks_from_calls _ _ _ _ _ _ _ _ _ Hchecks)
    as (k' & Hle & Hk' & Hok').
  destruct r2 as [results|e].
  2:{ injection Hrun as <- <-.
      exists (core_calls core_checks ++ map CallCheck (seq 0 k')).
      split; [rewrite Hk', Hok, Hs, <- app_assoc; done|].
      unfold all_calls. apply prefix_app.
      replace (seq 0 k') with (take k' (seq 0 (length (checks schema))))
        by (rewrite take_seq; f_equal; lia).
      rewrite <- firstn_map. apply prefix_of_take. }
  specialize (Hok' _ eq_refl). subst k'.
  exists (all_calls schema). split; [|done].
  assert (Hw3 : calls w3 = calls w ++ all_calls schema).
  { unfold all_calls. rewrite Hk', Hok, Hs, <- app_assoc. done. }
  unfold bind at 1 in Hrun.
  destruct (all results); simpl in Hrun; [|by injection Hrun as <- <-].
  unfold bind at 1 in Hrun. unfold collected_errors at 1 in Hrun.
  destruct (lazy && nonempty _); injection Hrun as <- <-; done.
Qed.

Lemma validate_calls self l schema head tail sample rs lazy inplace w :
  exists c,
    calls (snd (validate self l schema head tail sample rs lazy inplace w)) =
      calls w ++ c /\
    c `prefix_of` all_calls schema.
Proof.
  unfold validate. unfold bind.
  pose proof (validate_prepare_calls self l schema lazy inplace w) as Hp.
  destruct (validate_prepare self l schema lazy inplace w) as [[l1|e] w1];
    simpl in Hp.
  - destruct (validate_checks l1 schema head tail sample rs lazy w1)
      as [r w'] eqn:Hrun.
    destruct (validate_checks_calls _ _ _ _ _ _ _ _ _ _ Hrun)
      as (c & Hc & Hpre).
    exists c. split; [simpl; congruence|done].
  - exists []. rewrite app_nil_r. split; [done|apply prefix_nil].
Qed.

End History.

(** ** Lazy and eager runs of [validate] *)

Section Lazy.
Context `{Collaborators}.

Arguments core_calls : simpl never.
Arguments core_entries : simpl never.

Lemma validate_checks_lazy co schema head tail sample rs h errs c o fld :
  h !! co = Some o ->
  field_of o (name schema) = Some fld ->
  Forall dispatch_has_cause (checks schema) ->
  exists entries h',
    validate_checks co schema head tail sample rs true (lazy_world h errs c) =
    (if nonempty (errs ++ core_entries core_checks
                    (subsampled head tail sample rs fld) co schema ++ entries)
     then Raise (ExSchemaErrors (sch_id schema)
                   (errs ++ core_entries core_checks
                      (subsampled head tail sample rs fld) co schema
                    ++ entries) co)
     else Ok co,
     lazy_world h'
       (errs ++ core_entries core_checks
          (subsampled head tail sample rs fld) co schema ++ entries)
       (c ++ all_calls schema)) /\
    Forall declared_reason entries.
Proof.
  intros Hco Hfld Hcause. unfold validate_checks, lazy_world.
  destruct (validate_subsample_spec co schema head tail sample rs h
              {| eh_lazy := true; eh_collected := errs |} c o fld Hco Hfld)
    as (fl & cs & hx & Hsub & Hfl & Hcs & _).
  unfold bind at 1. rewrite Hsub. cbv beta iota.
  unfold bind at 1.
  rewrite (run_core_checks_lazy _ _ _ _ _ _ _ _ Hfl).
  unfold bind at 1. unfold run_checks.
  destruct (run_checks_from_lazy (checks schema) 0 [] cs schema true
              (h ++ hx)
              (errs ++ core_entries core_checks
                 (subsampled head tail sample rs fld) co schema)
              (c ++ core_calls core_checks) Hcs Hcause)
    as (results & entries & h' & Hrun & _ & Hall & Hent & _).
  unfold lazy_world in Hrun. rewrite Hrun.
  rewrite (Hall eq_refl). unfold bind at 1. unfold ret at 1.
  unfold bind at 1. unfold collected_errors at 1. cbn [eh_collected error_handler].
  exists entries, h'. split; [|done].
  rewrite <- !app_assoc. unfold all_calls.
  cbn [andb].
  destruct (nonempty _); reflexivity.
Qed.

Lemma world_eta (w : World) :
  w = {| heap := heap w;
         error_handler :=
           {| eh_lazy := eh_lazy (error_handler w);
              eh_collected := eh_collected (error_handler w) |};
         calls := calls w |}.
Proof. by destruct w as [? [] ?]. Qed.

Lemma checked_object_prepare self l schema lazy inplace w co o :
  checked_object self l schema lazy inplace w = Some (co, o) ->
  exists h1,
    validate_prepare self l schema lazy inplace w =
      (Ok co,
       {| heap := h1;
          error_handler :=
            {| eh_lazy := lazy;
               eh_collected := coercion_errors self l schema lazy inplace w |};
          calls := calls w |}) /\
    h1 !! co = Some o.
Proof.
  unfold checked_object, coercion_errors. intros Hc.
  pose proof (validate_prepare_mode self l schema lazy inplace w) as Hm.
  pose proof (validate_prepare_calls self l schema lazy inplace w) as Hcalls.
  destruct (validate_prepare self l schema lazy inplace w) as [[l1|e] w1];
    [|done]. simpl in *.
  destruct (heap w1 !! l1) as [o1|] eqn:Hl1; [|done].
  injection Hc as -> ->. exists (heap w1). split; [|done].
  rewrite (world_eta w1) at 1. by rewrite Hm, Hcalls.
Qed.

Lemma validate_lazy self l schema head tail sample rs inplace w co o fld :
  checked_object self l schema true inplace w = Some (co, o) ->
  field_of o (name schema) = Some fld ->
  Forall dispatch_has_cause (checks schema) ->
  exists entries w',
    validate self l schema head tail sample rs true inplace w =
    (if nonempty (coercion_errors self l schema true inplace w ++
                  core_entries core_checks
                    (subsampled head tail sample rs fld) co schema ++ entries)
     then Raise (ExSchemaErrors (sch_id schema)
                   (coercion_errors self l schema true inplace w ++
                    core_entries core_checks
                      (subsampled head tail sample rs fld) co schema ++
                    entries) co)
     else Ok co, w') /\
    eh_collected (error_handler w') =
      coercion_errors self l schema true inplace w ++
      core_entries core_checks (subsampled head tail sample rs fld) co schema
      ++ entries /\
    Forall declared_reason entries /\
    calls w' = calls w ++ all_calls schema.
Proof.
  intros Hc Hfld Hcause.
  destruct (checked_object_prepare _ _ _ _ _ _ _ _ Hc) as (h1 & Hprep & Hco).
  destruct (validate_checks_lazy co schema head tail sample rs h1
              (coercion_errors self l schema true inplace w) (calls w)
              o fld Hco Hfld Hcause) as (entries & h' & Hrun & Hent).
  unfold validate. unfold bind. rewrite Hprep.
  unfold lazy_world in Hrun. rewrite Hrun.
  exists entries. eexists. split; [reflexivity|]. done.
Qed.

Lemma validate_checks_eager_fail co schema head tail sample rs h errs c o fld
    pre fn f post :
  h !! co = Some o ->
  field_of o (name schema) = Some fld ->
  core_checks = pre ++ (fn, f) :: post ->
  Forall (fun g => passed (snd g (subsampled head tail sample rs fld) schema)
                   = true) pre ->
  passed (f (subsampled head tail sample rs fld) schema) = false ->
  exists h',
    validate_checks co schema head tail sample rs false
      {| heap := h;
         error_handler := {| eh_lazy := false; eh_collected := errs |};
         calls := c |} =
    (Raise (ExSchemaError
              (core_check_error co schema
                 (f (subsampled head tail sample rs fld) schema))),
     {| heap := h';
        error_handler := {| eh_lazy := false; eh_collected := errs |};
        calls := c ++ core_calls (pre ++ [(fn, f)]) |}).
Proof.
  intros Hco Hfld Hsplit Hpre Hfail. unfold validate_checks.
  destruct (validate_subsample_spec co schema head tail sample rs h
              {| eh_lazy := false; eh_collected := errs |} c o fld Hco Hfld)
    as (fl & cs & hx & Hsub & Hfl & Hcs & _).
  unfold bind at 1. rewrite Hsub. cbv beta iota.
  unfold bind at 1. rewrite Hsplit.
  rewrite (run_core_checks_eager_fail _ _ _ _ _ _ _ _ _ _ _ Hfl Hpre Hfail).
  by exists (h ++ hx).
Qed.

(** The errors of a lazy run, entry by entry. *)
Lemma validate_checks_collects co schema head tail sample rs h errs c o fld :
  h !! co = Some o ->
  field_of o (name schema) = Some fld ->
  Forall dispatch_has_cause (checks schema) ->
  exists h',
    validate_checks co schema head tail sample rs true (lazy_world h errs c) =
    (if nonempty
          (errs ++
           core_entries core_checks (subsampled head tail sample rs fld) co
             schema ++
           declared_entries 0 (checks schema)
             (subsampled_object head tail sample rs o)
             (subsample_loc head tail sample (length h) co o) schema)
     then Raise (ExSchemaErrors (sch_id schema)
                   (errs ++
                    core_entries core_checks
                      (subsampled head tail sample rs fld) co schema ++
                    declared_entries 0 (checks schema)
                      (subsampled_object head tail sample rs o)
                      (subsample_loc head tail sample (length h) co o) schema)
                   co)
     else Ok co,
     lazy_world h'
       (errs ++
        core_entries core_checks (subsampled head tail sample rs fld) co
          schema ++
        declared_entries 0 (checks schema)
          (subsampled_object head tail sample rs o)
          (subsample_loc head tail sample (length h) co o) schema)
       (c ++ all_calls schema)).
Proof.
  intros Hco Hfld Hcause. unfold validate_checks, lazy_world.
  destruct (validate_subsample_exact co schema head tail sample rs h
              {| eh_lazy := true; eh_collected := errs |} c o fld Hco Hfld)
    as (fl & hx & Hsub & Hfl & Hcs).
  unfold bind at 1. rewrite Hsub. cbv beta iota.
  unfold bind at 1.
  rewrite (run_core_checks_lazy _ _ _ _ _ _ _ _ Hfl).
  unfold bind at 1. unfold run_checks.
  destruct (run_checks_from_collects (checks schema) 0 []
              (subsample_loc head tail sample (length h) co o) schema true
              (h ++ hx)
              (errs ++ core_entries core_checks
                 (subsampled head tail sample rs fld) co schema)
              (c ++ core_calls core_checks) _ Hcs Hcause)
    as (results & h' & Hrun & Hall).
  unfold lazy_world in Hrun. rewrite Hrun.
  rewrite (Hall eq_refl). unfold bind at 1. unfold ret at 1.
  unfold bind at 1. unfold collected_errors at 1.
  cbn [eh_collected error_handler].
  exists h'. rewrite <- !app_assoc. unfold all_calls. cbn [andb].
  destruct (nonempty _); reflexivity.
Qed.

Lemma first_free_prepare self l schema lazy inplace w co w1 :
  validate_prepare self l schema lazy inplace w = (Ok co, w1) ->
  first_free self l schema lazy inplace w = length (heap w1).
Proof. unfold first_free. by intros ->. Qed.

Lemma validate_collects self l schema head tail sample rs inplace w co o fld :
  checked_object self l schema true inplace w = Some (co, o) ->
  field_of o (name schema) = Some fld ->
  Forall dispatch_has_cause (checks schema) ->
  exists w',
    validate self l schema head tail sample rs true inplace w =
    (if nonempty (eh_collected (error_handler w'))
     then Raise (ExSchemaErrors (sch_id schema)
                   (eh_collected (error_handler w')) co)
     else Ok co, w') /\
    eh_collected (error_handler w') =
      coercion_errors self l schema true inplace w ++
      core_entries core_checks (subsampled head tail sample rs fld) co schema
      ++ declared_entries 0 (checks schema)
           (subsampled_object head tail sample rs o)
           (subsample_loc head tail sample
              (first_free self l schema true inplace w) co o) schema /\
    calls w' = calls w ++ all_calls schema.
Proof.
  intros Hc Hfld Hcause.
  destruct (checked_object_prepare _ _ _ _ _ _ _ _ Hc) as (h1 & Hprep & Hco).
  rewrite (first_free_prepare _ _ _ _ _ _ _ _ Hprep). cbn [heap].
  destruct (validate_checks_collects co schema head tail sample rs h1
              (coercion_errors self l schema true inplace w) (calls w)
              o fld Hco Hfld Hcause) as (h' & Hrun).
  unfold validate. unfold bind. rewrite Hprep.
  unfold lazy_world in Hrun. rewrite Hrun.
  eexists {| heap := h';
             error_handler := {| eh_lazy := true; eh_collected := _ |};
             calls := calls w ++ all_calls schema |}.
  cbn [error_handler eh_collected calls].
  split; [reflexivity|]. done.
Qed.

(** An eager run whose core checks pass: the declared checks are invoked
    up to the first that does not pass. *)
Lemma validate_checks_eager_pass co schema head tail sample rs h errs c o fld :
  h !! co = Some o ->
  field_of o (name schema) = Some fld ->
  Forall (fun g => passed (snd g (subsampled head tail sample rs fld) schema)
                   = true) core_checks ->
  calls (snd (validate_checks co schema head tail sample rs false
                {| heap := h;
                   error_handler := {| eh_lazy := false; eh_collected := errs |};
                   calls := c |})) =
  c ++ core_calls core_checks ++
  map CallCheck
    (seq 0 (eager_invoked (checks schema)
              (subsampled_object head tail sample rs o) schema)).
Proof.
  intros Hco Hfld Hcore. unfold validate_checks.
  destruct (validate_subsample_exact co schema head tail sample rs h
              {| eh_lazy := false; eh_collected := errs |} c o fld Hco Hfld)
    as (fl & hx & Hsub & Hfl & Hcs).
  unfold bind at 1. rewrite Hsub. cbv beta iota.
  unfold bind at 1.
  rewrite (run_core_checks_eager_pass _ _ _ _ _ _ _ _ Hfl Hcore).
  unfold bind at 1. unfold run_checks.
  pose proof (run_checks_from_eager (checks schema) 0 []
                (subsample_loc head tail sample (length h) co o) schema false
                (h ++ hx) errs (c ++ core_calls core_checks) _ Hcs) as Hcalls.
  destruct (run_checks_from 0 (checks schema) [] _ schema false _)
    as [[results|x] w2]; simpl in Hcalls.
  - rewrite <- app_assoc in Hcalls. rewrite <- Hcalls.
    unfold bind, collected_errors, ret, raise.
    destruct (all results); reflexivity.
  - by rewrite <- app_assoc in Hcalls.
Qed.

End Lazy.

(** ** The uniqueness and dtype checks *)

Section Checks.
Context `{Collaborators}.

Arguments core_calls : simpl never.
Arguments core_entries : simpl never.

Lemma check_unique_eq s schema :
  check_unique s schema =
  let mask :=
    duplicates_mask s (convert_uniquesettings (report_duplicates schema)) in
  let failed := mask_rows (s_rows s) mask in
  if unique schema && any mask then
    {| check := "field_uniqueness";
       reason_code := "series_contains_duplicates";
       passed := false;
       message := Some (MsgDuplicates (s_name s) failed);
       failure_cases := Some (reshape_failure_cases failed default_ignore_na) |}
  else
    {| check := "field_uniqueness";
       reason_code := "series_contains_duplicates";
       passed := true;
       message := None;
       failure_cases := None |}.
Proof.
  unfold check_unique. cbv zeta. destruct (unique schema); [|reflexivity].
  simpl. by destruct (any _).
Qed.

Lemma length_duplicated keep s :
  length (duplicated keep s) = length (s_index s).
Proof.
  unfold duplicated, s_index, s_values.
  by rewrite length_duplicated_from, !length_map.
Qed.

Lemma duplicates_mask_duplicated s keep :
  (is_pyspark s = true -> NoDup (s_index s)) ->
  duplicates_mask s keep = duplicated keep s.
Proof.
  intros Hnd. unfold duplicates_mask. destruct (is_pyspark s); [|done].
  unfold to_frame, frame_duplicated.
  apply reindex_combine; [by apply Hnd|apply length_duplicated].
Qed.

(** C6. [check_unique] passes iff uniqueness is not declared or the
    duplicate mask under the schema's keep policy flags no row, which
    (row labels of a pyspark object being distinct) means that no two
    cells hold equal values, [True] being equal to 1 and [False] to 0 as in
    Python.  On the values [1, 1, 2, 1] the rows flagged are 1 and 3 under
    keep="first", 0 and 1 under keep="last", and 0, 1 and 3 when no
    occurrence is kept.  The verdict and the failure cases depend only on
    the rows and the policy, not on the engine that holds them: the route
    of a pyspark object through [to_frame], [duplicated] and [reindex]
    gives what pandas' [duplicated] gives on the same rows (their labels
    being distinct). *)
Theorem check_unique_keep_policy :
  (forall s schema,
     (passed (check_unique s schema) = true <->
      unique schema = false \/
      any (duplicates_mask s
             (convert_uniquesettings (report_duplicates schema))) = false) /\
     ((is_pyspark s = true -> NoDup (s_index s)) ->
      (passed (check_unique s schema) = true <->
       unique schema = false \/ NoDup (map value_key (s_values s))))) /\
  (forall schema,
     unique schema = true ->
     failure_index (check_unique ex_1121 schema) =
     match convert_uniquesettings (report_duplicates schema) with
     | keep_first => [1; 3]
     | keep_last => [0; 1]
     | keep_False => [0; 1; 3]
     end%Z) /\
  (forall s1 s2 schema1 schema2,
     s_rows s1 = s_rows s2 ->
     (is_pyspark s1 <> is_pyspark s2 -> NoDup (s_index s1)) ->
     unique schema1 = unique schema2 ->
     report_duplicates schema1 = report_duplicates schema2 ->
     passed (check_unique s1 schema1) = passed (check_unique s2 schema2) /\
     failure_cases (check_unique s1 schema1) =
       failure_cases (check_unique s2 schema2)).
Proof.
  split; [|split].
  - intros s schema.
    assert (Hiff : passed (check_unique s schema) = true <->
              unique schema = false \/
              any (duplicates_mask s
                     (convert_uniquesettings (report_duplicates schema)))
                = false).
    { rewrite check_unique_eq. cbv zeta.
      destruct (unique schema); simpl; [|by intuition].
      destruct (any _); simpl; intuition congruence. }
    split; [exact Hiff|]. intros Hnd.
    by rewrite Hiff, (duplicates_mask_duplicated _ _ Hnd), any_duplicated.
  - intros schema Hu. unfold failure_index. rewrite check_unique_eq, Hu.
    destruct (report_duplicates schema); simpl;
      destruct default_ignore_na; reflexivity.
  - intros s1 s2 schema1 schema2 Hrows Hnd Hu Hr.
    assert (Hidx : s_index s2 = s_index s1)
      by (unfold s_index; by rewrite Hrows).
    assert (Hmask : forall k, duplicates_mask s1 k = duplicates_mask s2 k).
    { intros k.
      destruct (decide (is_pyspark s1 = is_pyspark s2)) as [He|Hne].
      - unfold duplicates_mask. rewrite He.
        unfold to_frame, frame_duplicated, duplicated, s_values.
        by rewrite Hidx, Hrows.
      - rewrite (duplicates_mask_duplicated s1 k) by (intros _; by apply Hnd).
        rewrite (duplicates_mask_duplicated s2 k)
          by (intros _; rewrite Hidx; by apply Hnd).
        unfold duplicated, s_values. by rewrite Hrows. }
    rewrite !check_unique_eq. cbv zeta. rewrite Hu, Hr, Hmask, Hrows.
    destruct (unique schema2 && any _); done.
Qed.

Lemma mask_rows_nonconforming s m :
  mask_rows (s_rows s) (map negb m) = nonconforming_rows s m.
Proof.
  unfold nonconforming_rows. generalize (s_rows s). intros rows.
  revert m. induction rows as [|r rows IH]; intros [|b m]; simpl; try done.
  destruct b; simpl; by rewrite IH.
Qed.

Lemma reshape_failure_cases_all rows :
  reshape_failure_cases rows false =
  map (fun r => {| fc_index := Some (fst r); fc_value := snd r |}) rows.
Proof.
  unfold reshape_failure_cases. f_equal.
  induction rows as [|r rows IH]; simpl; [done|]. f_equal. exact IH.
Qed.

Lemma check_dtype_reason s schema :
  reason_code (check_dtype s schema) = "wrong_dtype".
Proof.
  unfold check_dtype. destruct (dtype schema) as [dt|]; [|reflexivity].
  by destruct (dt_check dt _ s).
Qed.

Lemma check_unique_reason s schema :
  reason_code (check_unique s schema) = "series_contains_duplicates".
Proof. rewrite check_unique_eq. cbv zeta. by destruct (_ && _). Qed.

Lemma check_dtype_passed s schema :
  passed (check_dtype s schema) =
  match dtype schema with
  | Some dt => dtype_matches dt s
  | None => true
  end.
Proof.
  unfold check_dtype, dtype_matches.
  destruct (dtype schema) as [dt|]; [|reflexivity].
  by destruct (dt_check dt _ s).
Qed.

Lemma filter_declared rc entries :
  rc <> "dataframe_check" -> rc <> "check_error" ->
  Forall declared_reason entries ->
  List.filter (has_reason rc) entries = [].
Proof.
  intros H1 H2 Hall. induction Hall as [|e entries He Hall IH]; [done|].
  simpl. rewrite IH. unfold has_reason.
  destruct He as [He|He]; rewrite He; rewrite bool_decide_eq_false_2;
    [done|congruence|done|congruence].
Qed.

Lemma core_entries_core_checks s co schema :
  core_entries core_checks s co schema =
  core_entries [("check_name", check_name)] s co schema ++
  core_entries [("check_nullable", check_nullable)] s co schema ++
  core_entries [("check_unique", check_unique)] s co schema ++
  core_entries [("check_dtype", check_dtype)] s co schema.
Proof.
  unfold core_checks. rewrite !core_entries_cons.
  unfold core_entries at 1 2 3 4 5. simpl. by rewrite !app_nil_r.
Qed.

Lemma core_entries_single fn f s co schema :
  core_entries [(fn, f)] s co schema =
  if passed (f s schema) then []
  else [ {| ce_reason_code := Some (reason_code (f s schema));
            ce_error := core_check_error co schema (f s schema) |} ].
Proof.
  rewrite core_entries_cons. unfold core_entries at 1. simpl.
  by rewrite app_nil_r.
Qed.

Lemma filter_has_reason_single rc fn f s co schema :
  List.filter (has_reason rc) (core_entries [(fn, f)] s co schema) =
  if passed (f s schema) then []
  else if bool_decide (reason_code (f s schema) = rc)
       then core_entries [(fn, f)] s co schema else [].
Proof.
  rewrite core_entries_single. destruct (passed (f s schema)); [done|].
  simpl. unfold has_reason. simpl.
  destruct (decide (reason_code (f s schema) = rc)) as [->|Hne].
  - by rewrite !bool_decide_eq_true_2.
  - rewrite !bool_decide_eq_false_2; [done|done|congruence].
Qed.

Lemma filter_wrong_dtype s co schema :
  passed (check_dtype s schema) = false ->
  List.filter (has_reason "wrong_dtype") (core_entries core_checks s co schema)
  = [ {| ce_reason_code := Some "wrong_dtype";
         ce_error := core_check_error co schema (check_dtype s schema) |} ].
Proof.
  intros Hfail. rewrite core_entries_core_checks, !List.filter_app,
    !filter_has_reason_single, Hfail, check_dtype_reason, check_unique_reason.
  rewrite (core_entries_single "check_dtype"), Hfail, check_dtype_reason.
  cbn [reason_code check_name check_nullable].
  by repeat (destruct (passed _)).
Qed.

Lemma preprocess_handler l inplace w :
  error_handler (snd (preprocess l inplace w)) = error_handler w.
Proof.
  unfold preprocess. destruct inplace; [done|].
  unfold bind, get_obj, alloc. by destruct (heap w !! l).
Qed.

Lemma coercion_errors_no_coerce self l schema lazy inplace w :
  coerce schema = false ->
  coercion_errors self l schema lazy inplace w = [].
Proof.
  intros Hc. unfold coercion_errors, validate_prepare, validate_coerce.
  rewrite Hc. unfold bind at 1. unfold new_error_handler at 1.
  unfold bind.
  match goal with |- context [preprocess l inplace ?w0] =>
    pose proof (preprocess_handler l inplace w0) as Hp;
    destruct (preprocess l inplace w0) as [[l1|e] w1] end;
    simpl in *; by rewrite Hp.
Qed.

Lemma describes_core_check_error co schema r :
  describes co schema r (core_check_error co schema r).
Proof. unfold describes, core_check_error. simpl. repeat split. Qed.

Lemma error_index_core_check_error co schema r :
  error_index (core_check_error co schema r) = failure_index r.
Proof. reflexivity. Qed.

Lemma failure_index_mask s schema dt m :
  dtype schema = Some dt ->
  dt_check dt (Engine_dtype (s_dtype s)) s = DtMask m ->
  failure_cases (check_dtype s schema) =
    Some (map (fun r => {| fc_index := Some (fst r); fc_value := snd r |})
            (nonconforming_rows s m)) /\
  failure_index (check_dtype s schema) = map fst (nonconforming_rows s m).
Proof.
  intros Hdt Hm. unfold failure_index, check_dtype.
  rewrite Hdt, Hm. cbn [failure_cases passed].
  rewrite mask_rows_nonconforming, reshape_failure_cases_all.
  split; [done|].
  generalize (nonconforming_rows s m). intros rows.
  induction rows as [|r rows IH]; [done|]. simpl. f_equal. exact IH.
Qed.

(** C5. [check_dtype] passes iff the schema declares no dtype or the
    column matches it.  A dtype check answering [False] gives exactly one
    synthetic failure case holding the actual dtype; a dtype check
    answering with a mask gives one failure case per row at which the mask
    is false; the reason code is "wrong_dtype" either way.  For a
    non-coercing schema whose dtype check fails, the aggregate of a lazy
    call on data that holds the column (dispatch errors of checks carrying
    their cause) has exactly one entry under wrong_dtype, and an eager call
    whose name, nullable and unique checks pass raises one error; in both
    cases the error carries the schema, the checked object, the reason code
    wrong_dtype and the message and failure cases of [check_dtype], which
    for a mask list every non-conforming row. *)
Theorem check_dtype_wrong_dtype :
  (forall s schema,
     reason_code (check_dtype s schema) = "wrong_dtype" /\
     (passed (check_dtype s schema) = true <->
      dtype schema = None \/
      exists dt, dtype schema = Some dt /\ dtype_matches dt s = true) /\
     (forall dt,
        dtype schema = Some dt ->
        dt_check dt (Engine_dtype (s_dtype s)) s = DtBool false ->
        passed (check_dtype s schema) = false /\
        failure_cases (check_dtype s schema) =
          Some [ {| fc_index := None; fc_value := VStr (s_dtype s) |} ]) /\
     (forall dt m,
        dtype schema = Some dt ->
        dt_check dt (Engine_dtype (s_dtype s)) s = DtMask m ->
        failure_cases (check_dtype s schema) =
          Some (map (fun r => {| fc_index := Some (fst r);
                                 fc_value := snd r |})
                  (nonconforming_rows s m)) /\
        failure_index (check_dtype s schema) =
          map fst (nonconforming_rows s m))) /\
  (forall self l schema head tail sample rs inplace w co o fld,
     coerce schema = false ->
     checked_object self l schema true inplace w = Some (co, o) ->
     field_of o (name schema) = Some fld ->
     Forall dispatch_has_cause (checks schema) ->
     passed (check_dtype (subsampled head tail sample rs fld) schema) = false ->
     exists errors e w',
       validate self l schema head tail sample rs true inplace w =
         (Raise (ExSchemaErrors (sch_id schema) errors co), w') /\
       List.filter (has_reason "wrong_dtype") errors = [e] /\
       ce_reason_code e = Some "wrong_dtype" /\
       err_reason_code (ce_error e) = Some "wrong_dtype" /\
       describes co schema
         (check_dtype (subsampled head tail sample rs fld) schema)
         (ce_error e) /\
       (forall dt m,
          dtype schema = Some dt ->
          dt_check dt
            (Engine_dtype (s_dtype (subsampled head tail sample rs fld)))
            (subsampled head tail sample rs fld) = DtMask m ->
          error_index (ce_error e) =
            map fst
              (nonconforming_rows (subsampled head tail sample rs fld) m))) /\
  (forall self l schema head tail sample rs inplace w co o fld,
     coerce schema = false ->
     checked_object self l schema false inplace w = Some (co, o) ->
     field_of o (name schema) = Some fld ->
     passed (check_name (subsampled head tail sample rs fld) schema) = true ->
     passed (check_nullable (subsampled head tail sample rs fld) schema)
       = true ->
     passed (check_unique (subsampled head tail sample rs fld) schema)
       = true ->
     passed (check_dtype (subsampled head tail sample rs fld) schema) = false ->
     exists err w',
       validate self l schema head tail sample rs false inplace w =
         (Raise (ExSchemaError err), w') /\
       err_reason_code err = Some "wrong_dtype" /\
       describes co schema
         (check_dtype (subsampled head tail sample rs fld) schema) err /\
       (forall dt m,
          dtype schema = Some dt ->
          dt_check dt
            (Engine_dtype (s_dtype (subsampled head tail sample rs fld)))
            (subsampled head tail sample rs fld) = DtMask m ->
          error_index err =
            map fst
              (nonconforming_rows (subsampled head tail sample rs fld) m))).
Proof.
  split; [|split].
  - intros s schema. split; [apply check_dtype_reason|]. split; [|split].
    + rewrite check_dtype_passed. destruct (dtype schema) as [dt|].
      * split; [intros Hm; right; by exists dt|].
        intros [Hn|(dt' & [= <-] & Hm)]; done.
      * split; [by left|done].
    + intros dt Hdt Hb. unfold check_dtype. rewrite Hdt, Hb. done.
    + intros dt m Hdt Hm. exact (failure_index_mask _ _ dt m Hdt Hm).
  - intros self l schema head tail sample rs inplace w co o fld
      Hcoerce Hc Hfld Hcause Hfail.
    destruct (validate_lazy self l schema head tail sample rs inplace w co o
                fld Hc Hfld Hcause) as (entries & w' & Hrun & _ & Hent & _).
    rewrite (coercion_errors_no_coerce _ _ _ _ _ _ Hcoerce) in Hrun.
    rewrite app_nil_l in Hrun.
    assert (Hfilter :
      List.filter (has_reason "wrong_dtype")
        (core_entries core_checks (subsampled head tail sample rs fld) co
           schema ++ entries) =
      [ {| ce_reason_code := Some "wrong_dtype";
           ce_error :=
             core_check_error co schema
               (check_dtype (subsampled head tail sample rs fld) schema) |} ]).
    { rewrite List.filter_app, (filter_wrong_dtype _ _ _ Hfail).
      rewrite (filter_declared "wrong_dtype" entries); done. }
    eexists _, _, w'. split; [|split; [exact Hfilter|]].
    + rewrite Hrun. f_equal.
      destruct (core_entries core_checks _ co schema ++ entries) eqn:He;
        [discriminate Hfilter|reflexivity].
    + cbn [ce_reason_code ce_error]. split; [done|]. split.
      { unfold core_check_error. simpl. by rewrite check_dtype_reason. }
      split; [apply describes_core_check_error|].
      intros dt m Hdt Hm. rewrite error_index_core_check_error.
      exact (proj2 (failure_index_mask _ _ dt m Hdt Hm)).
  - intros self l schema head tail sample rs inplace w co o fld
      Hcoerce Hc Hfld Hn Hnl Hu Hfail.
    destruct (checked_object_prepare _ _ _ _ _ _ _ _ Hc) as (h1 & Hprep & Hco).
    destruct (validate_checks_eager_fail co schema head tail sample rs h1
                (coercion_errors self l schema false inplace w) (calls w)
                o fld
                [("check_name", check_name);
                 ("check_nullable", check_nullable);
                 ("check_unique", check_unique)]
                "check_dtype" check_dtype [] Hco Hfld eq_refl)
      as (h' & Hrun); [by repeat constructor|done|].
    unfold validate, bind. rewrite Hprep, Hrun.
    eexists _, _. split; [reflexivity|]. split.
    { unfold core_check_error. simpl. by rewrite check_dtype_reason. }
    split; [apply describes_core_check_error|].
    intros dt m Hdt Hm. rewrite error_index_core_check_error.
    exact (proj2 (failure_index_mask _ _ dt m Hdt Hm)).
Qed.

End Checks.

(** ** Coercion, copies and the two modes *)

Section Coercion.
Context `{Collaborators}.

Arguments core_calls : simpl never.
Arguments core_entries : simpl never.

Ltac prim :=
  intros;
  match goal with
  | |- keeps _ _ _ _ =>
      intros ? _;
      unfold get_obj, set_obj, alloc, collect_error, new_error_handler,
        record_call, collected_errors, calls_rel, mode_rel, handler_rel,
        any_loc, anything;
      simpl; repeat case_match; simpl; split; done
  | |- _ => unfold calls_rel, mode_rel, handler_rel, no_pre, any_loc in *;
           (done || congruence)
  end.

Lemma preprocess_keeps_handler l inplace w :
  error_handler (snd (preprocess l inplace w)) = error_handler w.
Proof. eapply (keeps_preprocess no_pre handler_rel any_loc); try prim. Qed.

Lemma self_coerce_dtype_handler self l schema w :
  error_handler (snd (self_coerce_dtype self l schema w)) = error_handler w.
Proof.
  eapply (keeps_self_coerce_dtype no_pre handler_rel any_loc); try prim.
Qed.

Lemma self_coerce_dtype_calls self l schema w :
  calls (snd (self_coerce_dtype self l schema w)) = calls w.
Proof.
  eapply (keeps_self_coerce_dtype no_pre calls_rel any_loc); try prim.
Qed.

Lemma preprocess_calls l inplace w :
  calls (snd (preprocess l inplace w)) = calls w.
Proof. eapply (keeps_preprocess no_pre calls_rel any_loc); try prim. Qed.

Lemma preprocess_raises l inplace w exc w' :
  preprocess l inplace w = (Raise exc, w') -> exc = ReferenceError.
Proof.
  unfold preprocess. destruct inplace; [done|].
  unfold bind, get_obj, alloc. destruct (heap w !! l); [done|]. congruence.
Qed.

(** When the coercion inside [validate] raises a [SchemaError], the
    handler is the fresh one of the call and receives that error. *)
Lemma coercion_attempt_failed self l schema lazy inplace w e w1 :
  coerce schema = true ->
  coercion_attempt self l schema lazy inplace w
    = (Raise (ExSchemaError e), w1) ->
  error_handler w1 = {| eh_lazy := lazy; eh_collected := [] |} /\
  calls w1 = calls w /\
  if lazy then
    exists co,
      validate_prepare self l schema true inplace w =
      (Ok co,
       with_handler
         {| eh_lazy := true;
            eh_collected :=
              [ {| ce_reason_code := err_reason_code e; ce_error := e |} ]
         |} w1)
  else
    validate_prepare self l schema false inplace w
      = (Raise (ExSchemaError e), w1).
Proof.
  intros Hcoerce Hrun. unfold coercion_attempt in Hrun.
  unfold bind at 1 in Hrun. unfold new_error_handler in Hrun.
  set (w0 := with_handler {| eh_lazy := lazy; eh_collected := [] |} w) in Hrun.
  unfold bind in Hrun.
  pose proof (preprocess_keeps_handler l inplace w0) as Hph.
  pose proof (preprocess_calls l inplace w0) as Hpc.
  destruct (preprocess l inplace w0) as [[co|x] wp] eqn:Hp; simpl in Hph, Hpc.
  2:{ injection Hrun as -> ->. by apply preprocess_raises in Hp. }
  pose proof (self_coerce_dtype_handler self co (Some schema) wp) as Hh.
  pose proof (self_coerce_dtype_calls self co (Some schema) wp) as Hc.
  rewrite Hrun in Hh, Hc. simpl in Hh, Hc.
  assert (Hw1 : error_handler w1 = {| eh_lazy := lazy; eh_collected := [] |})
    by (rewrite Hh, Hph; reflexivity).
  assert (Hprep : validate_prepare self l schema lazy inplace w =
            (collect_error (err_reason_code e) e None ;;; ret co) w1).
  { unfold validate_prepare. unfold bind at 1. unfold new_error_handler.
    fold w0. unfold bind at 1. rewrite Hp.
    unfold validate_coerce. rewrite Hcoerce. unfold try_except.
    by rewrite Hrun. }
  split; [done|]. split; [by rewrite Hc, Hpc|].
  destruct lazy; rewrite Hprep; unfold bind, collect_error; rewrite Hw1;
    simpl; [by exists co|done].
Qed.

Lemma nonempty_app_cons {A} (l1 : list A) x l2 :
  nonempty (l1 ++ x :: l2) = true.
Proof. by destruct l1. Qed.

(** C10. When the schema declares no dtype, [coerce_dtype] hands its
    argument back, raises nothing and leaves the world as it is, whether or
    not [schema.coerce] is set; so does the coercion step of [validate] on
    the array backend. *)
Theorem coerce_dtype_without_dtype l schema w :
  dtype schema = None ->
  coerce_dtype l (Some schema) w = (Ok l, w) /\
  validate_coerce ArraySchemaBackend l schema w = (Ok l, w).
Proof.
  intros Hd.
  assert (Hc : coerce_dtype l (Some schema) w = (Ok l, w))
    by (unfold coerce_dtype; by rewrite Hd).
  split; [exact Hc|].
  unfold validate_coerce, self_coerce_dtype, try_except.
  destruct (coerce schema); [by rewrite Hc|done].
Qed.

(** C8. A [validate] call with [inplace=False] leaves every object that
    existed before the call as it was, the input among them, on every path:
    whatever coercion and the checks do, they do it to the copy or to
    objects made during the call. *)
Theorem validate_copy_leaves_input self l schema head tail sample rs lazy w :
  take (length (heap w))
    (heap (snd (validate self l schema head tail sample rs lazy false w)))
  = heap w /\
  (forall l0 o,
     heap w !! l0 = Some o ->
     heap (snd (validate self l schema head tail sample rs lazy false w))
       !! l0 = Some o).
Proof.
  pose proof (validate_frame self l schema head tail sample rs lazy w) as Hf.
  unfold frame_rel in Hf. rewrite (take_ge (heap w)) in Hf by done.
  split; [exact Hf|]. intros l0 o Hl0.
  rewrite <- Hf in Hl0. apply lookup_take_Some in Hl0. tauto.
Qed.

(** What the handler holds after the coercion step of a lazy call: the
    error of a failed coercion, under the reason code it carries, and
    nothing else. *)
Lemma coercion_errors_attempt self l schema inplace w :
  coercion_errors self l schema true inplace w =
  match coerce schema, fst (coercion_attempt self l schema true inplace w) with
  | true, Raise (ExSchemaError e) =>
      [ {| ce_reason_code := err_reason_code e; ce_error := e |} ]
  | _, _ => []
  end.
Proof.
  destruct (coerce schema) eqn:Hcoerce.
  - destruct (coercion_attempt self l schema true inplace w) as [r w1] eqn:Hrun.
    destruct r as [co|[e| |]]; cbn [fst].
    2:{ destruct (coercion_attempt_failed _ _ _ _ _ _ _ _ Hcoerce Hrun)
          as (_ & _ & co & Hprep).
        unfold coercion_errors. by rewrite Hprep. }
    all: unfold coercion_attempt in Hrun;
      unfold coercion_errors, validate_prepare, validate_coerce;
      rewrite Hcoerce; unfold bind at 1; unfold bind at 1 in Hrun;
      unfold new_error_handler in *;
      set (w0 := with_handler {| eh_lazy := true; eh_collected := [] |} w)
        in *;
      unfold bind in *; unfold try_except;
      pose proof (preprocess_keeps_handler l inplace w0) as Hph;
      destruct (preprocess l inplace w0) as [[co0|x] wp]; simpl in Hph;
      [pose proof (self_coerce_dtype_handler self co0 (Some schema) wp) as Hh;
       rewrite Hrun in *; simpl in *; by rewrite Hh, Hph
      |simpl; by rewrite Hph].
  - by apply coercion_errors_no_coerce.
Qed.

Lemma core_entries_describe s co schema :
  Forall2 (fun r e => ce_reason_code e = Some (reason_code r) /\
                      describes co schema r (ce_error e))
    (failed_results s schema) (core_entries core_checks s co schema).
Proof.
  unfold core_entries, failed_results.
  generalize (List.filter (fun r => negb (passed r))
                (map (fun c : string * (Series -> Schema -> CoreCheckResult) =>
                        snd c s schema) core_checks)).
  intros rs. induction rs as [|r rs IH]; simpl; constructor; [|exact IH].
  split; [reflexivity|apply describes_core_check_error].
Qed.

(** C2. A lazy [validate] call on data that holds the schema's column
    (dispatch errors of checks carrying their cause) runs every core check
    and every declared check, raising nothing meanwhile.  It then raises one
    [SchemaErrors] holding every collected error in the order of execution
    when there is one, and returns the checked object when there is none.
    The collected errors are: the error of a failed coercion; then one
    error per failed core check, in the order name, nullable, unique,
    dtype, describing the failed result; then the errors of the declared
    checks that fail or raise, in declaration order.  With a null in a
    non-nullable column and a duplicate in a unique column, the aggregate
    holds the series_contains_nulls error of [check_nullable] and, right
    after it, the series_contains_duplicates error of [check_unique]. *)
Theorem validate_lazy_aggregate self l schema head tail sample rs inplace w
    co o fld :
  checked_object self l schema true inplace w = Some (co, o) ->
  field_of o (name schema) = Some fld ->
  Forall dispatch_has_cause (checks schema) ->
  exists w',
    validate self l schema head tail sample rs true inplace w =
    (if nonempty (eh_collected (error_handler w'))
     then Raise (ExSchemaErrors (sch_id schema)
                   (eh_collected (error_handler w')) co)
     else Ok co, w') /\
    eh_collected (error_handler w') =
      coercion_errors self l schema true inplace w ++
      core_entries core_checks (subsampled head tail sample rs fld) co schema
      ++ declared_entries 0 (checks schema)
           (subsampled_object head tail sample rs o)
           (subsample_loc head tail sample
              (first_free self l schema true inplace w) co o) schema /\
    coercion_errors self l schema true inplace w =
      match coerce schema,
            fst (coercion_attempt self l schema true inplace w) with
      | true, Raise (ExSchemaError e) =>
          [ {| ce_reason_code := err_reason_code e; ce_error := e |} ]
      | _, _ => []
      end /\
    Forall2 (fun r e => ce_reason_code e = Some (reason_code r) /\
                        describes co schema r (ce_error e))
      (failed_results (subsampled head tail sample rs fld) schema)
      (core_entries core_checks (subsampled head tail sample rs fld) co
         schema) /\
    calls w' = calls w ++ all_calls schema /\
    (nullable schema = false ->
     any (isna (subsampled head tail sample rs fld)) = true ->
     unique schema = true ->
     any (duplicates_mask (subsampled head tail sample rs fld)
            (convert_uniquesettings (report_duplicates schema))) = true ->
     exists before e1 e2 after,
       validate self l schema head tail sample rs true inplace w =
       (Raise (ExSchemaErrors (sch_id schema)
                 (before ++ e1 :: e2 :: after) co), w') /\
       ce_reason_code e1 = Some "series_contains_nulls" /\
       describes co schema
         (check_nullable (subsampled head tail sample rs fld) schema)
         (ce_error e1) /\
       ce_reason_code e2 = Some "series_contains_duplicates" /\
       describes co schema
         (check_unique (subsampled head tail sample rs fld) schema)
         (ce_error e2)).
Proof.
  intros Hc Hfld Hcause.
  destruct (validate_collects self l schema head tail sample rs inplace w co o
              fld Hc Hfld Hcause) as (w' & Hrun & Hcoll & Hcalls).
  exists w'. split; [exact Hrun|]. split; [exact Hcoll|].
  split; [apply coercion_errors_attempt|].
  split; [apply core_entries_describe|]. split; [exact Hcalls|].
  intros Hn Hna Hu Hdup. rewrite Hrun, Hcoll.
  set (s := subsampled head tail sample rs fld) in *.
  set (entries := declared_entries _ _ _ _ _) in *.
  assert (Hcore : core_entries core_checks s co schema =
            core_entries [("check_name", check_name)] s co schema ++
            {| ce_reason_code := Some "series_contains_nulls";
               ce_error := core_check_error co schema (check_nullable s schema)
            |} ::
            {| ce_reason_code := Some "series_contains_duplicates";
               ce_error := core_check_error co schema (check_unique s schema)
            |} ::
            core_entries [("check_dtype", check_dtype)] s co schema).
  { rewrite core_entries_core_checks.
    rewrite (core_entries_single "check_nullable"),
      (core_entries_single "check_unique").
    rewrite check_unique_reason, check_unique_eq. cbv zeta.
    rewrite Hu, Hdup. cbn [passed check_nullable reason_code andb].
    rewrite Hn, Hna. reflexivity. }
  exists (coercion_errors self l schema true inplace w ++
          core_entries [("check_name", check_name)] s co schema),
         {| ce_reason_code := Some "series_contains_nulls";
            ce_error := core_check_error co schema (check_nullable s schema) |},
         {| ce_reason_code := Some "series_contains_duplicates";
            ce_error := core_check_error co schema (check_unique s schema) |},
         (core_entries [("check_dtype", check_dtype)] s co schema ++ entries).
  cbn [ce_reason_code ce_error].
  split; [|repeat split; apply describes_core_check_error].
  replace (coercion_errors self l schema true inplace w ++
           core_entries core_checks s co schema ++ entries)
    with ((coercion_errors self l schema true inplace w ++
           core_entries [("check_name", check_name)] s co schema) ++
          {| ce_reason_code := Some "series_contains_nulls";
             ce_error := core_check_error co schema (check_nullable s schema)
          |} ::
          {| ce_reason_code := Some "series_contains_duplicates";
             ce_error := core_check_error co schema (check_unique s schema)
          |} ::
          core_entries [("check_dtype", check_dtype)] s co schema ++ entries)
    by (rewrite Hcore, <- !app_assoc; reflexivity).
  by rewrite nonempty_app_cons.
Qed.

End Coercion.

(** ** Order of the checks and the eager mode *)

Section Modes.
Context `{Collaborators}.

Arguments core_calls : simpl never.
Arguments core_entries : simpl never.

Lemma core_calls_no_check cs i : ~ In (CallCheck i) (core_calls cs).
Proof.
  unfold core_calls. rewrite in_map_iff. by intros (x & Hx & _).
Qed.

(** C3. In eager mode the first error handed to the handler ends the call.
    A coercion that fails is raised before any check is invoked; otherwise
    the error raised is that of the first core check that fails, in the
    order name, nullable, unique, dtype, whatever the later checks would
    say, and no declared check has been invoked. *)
Theorem validate_eager_first_error :
  (forall self l schema head tail sample rs inplace w e w1,
     coerce schema = true ->
     coercion_attempt self l schema false inplace w
       = (Raise (ExSchemaError e), w1) ->
     validate self l schema head tail sample rs false inplace w
       = (Raise (ExSchemaError e), w1) /\
     calls w1 = calls w) /\
  (forall self l schema head tail sample rs inplace w co o fld pre fn f post,
     checked_object self l schema false inplace w = Some (co, o) ->
     field_of o (name schema) = Some fld ->
     core_checks = pre ++ (fn, f) :: post ->
     Forall (fun g =>
               passed (snd g (subsampled head tail sample rs fld) schema)
               = true) pre ->
     passed (f (subsampled head tail sample rs fld) schema) = false ->
     exists w',
       validate self l schema head tail sample rs false inplace w =
       (Raise (ExSchemaError
                 (core_check_error co schema
                    (f (subsampled head tail sample rs fld) schema))), w') /\
       calls w' = calls w ++ core_calls (pre ++ [(fn, f)]) /\
       (forall i, ~ In (CallCheck i) (core_calls (pre ++ [(fn, f)])))).
Proof.
  split.
  - intros self l schema head tail sample rs inplace w e w1 Hcoerce Hrun.
    destruct (coercion_attempt_failed _ _ _ _ _ _ _ _ Hcoerce Hrun)
      as (_ & Hcalls & Hprep).
    unfold validate, bind. rewrite Hprep. done.
  - intros self l schema head tail sample rs inplace w co o fld pre fn f post
      Hc Hfld Hsplit Hpre Hfail.
    destruct (checked_object_prepare _ _ _ _ _ _ _ _ Hc) as (h1 & Hprep & Hco).
    destruct (validate_checks_eager_fail co schema head tail sample rs h1
                (coercion_errors self l schema false inplace w) (calls w)
                o fld pre fn f post Hco Hfld Hsplit Hpre Hfail)
      as (h' & Hrun).
    unfold validate, bind. rewrite Hprep, Hrun.
    eexists. split; [reflexivity|]. split; [reflexivity|].
    intros i. apply core_calls_no_check.
Qed.

(** C4. The invocations of a [validate] call are always an
    initial segment of: check_name, check_nullable, check_unique,
    check_dtype, then the declared checks by index, whatever the schema
    declares.  A lazy call on data that holds the schema's column (dispatch
    errors of checks carrying their cause) runs the whole sequence and
    collects the failed core results in that order, before any error of a
    declared check.  An eager call stops at the first core check that
    fails; when all four pass it goes on with the declared checks, in
    declaration order, up to and including the first that does not pass;
    when its coercion fails it invokes no check at all. *)
Theorem validate_check_order :
  (forall self l schema head tail sample rs lazy inplace w,
     exists c,
       calls (snd (validate self l schema head tail sample rs lazy inplace w))
         = calls w ++ c /\
       c `prefix_of` all_calls schema) /\
  (forall self l schema head tail sample rs inplace w co o fld,
     checked_object self l schema true inplace w = Some (co, o) ->
     field_of o (name schema) = Some fld ->
     Forall dispatch_has_cause (checks schema) ->
     calls (snd (validate self l schema head tail sample rs true inplace w))
       = calls w ++ all_calls schema /\
     eh_collected
       (error_handler
          (snd (validate self l schema head tail sample rs true inplace w)))
       = coercion_errors self l schema true inplace w ++
         core_entries core_checks (subsampled head tail sample rs fld) co
           schema ++
         declared_entries 0 (checks schema)
           (subsampled_object head tail sample rs o)
           (subsample_loc head tail sample
              (first_free self l schema true inplace w) co o) schema /\
     Forall2 (fun r e => ce_reason_code e = Some (reason_code r) /\
                         describes co schema r (ce_error e))
       (failed_results (subsampled head tail sample rs fld) schema)
       (core_entries core_checks (subsampled head tail sample rs fld) co
          schema)) /\
  (forall self l schema head tail sample rs inplace w co o fld pre fn f post,
     checked_object self l schema false inplace w = Some (co, o) ->
     field_of o (name schema) = Some fld ->
     core_checks = pre ++ (fn, f) :: post ->
     Forall (fun g =>
               passed (snd g (subsampled head tail sample rs fld) schema)
               = true) pre ->
     passed (f (subsampled head tail sample rs fld) schema) = false ->
     calls (snd (validate self l schema head tail sample rs false inplace w))
       = calls w ++ core_calls (pre ++ [(fn, f)])) /\
  (forall self l schema head tail sample rs inplace w co o fld,
     checked_object self l schema false inplace w = Some (co, o) ->
     field_of o (name schema) = Some fld ->
     Forall (fun g =>
               passed (snd g (subsampled head tail sample rs fld) schema)
               = true) core_checks ->
     calls (snd (validate self l schema head tail sample rs false inplace w))
       = calls w ++ core_calls core_checks ++
         map CallCheck
           (seq 0 (eager_invoked (checks schema)
                     (subsampled_object head tail sample rs o) schema)) /\
     (checks_pass (checks schema)
        (subsampled_object head tail sample rs o) schema = true ->
      calls (snd (validate self l schema head tail sample rs false inplace w))
        = calls w ++ all_calls schema)) /\
  (forall self l schema head tail sample rs inplace w e w1,
     coerce schema = true ->
     coercion_attempt self l schema false inplace w
       = (Raise (ExSchemaError e), w1) ->
     calls (snd (validate self l schema head tail sample rs false inplace w))
       = calls w).
Proof.
  split; [|split; [|split; [|split]]].
  5:{ intros self l schema head tail sample rs inplace w e w1 Hcoerce Hrun.
      destruct (coercion_attempt_failed _ _ _ _ _ _ _ _ Hcoerce Hrun)
        as (_ & Hcalls & Hprep).
      unfold validate, bind. by rewrite Hprep. }
  - intros. apply validate_calls.
  - intros self l schema head tail sample rs inplace w co o fld Hc Hfld Hcause.
    destruct (validate_collects self l schema head tail sample rs inplace w
                co o fld Hc Hfld Hcause)
      as (w' & Hrun & Hcoll & Hcalls).
    rewrite Hrun. cbn [snd].
    split; [exact Hcalls|]. split; [exact Hcoll|].
    apply core_entries_describe.
  - intros self l schema head tail sample rs inplace w co o fld pre fn f post
      Hc Hfld Hsplit Hpre Hfail.
    destruct (checked_object_prepare _ _ _ _ _ _ _ _ Hc) as (h1 & Hprep & Hco).
    destruct (validate_checks_eager_fail co schema head tail sample rs h1
                (coercion_errors self l schema false inplace w) (calls w)
                o fld pre fn f post Hco Hfld Hsplit Hpre Hfail)
      as (h' & Hrun).
    unfold validate, bind. rewrite Hprep, Hrun. reflexivity.
  - intros self l schema head tail sample rs inplace w co o fld Hc Hfld Hcore.
    destruct (checked_object_prepare _ _ _ _ _ _ _ _ Hc) as (h1 & Hprep & Hco).
    pose proof (validate_checks_eager_pass co schema head tail sample rs h1
                  (coercion_errors self l schema false inplace w) (calls w)
                  o fld Hco Hfld Hcore) as Hcalls.
    assert (Hv : calls (snd (validate self l schema head tail sample rs false
                               inplace w)) =
                 calls w ++ core_calls core_checks ++
                 map CallCheck
                   (seq 0 (eager_invoked (checks schema)
                             (subsampled_object head tail sample rs o)
                             schema))).
    { unfold validate, bind. rewrite Hprep. exact Hcalls. }
    split; [exact Hv|]. intros Hpass. rewrite Hv.
    by rewrite (eager_invoked_pass _ _ _ Hpass).
Qed.

(** C1. When coercion is requested and fails in a lazy call, the
    handler collects the error first, under the reason code the exception
    carries, and validation goes on with the uncoerced object: every core
    check and every declared check runs, and the aggregate raised holds the
    coercion error followed by the failed core results and the errors of
    declared checks. *)
Theorem validate_lazy_coercion_failure self l schema head tail sample rs
    inplace w e w1 co o fld :
  coerce schema = true ->
  coercion_attempt self l schema true inplace w
    = (Raise (ExSchemaError e), w1) ->
  checked_object self l schema true inplace w = Some (co, o) ->
  field_of o (name schema) = Some fld ->
  Forall dispatch_has_cause (checks schema) ->
  exists entries w',
    validate self l schema head tail sample rs true inplace w =
    (Raise (ExSchemaErrors (sch_id schema)
              ({| ce_reason_code := err_reason_code e; ce_error := e |} ::
               core_entries core_checks (subsampled head tail sample rs fld)
                 co schema ++ entries) co), w') /\
    Forall declared_reason entries /\
    calls w' = calls w ++ all_calls schema /\
    heap w1 !! co = Some o.
Proof.
  intros Hcoerce Hattempt Hc Hfld Hcause.
  destruct (coercion_attempt_failed _ _ _ _ _ _ _ _ Hcoerce Hattempt)
    as (_ & _ & co' & Hprep).
  assert (Herrs : coercion_errors self l schema true inplace w =
            [ {| ce_reason_code := err_reason_code e; ce_error := e |} ])
    by (unfold coercion_errors; by rewrite Hprep).
  assert (Hobj : heap w1 !! co = Some o).
  { unfold checked_object in Hc. rewrite Hprep in Hc. simpl in Hc.
    destruct (heap w1 !! co') eqn:Hl; [|done]. by injection Hc as <- <-. }
  destruct (validate_lazy self l schema head tail sample rs inplace w co o
              fld Hc Hfld Hcause)
    as (entries & w' & Hrun & _ & Hent & Hcalls).
  rewrite Herrs in Hrun. simpl in Hrun.
  exists entries, w'. done.
Qed.

(** C7. When the loop of [run_checks] reaches a check whose
    implementation raises an exception other than [SchemaError], it wraps
    the exception, or the cause of a dispatch error that carries one, in a
    [SchemaError] handed to the handler under "check_error".  A lazy handler
    records it and the loop goes on: every remaining check is invoked, and
    the results so far are kept. *)
Theorem run_checks_wraps_exception idx chk rest acc co schema lz h errs c o
    e e' :
  h !! co = Some o ->
  snd (chk_call chk o (check_args o schema)) = CheckRaised e ->
  unwrapped e = Some e' ->
  Forall dispatch_has_cause rest ->
  exists results entries h',
    run_checks_from idx (chk :: rest) acc co schema lz (lazy_world h errs c) =
    (Ok results,
     lazy_world h'
       (errs ++ {| ce_reason_code := Some "check_error";
                   ce_error := check_error co schema chk idx e' |} :: entries)
       (c ++ map CallCheck (seq idx (S (length rest))))) /\
    Forall declared_reason entries /\
    (all acc = true -> all results = true) /\
    (is_DispatchError e = true -> exc_cause e = Some e') /\
    (is_DispatchError e = false -> e' = e).
Proof.
  intros Hco Hout Hun Hcause.
  rewrite (run_checks_from_step _ _ _ _ _ _ _ _ _ _ _ Hco). cbv zeta.
  rewrite Hout, Hun.
  assert (Hco' : is_Some (<[co := fst (chk_call chk o (check_args o schema))]>
                            h !! co)).
  { eexists. apply list_lookup_insert_eq. by apply lookup_lt_Some with o. }
  destruct (run_checks_from_lazy rest (S idx) acc co schema lz _
              (errs ++ [ {| ce_reason_code := Some "check_error";
                            ce_error := check_error co schema chk idx e' |} ])
              (c ++ [CallCheck idx]) Hco' Hcause)
    as (results & entries & h' & Hrun & _ & Hall & Hent & _).
  exists results, entries, h'. rewrite Hrun, <- !app_assoc. simpl.
  split; [done|]. split; [done|]. split; [done|].
  unfold unwrapped in Hun. split; intros Hd; rewrite Hd in Hun; congruence.
Qed.

End Modes.

(** ** The schema attached to the coerced object *)

Section Association.
Context `{Collaborators}.

Lemma add_schema_if_accessor_spec l schema w o :
  heap w !! l = Some o ->
  (is_Some (obj_pandera o) -> schema_accepted o (Some schema) = true) ->
  add_schema_if_accessor l (Some schema) w =
  (Ok l, with_heap (<[l := with_schema o schema]> (heap w)) w).
Proof.
  intros Hl Hacc. unfold add_schema_if_accessor, add_schema, bind, get_obj, with_schema.
  rewrite Hl. destruct (obj_pandera o); simpl.
  - rewrite Hacc by by eexists. reflexivity.
  - unfold ret. rewrite list_insert_id by done. by destruct w.
Qed.

Lemma add_schema_if_accessor_refused l schema w o :
  heap w !! l = Some o ->
  is_Some (obj_pandera o) ->
  schema_accepted o schema = false ->
  add_schema_if_accessor l schema w = (Raise (TypeError "schema arg"), w).
Proof.
  intros Hl [acc Hacc] Hno. unfold add_schema_if_accessor, add_schema, bind, get_obj.
  by rewrite Hl, Hacc, Hno.
Qed.

Lemma with_schema_attached o schema :
  is_Some (obj_pandera (with_schema o schema)) ->
  attached (with_schema o schema) = Some (sch_id schema).
Proof.
  unfold with_schema, attached.
  destruct (obj_pandera o) eqn:Hp; simpl; [done|].
  rewrite Hp. by intros [? ?].
Qed.

Lemma with_schema_idemp o schema :
  with_schema (with_schema o schema) schema = with_schema o schema.
Proof.
  unfold with_schema. destruct (obj_pandera o) eqn:Hp; simpl; [done|].
  by rewrite Hp.
Qed.

Lemma with_schema_data o schema :
  obj_data (with_schema o schema) = obj_data o.
Proof. unfold with_schema. by destruct (obj_pandera o). Qed.

(** What a second [add_schema] gives on an object [o'] at [l']. *)
Lemma add_schema_if_accessor_outcome l' schema w o' :
  heap w !! l' = Some o' ->
  match add_schema_if_accessor l' (Some schema) w with
  | (Ok out, w') =>
      out = l' /\
      heap w' = <[l' := with_schema o' schema]> (heap w) /\
      exists o'',
        heap w' !! out = Some o'' /\
        (is_Some (obj_pandera o'') -> attached o'' = Some (sch_id schema))
  | (Raise exc, w') => exc = TypeError "schema arg" /\ w' = w
  end.
Proof.
  intros Hl.
  destruct (obj_pandera o') as [acc|] eqn:Hacc.
  - destruct (schema_accepted o' (Some schema)) eqn:Hok.
    + rewrite (add_schema_if_accessor_spec _ _ _ _ Hl) by done.
      split; [done|]. split; [done|]. exists (with_schema o' schema). split.
      * apply list_lookup_insert_eq. by apply lookup_lt_Some with o'.
      * apply with_schema_attached.
    + rewrite (add_schema_if_accessor_refused _ _ _ _ Hl) by (done || by eexists).
      done.
  - rewrite (add_schema_if_accessor_spec _ _ _ _ Hl)
      by (rewrite Hacc; by intros [? ?]).
    split; [done|]. split; [done|]. exists (with_schema o' schema). split.
    + apply list_lookup_insert_eq. by apply lookup_lt_Some with o'.
    + apply with_schema_attached.
Qed.

(** C9. On a series whose accessor is available,
    [SeriesSchemaBackend.coerce_dtype] attaches the schema it is given
    before it coerces: the dtype's [try_coerce] is handed the object with
    the association already in place.  When coercion succeeds or is not
    needed, the object returned exists and, if it has the accessor, carries
    the association with that schema, whichever schema was attached to the
    input.  When coercion fails nothing is returned: the [SchemaError] of
    the failed coercion is raised, and the object is left as [try_coerce]
    left it.  The only other exception is the [TypeError] of a coerced
    object whose accessor refuses the schema. *)
Theorem series_coerce_dtype_attaches_schema l schema w o s :
  heap w !! l = Some o ->
  obj_data o = Field s ->
  is_Some (obj_pandera o) ->
  match series_coerce_dtype l (Some schema) w with
  | (Ok out, w') =>
      (exists o',
         heap w' !! out = Some o' /\
         (is_Some (obj_pandera o') -> attached o' = Some (sch_id schema))) /\
      match dtype schema, coerce schema with
      | Some dt, true =>
          exists o2,
            (dt_try_coerce dt (with_schema o schema) = (o2, CoercedInPlace) /\
             out = l) \/
            (exists n,
               dt_try_coerce dt (with_schema o schema) = (o2, CoercedNew n) /\
               out = length (heap w) /\ heap w' !! l = Some o2)
      | _, _ => out = l /\ heap w' = <[l := with_schema o schema]> (heap w)
      end
  | (Raise exc, w') =>
      exists dt o2 outcome,
        dtype schema = Some dt /\ coerce schema = true /\
        dt_try_coerce dt (with_schema o schema) = (o2, outcome) /\
        heap w' !! l = Some o2 /\
        match outcome with
        | CoerceFailed pe => exc = ExSchemaError (coerce_error l schema dt pe)
        | _ => exc = TypeError "schema arg"
        end
  end.
Proof.
  intros Hl Hfield Hacc. unfold series_coerce_dtype. unfold bind at 1.
  assert (Hok : is_Some (obj_pandera o) ->
                schema_accepted o (Some schema) = true)
    by (intros _; unfold schema_accepted; by rewrite Hfield).
  rewrite (add_schema_if_accessor_spec _ _ _ _ Hl Hok).
  set (o1 := with_schema o schema).
  set (w1 := with_heap (<[l:=o1]> (heap w)) w).
  assert (Hlt : l < length (heap w)) by by apply lookup_lt_Some with o.
  assert (Hl1 : heap w1 !! l = Some o1) by by apply list_lookup_insert_eq.
  assert (Hnocoerce :
    match add_schema_if_accessor l (Some schema) w1 with
    | (Ok out, w') =>
        (exists o',
           heap w' !! out = Some o' /\
           (is_Some (obj_pandera o') -> attached o' = Some (sch_id schema))) /\
        out = l /\ heap w' = <[l := o1]> (heap w)
    | (Raise _, _) => False
    end).
  { assert (Hok1 : is_Some (obj_pandera o1) ->
                   schema_accepted o1 (Some schema) = true).
    { intros _. unfold schema_accepted. subst o1.
      by rewrite with_schema_data, Hfield. }
    rewrite (add_schema_if_accessor_spec _ _ _ _ Hl1 Hok1).
    subst o1. rewrite with_schema_idemp. split; [|split; [done|]].
    - exists (with_schema o schema). split.
      + unfold w1. cbn [heap with_heap]. apply list_lookup_insert_eq.
        by rewrite length_insert.
      + apply with_schema_attached.
    - unfold w1. cbn [heap with_heap]. by rewrite list_insert_insert_eq. }
  unfold bind at 1. unfold coerce_dtype.
  destruct (dtype schema) as [dt|] eqn:Hdt.
  2:{ unfold ret at 1.
      destruct (add_schema_if_accessor l (Some schema) w1) as [[?|?] ?];
        [|done]. destruct Hnocoerce as (? & ? & ?). done. }
  destruct (coerce schema) eqn:Hcoerce; cbn [negb].
  2:{ unfold ret at 1.
      destruct (add_schema_if_accessor l (Some schema) w1) as [[?|?] ?];
        [|done]. destruct Hnocoerce as (? & ? & ?). done. }
  clear Hnocoerce.
  unfold bind at 1. unfold try_coerce. unfold bind at 1. unfold get_obj.
  rewrite Hl1. destruct (dt_try_coerce dt o1) as [o2 outcome] eqn:Hco.
  unfold bind at 1. unfold set_obj at 1.
  set (w2 := with_heap (<[l:=o2]> (heap w1)) w1).
  assert (Hl2 : heap w2 !! l = Some o2).
  { apply list_lookup_insert_eq. by apply lookup_lt_Some with o1. }
  destruct outcome as [|n|pe].
  - unfold ret at 1 2.
    pose proof (add_schema_if_accessor_outcome l schema w2 o2 Hl2) as Hout.
    destruct (add_schema_if_accessor l (Some schema) w2) as [[out|exc] w'].
    + destruct Hout as (-> & _ & Ho'). split; [exact Ho'|].
      exists o2. left. done.
    + destruct Hout as [-> ->]. exists dt, o2, CoercedInPlace. done.
  - unfold bind at 1. unfold alloc at 1. unfold ret. cbv beta iota.
    set (w3 := with_heap (heap w2 ++ [n]) w2).
    assert (Hl3 : heap w3 !! length (heap w2) = Some n)
      by apply lookup_alloc_new.
    assert (Hlen2 : length (heap w2) = length (heap w)).
    { subst w2 w1. cbn [heap with_heap]. by rewrite !length_insert. }
    assert (Hl3' : heap w3 !! l = Some o2).
    { subst w3. cbn [heap with_heap]. by apply lookup_app_l_Some. }
    pose proof (add_schema_if_accessor_outcome (length (heap w2)) schema w3 n
                  Hl3) as Hout.
    destruct (add_schema_if_accessor (length (heap w2)) (Some schema) w3)
      as [[out|exc] w'].
    + destruct Hout as (-> & Hheap & Ho'). split; [exact Ho'|].
      exists o2. right. exists n. split; [done|]. split; [done|].
      rewrite Hheap. rewrite list_lookup_insert_ne by lia. exact Hl3'.
    + destruct Hout as [-> ->]. exists dt, o2, (CoercedNew n). done.
  - unfold ret at 1. unfold raise. exists dt, o2, (CoerceFailed pe). done.
Qed.

End Association.

(** ** What the core checks report *)

Section CoreChecks.
Context `{Collaborators}.

Lemma mask_rows_map (rows : list (Label * Value)) (f : Label * Value -> bool) :
  mask_rows rows (map f rows) = List.filter f rows.
Proof.
  induction rows as [|r rows IH]; [done|]. simpl.
  destruct (f r); by rewrite IH.
Qed.

Lemma isna_rows s : isna s = map (fun r => is_null (snd r)) (s_rows s).
Proof. unfold isna, s_values. by rewrite map_map. Qed.

Lemma any_isna s : any (isna s) = false <-> VNull ∉ s_values s.
Proof.
  unfold any, isna. induction (s_values s) as [|v vs IH]; simpl.
  - split; [intros _; apply not_elem_of_nil|done].
  - rewrite not_elem_of_cons, orb_false_iff, IH.
    unfold id. destruct v; simpl; intuition congruence.
Qed.

Lemma find_column_name k cols c :
  find_column k cols = Some c -> s_name c = Some k.
Proof.
  induction cols as [|c' cols IH]; simpl; [done|].
  case_bool_decide as Hn; [|exact IH]. by intros [= <-].
Qed.

Lemma subsampled_name head tail sample rs s :
  s_name (subsampled head tail sample rs s) = s_name s.
Proof. unfold subsampled. by destruct head, tail, sample. Qed.

(** X1. [check_nullable] passes iff the schema is nullable or the column
    holds no null.  Whatever the verdict, the rows its message shows are
    exactly the rows whose value is null, in the order of the column, its
    failure cases are built from those rows with [ignore_na=False], and a
    failed check shows at least one row. *)
Theorem check_nullable_reports_nulls s schema :
  (passed (check_nullable s schema) = true <->
   nullable schema = true \/ VNull ∉ s_values s) /\
  reported_rows (check_nullable s schema) = null_rows s /\
  failure_cases (check_nullable s schema) =
    Some (reshape_failure_cases (null_rows s) false) /\
  (passed (check_nullable s schema) = false -> null_rows s <> []).
Proof.
  assert (Hrows : mask_rows (s_rows s) (isna s) = null_rows s)
    by (rewrite isna_rows; apply mask_rows_map).
  unfold check_nullable, reported_rows. cbv zeta. cbn [passed message failure_cases].
  rewrite Hrows. split; [|split; [done|split; [done|]]].
  - rewrite orb_true_iff, negb_true_iff, any_isna. done.
  - rewrite orb_false_iff, negb_false_iff. intros [_ Hany] Hnil.
    assert (Hno : any (isna s) = false); [|congruence].
    apply any_isna. intros Hin. unfold s_values in Hin.
    apply list_elem_of_fmap in Hin as (r & Hr & Hin).
    assert (Hf : r ∈ null_rows s).
    { unfold null_rows. apply list_elem_of_In, filter_In.
      split; [by apply list_elem_of_In|by rewrite <- Hr]. }
    rewrite Hnil in Hf. by apply elem_of_nil in Hf.
Qed.

(** X2. On a frame, [validate] hands the core checks the column it looked
    up under the schema's name, so [check_name] passes on it, subsampled or
    not, and no wrong_field_name error is among the errors of the core
    checks. *)
Theorem check_name_passes_on_frame_column o cols schema fld :
  obj_data o = Frame cols ->
  field_of o (name schema) = Some fld ->
  forall head tail sample rs co,
    passed (check_name (subsampled head tail sample rs fld) schema) = true /\
    Forall (fun e => ce_reason_code e <> Some "wrong_field_name")
      (core_entries core_checks (subsampled head tail sample rs fld) co schema).
Proof.
  intros Hd Hf head tail sample rs co. unfold field_of in Hf. rewrite Hd in Hf.
  destruct (name schema) as [k|] eqn:Hk; [|done].
  apply find_column_name in Hf.
  assert (Hp : passed (check_name (subsampled head tail sample rs fld) schema)
               = true).
  { unfold check_name. cbn [passed]. rewrite Hk, subsampled_name.
    by apply bool_decide_eq_true. }
  split; [exact Hp|].
  unfold core_entries. apply Forall_forall. intros e He.
  apply list_elem_of_fmap in He as (r & -> & Hr). cbn [ce_reason_code].
  apply list_elem_of_In, filter_In in Hr as [Hr Hfail].
  unfold core_checks in Hr. cbn [map snd] in Hr.
  destruct Hr as [<-|[<-|[<-|[<-|[]]]]].
  - by rewrite Hp in Hfail.
  - unfold check_nullable. simpl. discriminate.
  - rewrite check_unique_eq. cbv zeta.
    destruct (unique schema && _); simpl; discriminate.
  - unfold check_dtype. destruct (dtype schema) as [dt|]; [|simpl; discriminate].
    destruct (dt_check _ _ _); simpl; discriminate.
Qed.


(** *** Rows reported by [check_unique] *)

Lemma count_app (v : Value) (l1 l2 : list Value) :
  length (List.filter (value_eqb v) (l1 ++ l2)) =
  length (List.filter (value_eqb v) l1) + length (List.filter (value_eqb v) l2).
Proof. by rewrite List.filter_app, length_app. Qed.

Lemma count_move (v x : Value) (l1 l2 : list Value) :
  length (List.filter (value_eqb v) ((x :: l1) ++ l2)) =
  length (List.filter (value_eqb v) (l1 ++ x :: l2)).
Proof.
  rewrite (count_app v (x :: l1)), (count_app v l1). simpl.
  destruct (value_eqb v x); simpl; lia.
Qed.

Lemma existsb_count (v : Value) (l : list Value) :
  existsb (value_eqb v) l = Nat.leb 1 (length (List.filter (value_eqb v) l)).
Proof.
  induction l as [|x l IH]; [done|]. simpl.
  destruct (value_eqb v x); simpl; [done|exact IH].
Qed.

Lemma value_eqb_refl v : value_eqb v v = true.
Proof. unfold value_eqb. by apply bool_decide_eq_true. Qed.

Lemma mask_rows_duplicated_repeated keep before rows r :
  r ∈ mask_rows rows (duplicated_from keep before (map snd rows)) ->
  2 <= length (List.filter (value_eqb (snd r)) (before ++ map snd rows)).
Proof.
  revert before. induction rows as [|[l v] rows IH]; intros before Hr.
  - by apply elem_of_nil in Hr.
  - cbn [map snd duplicated_from mask_rows] in Hr.
    assert (Htail : r ∈ mask_rows rows
                      (duplicated_from keep (v :: before) (map snd rows)) ->
            2 <= length (List.filter (value_eqb (snd r))
                           (before ++ map snd ((l, v) :: rows)))).
    { intros Hin. apply IH in Hin. by rewrite count_move in Hin. }
    match type of Hr with
    | _ ∈ (if ?b then _ else _) => destruct b eqn:Hflag
    end; [|by apply Htail].
    apply elem_of_cons in Hr as [->|Hr]; [|by apply Htail].
    cbn [snd map]. rewrite count_app. cbn [List.filter].
    rewrite value_eqb_refl. cbn [length].
    rewrite !existsb_count in Hflag.
    destruct keep; repeat
      match type of Hflag with
      | (_ || _) = true => apply orb_true_iff in Hflag as [Hflag|Hflag]
      | Nat.leb _ _ = true => apply Nat.leb_le in Hflag
      end; lia.
Qed.

Lemma mask_rows_duplicated_all before rows :
  mask_rows rows (duplicated_from keep_False before (map snd rows)) =
  List.filter
    (fun r => Nat.leb 2 (length (List.filter (value_eqb (snd r))
                                   (before ++ map snd rows))))
    rows.
Proof.
  revert before. induction rows as [|[l v] rows IH]; intros before; [done|].
  cbn [map snd duplicated_from mask_rows List.filter].
  rewrite IH.
  assert (Hext :
    List.filter
      (fun r => Nat.leb 2 (length (List.filter (value_eqb (snd r))
                                     ((v :: before) ++ map snd rows)))) rows =
    List.filter
      (fun r => Nat.leb 2 (length (List.filter (value_eqb (snd r))
                                     (before ++ v :: map snd rows)))) rows).
  { apply List.filter_ext. intros r. by rewrite count_move. }
  rewrite Hext.
  assert (Hflag :
    existsb (value_eqb v) before || existsb (value_eqb v) (map snd rows) =
    Nat.leb 2 (length (List.filter (value_eqb v)
                         (before ++ v :: map snd rows)))).
  { rewrite !existsb_count, count_app. cbn [List.filter].
    rewrite value_eqb_refl. cbn [length].
    apply eq_true_iff_eq. rewrite orb_true_iff, !Nat.leb_le. lia. }
  by rewrite Hflag.
Qed.

Lemma mask_rows_none rows m : any m = false -> mask_rows rows m = [].
Proof.
  unfold any. revert m. induction rows as [|r rows IH]; intros [|b m]; try done.
  simpl. unfold id at 1. destruct b; [done|]. apply IH.
Qed.

Lemma mask_rows_some (rows : list (Label * Value)) m :
  length m = length rows -> any m = true -> mask_rows rows m <> [].
Proof.
  unfold any. revert m. induction rows as [|r rows IH]; intros [|b m]; try done.
  simpl. unfold id at 1. intros [= Hlen]. destruct b; [done|]. by apply IH.
Qed.

Lemma reported_rows_check_unique s schema :
  reported_rows (check_unique s schema) =
  if unique schema then
    mask_rows (s_rows s)
      (duplicates_mask s (convert_uniquesettings (report_duplicates schema)))
  else [].
Proof.
  rewrite check_unique_eq. cbv zeta. unfold reported_rows.
  destruct (unique schema); [|done]. cbn [andb].
  destruct (any _) eqn:Hany; cbn [message]; [done|].
  symmetry. by apply mask_rows_none.
Qed.

(** X3. The rows [check_unique] reports are rows of the column whose value
    occurs at least twice in it (the row labels of a pyspark object being
    distinct), values being compared as Python compares them, [True] equal
    to 1 and [False] to 0.  When every duplicate is to be reported they are
    exactly those rows, and a failed check reports at least one row. *)
Theorem check_unique_reports_repeated s schema :
  (is_pyspark s = true -> NoDup (s_index s)) ->
  (forall r, r ∈ reported_rows (check_unique s schema) ->
             r ∈ s_rows s /\ 2 <= occurrences (snd r) s) /\
  (unique schema = true -> report_duplicates schema = report_all ->
   reported_rows (check_unique s schema) = repeated_rows s) /\
  (passed (check_unique s schema) = false ->
   reported_rows (check_unique s schema) <> []).
Proof.
  intros Hnd. rewrite reported_rows_check_unique.
  rewrite (duplicates_mask_duplicated _ _ Hnd).
  unfold duplicated, occurrences, repeated_rows, s_values.
  split; [|split].
  - intros r Hr. destruct (unique schema); [|by apply elem_of_nil in Hr].
    split; [|by apply (mask_rows_duplicated_repeated _ [] _ _ Hr)].
    clear Hnd. revert Hr. generalize (duplicated_from
      (convert_uniquesettings (report_duplicates schema)) [] (map snd (s_rows s))).
    induction (s_rows s) as [|r0 rows IH]; intros [|b m] Hr;
      try by apply elem_of_nil in Hr.
    simpl in Hr. destruct b.
    + apply elem_of_cons in Hr as [->|Hr]; [left|right; by eapply IH].
    + right. by eapply IH.
  - intros -> ->. simpl. apply (mask_rows_duplicated_all []).
  - rewrite check_unique_eq. cbv zeta.
    rewrite (duplicates_mask_duplicated _ _ Hnd).
    destruct (unique schema); [|done]. cbn [andb].
    destruct (any _) eqn:Hany; [|done]. intros _.
    apply mask_rows_some; [|exact Hany].
    unfold duplicated, s_values. by rewrite length_duplicated_from, length_map.
Qed.

(** *** What a failed core check carries *)

Lemma filter_sublist {A} (f : A -> bool) (l : list A) :
  List.filter f l `sublist_of` l.
Proof.
  induction l as [|x l IH]; [done|]. simpl.
  destruct (f x); [by apply sublist_skip|by apply sublist_cons].
Qed.

(** X4. Every error [validate] builds from a failed core check carries a
    message and failure cases, the reason code it is collected under, the
    checked object and the schema; there is at most one error per core
    check, in the order name, nulls, duplicates, dtype. *)
Theorem core_entries_details s co schema :
  Forall (fun e =>
            is_Some (err_message (ce_error e)) /\
            is_Some (err_failure_cases (ce_error e)) /\
            err_reason_code (ce_error e) = ce_reason_code e /\
            err_data (ce_error e) = co /\
            err_schema (ce_error e) = sch_id schema)
    (core_entries core_checks s co schema) /\
  map ce_reason_code (core_entries core_checks s co schema) `sublist_of`
    [Some "wrong_field_name"; Some "series_contains_nulls";
     Some "series_contains_duplicates"; Some "wrong_dtype"].
Proof.
  split.
  - unfold core_entries. apply Forall_forall. intros e He.
    apply list_elem_of_fmap in He as (r & -> & Hr).
    cbn [ce_error ce_reason_code core_check_error err_message
         err_failure_cases err_reason_code err_data err_schema].
    apply list_elem_of_In, filter_In in Hr as [Hr Hfail].
    apply negb_true_iff in Hfail.
    split; [|split]; [| |done].
    + unfold core_checks in Hr. cbn [map snd] in Hr.
      destruct Hr as [<-|[<-|[<-|[<-|[]]]]].
      * by eexists.
      * by eexists.
      * rewrite check_unique_eq in *. cbv zeta in *.
        destruct (unique schema && _); [by eexists|done].
      * unfold check_dtype in *. destruct (dtype schema) as [dt|]; [|done].
        destruct (dt_check _ _ _); by eexists.
    + unfold core_checks in Hr. cbn [map snd] in Hr.
      destruct Hr as [<-|[<-|[<-|[<-|[]]]]].
      * by eexists.
      * by eexists.
      * rewrite check_unique_eq in *. cbv zeta in *.
        destruct (unique schema && _); [by eexists|done].
      * unfold check_dtype in *. destruct (dtype schema) as [dt|]; [|done].
        destruct (dt_check _ _ _); by eexists.
  - unfold core_entries. rewrite map_map. cbn [ce_reason_code].
    assert (Hcodes :
      map (fun r => Some (reason_code r))
        (map (fun c : string * (Series -> Schema -> CoreCheckResult) =>
                snd c s schema) core_checks) =
      [Some "wrong_field_name"; Some "series_contains_nulls";
       Some "series_contains_duplicates"; Some "wrong_dtype"]).
    { unfold core_checks. cbn [map snd]. repeat f_equal.
      - rewrite check_unique_eq. cbv zeta. by destruct (unique schema && _).
      - unfold check_dtype. destruct (dtype schema) as [dt|]; [|done].
        by destruct (dt_check _ _ _). }
    rewrite <- Hcodes.
    apply (fmap_sublist (fun r => Some (reason_code r))).
    apply filter_sublist.
Qed.

End CoreChecks.

(** ** Coercion, missing columns and the declared checks, path by path *)

Section Paths.
Context `{Collaborators}.

Arguments core_calls : simpl never.
Arguments core_entries : simpl never.

Lemma bind_Ok {A B} (m : M A) (k : A -> M B) w b w' :
  bind m k w = (Ok b, w') ->
  exists a w1, m w = (Ok a, w1) /\ k a w1 = (Ok b, w').
Proof.
  unfold bind. destruct (m w) as [[a|e] w1]; [|done]. intros Hk. by exists a, w1.
Qed.

Lemma bind_Raise {A B} (m : M A) (k : A -> M B) w e w' :
  bind m k w = (Raise e, w') ->
  m w = (Raise e, w') \/
  exists a w1, m w = (Ok a, w1) /\ k a w1 = (Raise e, w').
Proof.
  unfold bind. destruct (m w) as [[a|e0] w1]; [|intros [= <- <-]; by left].
  intros Hk. right. by exists a, w1.
Qed.

(** *** A frame without the column *)

(** X5. When the object that reaches the checks is a frame without a
    column of the schema's name, [validate] raises [KeyError] for that name
    in either mode, before any check is invoked; what coercion collected is
    not reported. *)
Theorem validate_missing_column self l schema head tail sample rs lazy inplace
    w co w1 o cols :
  validate_prepare self l schema lazy inplace w = (Ok co, w1) ->
  heap w1 !! co = Some o ->
  obj_data o = Frame cols ->
  field_of o (name schema) = None ->
  validate self l schema head tail sample rs lazy inplace w =
    (Raise (KeyError (py_str (name schema))), w1) /\
  calls w1 = calls w.
Proof.
  intros Hprep Hco Hd Hf. split.
  - unfold validate, bind at 1. rewrite Hprep.
    unfold validate_checks, bind at 1, validate_subsample, bind at 1.
    unfold is_field, bind at 1, get_obj. rewrite Hco, Hd. unfold ret at 1.
    unfold bind at 1, getitem, bind at 1, get_obj. rewrite Hco, Hd.
    unfold field_of in Hf. rewrite Hd in Hf.
    destruct (name schema) as [k|]; [|done]. rewrite Hf. done.
  - pose proof (validate_prepare_calls self l schema lazy inplace w) as Hc.
    by rewrite Hprep in Hc.
Qed.

(** *** Steps that work on the heap alone *)


Lemma blind_ret {A} (a : A) : blind (ret a).
Proof. intros w. split; [done|]. split; [done|]. by intros w2 Hw2. Qed.

Lemma blind_raise {A} (e : Exc) : blind (@raise A e).
Proof. intros w. split; [done|]. split; [done|]. by intros w2 Hw2. Qed.

Lemma blind_bind {A B} (m : M A) (k : A -> M B) :
  blind m -> (forall a, blind (k a)) -> blind (bind m k).
Proof.
  intros Hm Hk w. destruct (Hm w) as (Hh & Hc & Hdep). unfold bind.
  destruct (m w) as [[a|e] w1] eqn:Hmw; simpl in *.
  - destruct (Hk a w1) as (Hh' & Hc' & Hdep').
    split; [congruence|]. split; [congruence|]. intros w2 Hw2.
    destruct (Hdep w2 Hw2) as [Hf Hheap].
    destruct (m w2) as [[a2|e2] w3]; simpl in *; [|done].
    injection Hf as ->. by apply Hdep'.
  - split; [done|]. split; [done|]. intros w2 Hw2.
    destruct (Hdep w2 Hw2) as [Hf Hheap].
    destruct (m w2) as [[a2|e2] w3]; simpl in *; [done|].
    by injection Hf as ->.
Qed.

Lemma blind_try_except {A} (m : M A) (h : Exc -> M A) :
  blind m -> (forall e, blind (h e)) -> blind (try_except m h).
Proof.
  intros Hm Hh w. destruct (Hm w) as (Hhd & Hc & Hdep). unfold try_except.
  destruct (m w) as [[a|e] w1] eqn:Hmw; simpl in *.
  - split; [done|]. split; [done|]. intros w2 Hw2.
    destruct (Hdep w2 Hw2) as [Hf Hheap].
    destruct (m w2) as [[a2|e2] w3]; simpl in *; [|done].
    by injection Hf as ->.
  - destruct (Hh e w1) as (Hh' & Hc' & Hdep').
    split; [congruence|]. split; [congruence|]. intros w2 Hw2.
    destruct (Hdep w2 Hw2) as [Hf Hheap].
    destruct (m w2) as [[a2|e2] w3]; simpl in *; [done|].
    injection Hf as ->. by apply Hdep'.
Qed.

Lemma blind_get_obj l : blind (get_obj l).
Proof.
  intros w. unfold get_obj. split; [by destruct (heap w !! l)|].
  split; [by destruct (heap w !! l)|]. intros w2 Hw2.
  rewrite Hw2. by destruct (heap w !! l).
Qed.

Lemma blind_set_obj l o : blind (set_obj l o).
Proof.
  intros w. unfold set_obj. simpl. split; [done|]. split; [done|].
  intros w2 Hw2. simpl. by rewrite Hw2.
Qed.

Lemma blind_alloc o : blind (alloc o).
Proof.
  intros w. unfold alloc. simpl. split; [done|]. split; [done|].
  intros w2 Hw2. simpl. by rewrite Hw2.
Qed.

Ltac blind_step :=
  first
    [ apply blind_get_obj
    | apply blind_set_obj
    | apply blind_alloc
    | apply blind_ret
    | apply blind_raise
    | apply blind_bind; [|intros ?] ].

Lemma blind_preprocess l inplace : blind (preprocess l inplace).
Proof. unfold preprocess. destruct inplace; repeat blind_step. Qed.

Lemma blind_is_field l : blind (is_field l).
Proof. unfold is_field. repeat blind_step. Qed.

Lemma blind_getitem l key : blind (getitem l key).
Proof.
  unfold getitem. blind_step; [blind_step|].
  destruct (obj_data a); [blind_step|]. destruct key; [|blind_step].
  destruct (find_column _ _); blind_step.
Qed.

Lemma blind_get_series l : blind (get_series l).
Proof.
  unfold get_series. blind_step; [blind_step|].
  destruct (obj_data a); blind_step.
Qed.

Lemma blind_subsample l head tail sample rs :
  blind (subsample l head tail sample rs).
Proof.
  unfold subsample. destruct head, tail, sample; repeat blind_step.
Qed.

Lemma blind_try_coerce dt l : blind (try_coerce dt l).
Proof.
  unfold try_coerce. blind_step; [blind_step|].
  destruct (dt_try_coerce dt a) as [o' out].
  blind_step; [blind_step|]. destruct out; repeat blind_step.
Qed.

Lemma blind_call_check chk l key : blind (call_check chk l key).
Proof.
  unfold call_check. blind_step; [blind_step|].
  destruct (chk_call chk a key) as [o' out]. repeat blind_step.
Qed.

Lemma blind_run_check l schema chk idx key :
  blind (run_check l schema chk idx key).
Proof.
  unfold run_check. blind_step; [apply blind_call_check|].
  destruct a as [[|] fc|e]; blind_step.
Qed.

Lemma blind_coerce_dtype l schema : blind (coerce_dtype l schema).
Proof.
  unfold coerce_dtype. destruct schema as [schema|]; [|blind_step].
  destruct (dtype schema) as [dt|]; [|blind_step].
  destruct (negb (coerce schema)); [blind_step|].
  blind_step; [apply blind_try_coerce|]. destruct a; blind_step.
Qed.

Lemma blind_add_schema_if_accessor l schema :
  blind (add_schema_if_accessor l schema).
Proof.
  unfold add_schema_if_accessor, add_schema. blind_step; [blind_step|].
  destruct (obj_pandera a); [|blind_step].
  destruct (schema_accepted a schema); repeat blind_step.
Qed.

Lemma blind_series_coerce_dtype l schema : blind (series_coerce_dtype l schema).
Proof.
  unfold series_coerce_dtype.
  blind_step; [apply blind_add_schema_if_accessor|].
  blind_step; [apply blind_coerce_dtype|apply blind_add_schema_if_accessor].
Qed.

Lemma blind_self_coerce_dtype self l schema :
  blind (self_coerce_dtype self l schema).
Proof.
  destruct self; [apply blind_coerce_dtype|apply blind_series_coerce_dtype].
Qed.

Lemma blind_validate_subsample l schema head tail sample rs :
  blind (validate_subsample l schema head tail sample rs).
Proof.
  unfold validate_subsample. blind_step; [apply blind_is_field|].
  blind_step; [destruct a; [blind_step|apply blind_getitem]|].
  blind_step; [apply blind_subsample|].
  blind_step; [apply blind_subsample|blind_step].
Qed.

(** *** Coercion and the error handler *)

(** X6. [coerce_dtype] of either backend takes an error handler and never
    uses it: it leaves the handler and the history of invocations as they
    are, and its outcome and the heap it leaves are the same whatever the
    handler holds. *)
Theorem coerce_dtype_ignores_error_handler self l schema w :
  error_handler (snd (self_coerce_dtype self l schema w)) = error_handler w /\
  calls (snd (self_coerce_dtype self l schema w)) = calls w /\
  (forall eh c,
     fst (self_coerce_dtype self l schema
            {| heap := heap w; error_handler := eh; calls := c |}) =
     fst (self_coerce_dtype self l schema w) /\
     heap (snd (self_coerce_dtype self l schema
                  {| heap := heap w; error_handler := eh; calls := c |})) =
     heap (snd (self_coerce_dtype self l schema w))).
Proof.
  destruct (blind_self_coerce_dtype self l schema w) as (Hh & Hc & Hdep).
  split; [exact Hh|]. split; [exact Hc|]. intros eh c. by apply Hdep.
Qed.

(** X7. Called without a schema, [ArraySchemaBackend.coerce_dtype] raises
    [AssertionError] and touches nothing.  [SeriesSchemaBackend.coerce_dtype]
    touches nothing either: on an object without the accessor it raises the
    same [AssertionError], and on an object with the accessor it never
    reaches that assertion, since [add_schema(None)] raises [TypeError]
    first and leaves the association as it was. *)
Theorem series_coerce_dtype_without_schema l w o :
  heap w !! l = Some o ->
  coerce_dtype l None w =
    (Raise (AssertionError ["The `schema` argument must be provided."]), w) /\
  series_coerce_dtype l None w =
    (Raise (match obj_pandera o with
            | Some _ => TypeError "schema arg"
            | None =>
                AssertionError ["The `schema` argument must be provided."]
            end), w).
Proof.
  intros Hl. split; [reflexivity|].
  unfold series_coerce_dtype, bind at 1, add_schema_if_accessor, add_schema, bind at 1.
  unfold get_obj. rewrite Hl.
  destruct (obj_pandera o) as [acc|]; [|reflexivity].
  unfold schema_accepted. by destruct (obj_data o).
Qed.

(** *** Every declared check is accounted for *)

Lemma run_checks_from_accounts cs idx acc co schema lz h errs c :
  is_Some (h !! co) ->
  Forall dispatch_has_cause cs ->
  exists passes entries h',
    run_checks_from idx cs acc co schema lz (lazy_world h errs c) =
    (Ok (acc ++ repeat true passes),
     lazy_world h' (errs ++ entries)
       (c ++ map CallCheck (seq idx (length cs)))) /\
    passes + length entries = length cs /\
    map (fun e => err_check_index (ce_error e)) entries
      `sublist_of` map Some (seq idx (length cs)) /\
    Forall (fun e => err_data (ce_error e) = co /\
                     err_schema (ce_error e) = sch_id schema) entries.
Proof.
  intros Hco Hcause. revert idx acc h errs c Hco.
  induction Hcause as [|chk cs Hchk Hcause IH]; intros idx acc h errs c Hco.
  - exists 0, [], h. simpl. unfold ret. rewrite !app_nil_r.
    repeat split; auto.
  - destruct Hco as [o Hco].
    rewrite (run_checks_from_step _ _ _ _ _ _ _ _ _ _ _ Hco). cbv zeta.
    destruct (chk_call chk o (check_args o schema)) as [o' out] eqn:Hcall.
    simpl.
    assert (Hco' : is_Some (<[co:=o']> h !! co)).
    { exists o'. apply list_lookup_insert_eq. by apply lookup_lt_Some with o. }
    destruct out as [[|] fc|e].
    + destruct (IH (S idx) (acc ++ [true]) _ (errs ++ []) (c ++ [CallCheck idx]) Hco')
        as (passes & entries & h' & -> & Hlen & Hsub & Hent).
      exists (S passes), entries, h'. rewrite app_nil_r, <- !app_assoc. simpl.
      split; [done|]. split; [lia|]. split; [by apply sublist_cons|done].
    + destruct (IH (S idx) acc _
                  (errs ++ [ {| ce_reason_code := Some "dataframe_check";
                      ce_error := check_failure_error co schema chk idx fc |} ])
                  (c ++ [CallCheck idx]) Hco')
        as (passes & entries & h' & -> & Hlen & Hsub & Hent).
      eexists passes, (_ :: entries), h'. rewrite <- !app_assoc. simpl.
      split; [done|]. split; [lia|].
      split; [by apply sublist_skip|]. by constructor.
    + destruct (unwrapped e) as [e'|] eqn:Hun.
      * destruct (IH (S idx) acc _
                  (errs ++ [ {| ce_reason_code := Some "check_error";
                      ce_error := check_error co schema chk idx e' |} ])
                  (c ++ [CallCheck idx]) Hco')
          as (passes & entries & h' & -> & Hlen & Hsub & Hent).
        eexists passes, (_ :: entries), h'. rewrite <- !app_assoc. simpl.
        split; [done|]. split; [lia|].
        split; [by apply sublist_skip|]. by constructor.
      * exfalso. unfold unwrapped in Hun.
        destruct (is_DispatchError e) eqn:Hd; [|done].
        destruct (Hchk _ _ _ _ Hcall Hd) as [x Hx]. congruence.
Qed.

(** X8. Under a lazy handler [run_checks] accounts for every declared
    check exactly once (dispatch errors carrying their cause): each check is
    invoked, and gives either a [True] in the list returned or one error in
    the handler; the errors come in declaration order, each with the index
    of its check, the checked object and the schema. *)
Theorem run_checks_lazy_accounts co schema lz h errs c :
  is_Some (h !! co) ->
  Forall dispatch_has_cause (checks schema) ->
  exists passes entries h',
    run_checks co schema lz (lazy_world h errs c) =
    (Ok (repeat true passes),
     lazy_world h' (errs ++ entries)
       (c ++ map CallCheck (seq 0 (length (checks schema))))) /\
    passes + length entries = length (checks schema) /\
    map (fun e => err_check_index (ce_error e)) entries
      `sublist_of` map Some (seq 0 (length (checks schema))) /\
    Forall (fun e => err_data (ce_error e) = co /\
                     err_schema (ce_error e) = sch_id schema) entries.
Proof.
  intros Hco Hcause.
  apply (run_checks_from_accounts (checks schema) 0 [] co schema lz h errs c
           Hco Hcause).
Qed.

End Paths.

(** ** The exceptions that leave [validate] *)

Section Raised.
Context `{Collaborators}.

Lemma raises_ret {A} E (a : A) : raises E (ret a).
Proof. by intros w e. Qed.

Lemma raises_raise {A} (E : Exc -> Prop) e : E e -> raises E (@raise A e).
Proof. intros He w e' [= <-]. done. Qed.

Lemma raises_bind {A B} E (m : M A) (k : A -> M B) :
  raises E m -> (forall a, raises E (k a)) -> raises E (bind m k).
Proof.
  intros Hm Hk w e. unfold bind. specialize (Hm w).
  destruct (m w) as [[a|e0] w1]; simpl in *; [apply Hk|].
  intros [= <-]. by apply Hm.
Qed.

Lemma raises_weaken {A} (E E' : Exc -> Prop) (m : M A) :
  (forall e, E e -> E' e) -> raises E m -> raises E' m.
Proof. intros HE Hm w e He. by apply HE, (Hm w). Qed.

Lemma raises_get_obj l : raises other (get_obj l).
Proof.
  intros w e. unfold get_obj. destruct (heap w !! l); [done|].
  by intros [= <-].
Qed.

Lemma raises_set_obj l o : raises other (set_obj l o).
Proof. by intros w e. Qed.

Lemma raises_alloc o : raises other (alloc o).
Proof. by intros w e. Qed.

Ltac raises_step :=
  first
    [ apply raises_get_obj
    | apply raises_set_obj
    | apply raises_alloc
    | apply raises_ret
    | apply raises_raise; exact I
    | apply raises_bind; [|intros ?] ].

Lemma raises_preprocess l inplace : raises other (preprocess l inplace).
Proof. unfold preprocess. destruct inplace; repeat raises_step. Qed.

Lemma raises_is_field l : raises other (is_field l).
Proof. unfold is_field. repeat raises_step. Qed.

Lemma raises_getitem l key : raises other (getitem l key).
Proof.
  unfold getitem. raises_step; [raises_step|].
  destruct (obj_data a); [raises_step|]. destruct key; [|raises_step].
  destruct (find_column _ _); raises_step.
Qed.

Lemma raises_get_series l : raises other (get_series l).
Proof.
  unfold get_series. raises_step; [raises_step|].
  destruct (obj_data a); raises_step.
Qed.

Lemma raises_subsample l head tail sample rs :
  raises other (subsample l head tail sample rs).
Proof. unfold subsample. destruct head, tail, sample; repeat raises_step. Qed.

Lemma raises_validate_subsample l schema head tail sample rs :
  raises other (validate_subsample l schema head tail sample rs).
Proof.
  unfold validate_subsample. raises_step; [apply raises_is_field|].
  raises_step; [destruct a; [raises_step|apply raises_getitem]|].
  raises_step; [apply raises_subsample|].
  raises_step; [apply raises_subsample|raises_step].
Qed.

Lemma other_no_aggregate e : other e -> no_aggregate e.
Proof. by destruct e. Qed.

Lemma other_no_single e : other e -> no_single e.
Proof. by destruct e. Qed.

Lemma raises_try_coerce dt l : raises other (try_coerce dt l).
Proof.
  unfold try_coerce. raises_step; [raises_step|].
  destruct (dt_try_coerce dt a) as [o' out].
  raises_step; [raises_step|]. destruct out; repeat raises_step.
Qed.

Lemma raises_coerce_dtype l schema : raises no_aggregate (coerce_dtype l schema).
Proof.
  unfold coerce_dtype. destruct schema as [schema|]; [|raises_step].
  destruct (dtype schema) as [dt|]; [|raises_step].
  destruct (negb (coerce schema)); [raises_step|].
  raises_step.
  - eapply raises_weaken; [apply other_no_aggregate|apply raises_try_coerce].
  - destruct a; raises_step.
Qed.

Lemma raises_add_schema_if_accessor l schema :
  raises other (add_schema_if_accessor l schema).
Proof.
  unfold add_schema_if_accessor, add_schema. raises_step; [raises_step|].
  destruct (obj_pandera a); [|raises_step].
  destruct (schema_accepted a schema); repeat raises_step.
Qed.

Lemma raises_self_coerce_dtype self l schema :
  raises no_aggregate (self_coerce_dtype self l schema).
Proof.
  destruct self; [apply raises_coerce_dtype|].
  unfold self_coerce_dtype, series_coerce_dtype.
  raises_step.
  { eapply raises_weaken; [apply other_no_aggregate|].
    apply raises_add_schema_if_accessor. }
  raises_step; [apply raises_coerce_dtype|].
  eapply raises_weaken; [apply other_no_aggregate|].
  apply raises_add_schema_if_accessor.
Qed.

Lemma raises_run_check l schema chk idx key :
  raises no_aggregate (run_check l schema chk idx key).
Proof.
  unfold run_check, call_check. raises_step.
  - raises_step;
      [eapply raises_weaken; [apply other_no_aggregate|apply raises_get_obj]|].
    destruct (chk_call chk a key) as [o' out]. repeat raises_step.
  - destruct a as [[|] fc|e]; raises_step.
Qed.

End Raised.

Section Outcomes.
Context `{Collaborators}.

Variable P : World -> Prop.
Variable E : Exc -> Prop.
Variable lazy : bool.

Hypothesis P_handler :
  forall w w', error_handler w' = error_handler w -> P w -> P w'.
Hypothesis E_other : forall e, other e -> E e.
Hypothesis E_aggregate :
  lazy = true -> forall sid errs d, E (ExSchemaErrors sid errs d).
Hypothesis ends_collect_error :
  forall rc e orig, ends P E (collect_error rc e orig).

Lemma ends_bind {A B} (m : M A) (k : A -> M B) :
  ends P E m -> (forall a, ends P E (k a)) -> ends P E (bind m k).
Proof.
  intros Hm Hk w Hw. unfold bind. destruct (Hm w Hw) as [HP HE].
  destruct (m w) as [[a|e] w1]; simpl in *; [by apply Hk|].
  split; [done|]. intros e' [= <-]. by apply HE.
Qed.

Lemma ends_blind {A} (m : M A) : blind m -> raises E m -> ends P E m.
Proof.
  intros Hb Hr w Hw. destruct (Hb w) as (Hh & _). split.
  - by apply (P_handler w).
  - apply Hr.
Qed.

Lemma ends_try_except {A} (E1 : Exc -> Prop) (m : M A) (h : Exc -> M A) :
  blind m -> raises E1 m -> (forall e, E1 e -> ends P E (h e)) ->
  ends P E (try_except m h).
Proof.
  intros Hb Hr Hh w Hw. unfold try_except.
  destruct (Hb w) as (Hhd & _). specialize (Hr w).
  destruct (m w) as [[a|e] w1]; simpl in *.
  - split; [by apply (P_handler w)|done].
  - apply Hh; [by apply Hr|by apply (P_handler w)].
Qed.

Lemma ends_ret {A} (a : A) : ends P E (ret a).
Proof. intros w Hw. by split. Qed.

Lemma ends_other {A} (m : M A) : blind m -> raises other m -> ends P E m.
Proof.
  intros Hb Hr. apply ends_blind; [done|].
  eapply raises_weaken; [apply E_other|done].
Qed.

Lemma ends_record_call c : ends P E (record_call c).
Proof. intros w Hw. split; [by apply (P_handler w)|done]. Qed.

Lemma ends_collected_errors : ends P E collected_errors.
Proof. intros w Hw. by split. Qed.

Lemma ends_validate_coerce self l schema :
  ends P E (validate_coerce self l schema).
Proof.
  unfold validate_coerce. destruct (coerce schema); [|apply ends_ret].
  apply (ends_try_except no_aggregate).
  - apply blind_self_coerce_dtype.
  - apply raises_self_coerce_dtype.
  - intros [e|sid errs d|e] He; [| done |].
    + apply ends_bind; [apply ends_collect_error|intros _; apply ends_ret].
    + intros w Hw. split; [done|]. intros e' [= <-]. by apply E_other.
Qed.

Lemma ends_run_core_checks cs fl co schema :
  ends P E (run_core_checks cs fl co schema).
Proof.
  induction cs as [|[fn f] cs IH]; [apply ends_ret|]. cbn [run_core_checks].
  apply ends_bind; [apply ends_record_call|intros _].
  apply ends_bind;
    [apply ends_other; [apply blind_get_series|apply raises_get_series]|].
  intros s. apply ends_bind; [|intros _; apply IH].
  destruct (negb (passed (f s schema)));
    [apply ends_collect_error|apply ends_ret].
Qed.

Lemma ends_handle_check_exception l schema chk idx exc :
  no_aggregate exc -> ends P E (handle_check_exception l schema chk idx exc).
Proof.
  intros Hexc. destruct exc as [e|sid errs d|e]; [| done |]; simpl.
  - apply ends_collect_error.
  - destruct (if is_DispatchError e then exc_cause e else Some e).
    + apply ends_collect_error.
    + intros w Hw. split; [done|]. intros e' [= <-]. by apply E_other.
Qed.

Lemma ends_run_checks_from cs idx acc l schema lz :
  ends P E (run_checks_from idx cs acc l schema lz).
Proof.
  revert idx acc. induction cs as [|chk cs IH]; intros idx acc;
    [apply ends_ret|]. cbn [run_checks_from].
  apply ends_bind;
    [apply ends_other; [apply blind_is_field|apply raises_is_field]|].
  intros fld. apply ends_bind; [apply ends_record_call|intros _].
  apply ends_bind; [|intros acc'; apply IH].
  apply (ends_try_except no_aggregate).
  - apply blind_bind; [apply blind_run_check|intros ?; apply blind_ret].
  - apply raises_bind; [apply raises_run_check|intros ?; apply raises_ret].
  - intros e He. apply ends_bind; [|intros _; apply ends_ret].
    by apply ends_handle_check_exception.
Qed.

Lemma ends_validate_checks l schema head tail sample rs :
  ends P E (validate_checks l schema head tail sample rs lazy).
Proof.
  unfold validate_checks. apply ends_bind.
  { apply ends_other;
      [apply blind_validate_subsample|apply raises_validate_subsample]. }
  intros [fl cl]. apply ends_bind; [apply ends_run_core_checks|intros _].
  apply ends_bind; [apply ends_run_checks_from|intros results].
  apply ends_bind.
  { destruct (all results); [apply ends_ret|].
    intros w Hw. split; [done|]. intros e' [= <-]. by apply E_other. }
  intros _. apply ends_bind; [apply ends_collected_errors|intros errors].
  destruct lazy; [|apply ends_ret]. cbn [andb].
  destruct (nonempty errors); [|apply ends_ret].
  intros w Hw. split; [done|]. intros e' [= <-]. by apply E_aggregate.
Qed.

Lemma ends_validate_after_handler self l schema head tail sample rs inplace :
  ends P E
    (check_obj <- (check_obj <- preprocess l inplace ;;
                   validate_coerce self check_obj schema) ;;
     validate_checks check_obj schema head tail sample rs lazy).
Proof.
  apply ends_bind; [|intros co; apply ends_validate_checks].
  apply ends_bind; [|intros co; apply ends_validate_coerce].
  apply ends_other; [apply blind_preprocess|apply raises_preprocess].
Qed.

End Outcomes.

Section ModeOutcomes.
Context `{Collaborators}.

Lemma validate_after_handler self l schema head tail sample rs lazy inplace w :
  validate self l schema head tail sample rs lazy inplace w =
  (check_obj <- (check_obj <- preprocess l inplace ;;
                 validate_coerce self check_obj schema) ;;
   validate_checks check_obj schema head tail sample rs lazy)
    (with_handler {| eh_lazy := lazy; eh_collected := [] |} w).
Proof. reflexivity. Qed.

Lemma lazy_mode_handler w w' :
  error_handler w' = error_handler w -> lazy_mode w -> lazy_mode w'.
Proof. unfold lazy_mode. by intros ->. Qed.

Lemma eager_clean_handler w w' :
  error_handler w' = error_handler w -> eager_clean w -> eager_clean w'.
Proof. unfold eager_clean. by intros ->. Qed.

Lemma lazy_mode_new w :
  lazy_mode (with_handler {| eh_lazy := true; eh_collected := [] |} w).
Proof. reflexivity. Qed.

Lemma eager_clean_new w :
  eager_clean (with_handler {| eh_lazy := false; eh_collected := [] |} w).
Proof. reflexivity. Qed.

(** Under a lazy handler [collect_error] raises nothing. *)
Lemma lazy_collect_error (E : Exc -> Prop) rc e orig :
  ends lazy_mode E (collect_error rc e orig).
Proof.
  intros w Hw. unfold collect_error. unfold lazy_mode in Hw. rewrite Hw.
  simpl. split; [done|]. intros ? [=].
Qed.

(** Under an eager handler it raises the error and collects nothing. *)
Lemma eager_collect_error rc e orig :
  ends eager_clean no_aggregate (collect_error rc e orig).
Proof.
  intros w Hw. unfold collect_error. unfold eager_clean in Hw. rewrite Hw.
  simpl. split; [done|]. by intros ? [= <-].
Qed.

Lemma validate_lazy_ends self l schema head tail sample rs inplace :
  ends lazy_mode no_single
    (check_obj <- (check_obj <- preprocess l inplace ;;
                   validate_coerce self check_obj schema) ;;
     validate_checks check_obj schema head tail sample rs true).
Proof.
  apply ends_validate_after_handler.
  - apply lazy_mode_handler.
  - apply other_no_single.
  - done.
  - apply lazy_collect_error.
Qed.

Lemma validate_eager_ends self l schema head tail sample rs inplace :
  ends eager_clean no_aggregate
    (check_obj <- (check_obj <- preprocess l inplace ;;
                   validate_coerce self check_obj schema) ;;
     validate_checks check_obj schema head tail sample rs false).
Proof.
  apply ends_validate_after_handler.
  - apply eager_clean_handler.
  - apply other_no_aggregate.
  - done.
  - apply eager_collect_error.
Qed.

Lemma validate_exception_by_mode_aux self l schema head tail sample rs inplace w :
  (forall e,
     fst (validate self l schema head tail sample rs true inplace w)
     <> Raise (ExSchemaError e)) /\
  (forall sid errs data,
     fst (validate self l schema head tail sample rs false inplace w)
     <> Raise (ExSchemaErrors sid errs data)) /\
  error_handler (snd (validate self l schema head tail sample rs false inplace w))
  = {| eh_lazy := false; eh_collected := [] |}.
Proof.
  rewrite !validate_after_handler. split; [|split].
  - intros e He.
    by apply (validate_lazy_ends self l schema head tail sample rs inplace
                _ (lazy_mode_new w)) in He.
  - intros sid errs data He.
    by apply (validate_eager_ends self l schema head tail sample rs inplace
                _ (eager_clean_new w)) in He.
  - by apply (validate_eager_ends self l schema head tail sample rs inplace
                _ (eager_clean_new w)).
Qed.

(** X9. A lazy [validate] call never raises a single [SchemaError]; an
    eager call never raises the aggregate [SchemaErrors], and its handler
    holds no error at the end, on every path. *)
Theorem validate_exception_by_mode self l schema head tail sample rs inplace w :
  (forall e,
     fst (validate self l schema head tail sample rs true inplace w)
     <> Raise (ExSchemaError e)) /\
  (forall sid errs data,
     fst (validate self l schema head tail sample rs false inplace w)
     <> Raise (ExSchemaErrors sid errs data)) /\
  error_handler (snd (validate self l schema head tail sample rs false inplace w))
  = {| eh_lazy := false; eh_collected := [] |}.
Proof. apply validate_exception_by_mode_aux. Qed.

(** What a normal return of [validate_checks] tells. *)
Lemma validate_checks_Ok l schema head tail sample rs lazy w out w' :
  validate_checks l schema head tail sample rs lazy w = (Ok out, w') ->
  out = l /\ (lazy = true -> eh_collected (error_handler w') = []).
Proof.
  unfold validate_checks. intros Hrun.
  apply bind_Ok in Hrun as ([fl cl] & w1 & _ & Hrun).
  apply bind_Ok in Hrun as (? & w2 & _ & Hrun).
  apply bind_Ok in Hrun as (results & w3 & _ & Hrun).
  apply bind_Ok in Hrun as (? & w4 & _ & Hrun).
  apply bind_Ok in Hrun as (errors & w5 & Herrs & Hrun).
  unfold collected_errors in Herrs. injection Herrs as <- <-.
  destruct lazy; cbn [andb] in Hrun.
  - destruct (eh_collected (error_handler w4)) eqn:Hcoll; [|done].
    injection Hrun as <- <-. done.
  - injection Hrun as <- <-. done.
Qed.

Lemma validate_copy_fresh self l schema head tail sample rs lazy w out w' :
  validate self l schema head tail sample rs lazy false w = (Ok out, w') ->
  length (heap w) <= out.
Proof.
  intros Hrun.
  refine (proj2 (keeps_validate_copy (frame_pre (length (heap w)))
            (frame_rel (length (heap w))) (above (length (heap w)))
            _ _ _ _ _ _ _ _ _ _ self l schema head tail sample rs lazy w _)
            out _); try done.
  - intros w1 w2 w3. unfold frame_rel. congruence.
  - apply frame_rel_pre.
  - apply frame_get_obj.
  - apply frame_set_obj.
  - apply frame_alloc.
  - apply frame_collect_error.
  - unfold frame_pre. lia.
  - by rewrite Hrun.
Qed.

Lemma validate_prepare_inplace self l schema lazy w out w1 :
  coerce schema = false \/ dtype schema = None ->
  validate_prepare self l schema lazy true w = (Ok out, w1) -> out = l.
Proof.
  intros Hno. unfold validate_prepare, bind at 1, new_error_handler.
  unfold bind at 1, preprocess, ret at 1, validate_coerce.
  destruct (coerce schema) eqn:Hc; [|by intros [= <- <-]].
  destruct Hno as [|Hd]; [done|].
  unfold try_except.
  match goal with |- context [self_coerce_dtype self l (Some schema) ?w0] =>
    destruct (self_coerce_dtype self l (Some schema) w0) as [[l1|e] w2] eqn:Hs
  end.
  - intros [= <- <-]. destruct self; simpl in Hs.
    + unfold coerce_dtype in Hs. rewrite Hd in Hs. by injection Hs as <- <-.
    + unfold series_coerce_dtype in Hs.
      apply bind_Ok in Hs as (l2 & w3 & Ha & Hs).
      apply bind_Ok in Hs as (l3 & w4 & Hb & Hs).
      unfold coerce_dtype in Hb. rewrite Hd in Hb. injection Hb as <- <-.
      assert (Hadd : forall l0 s w0 r w0',
                add_schema_if_accessor l0 s w0 = (Ok r, w0') -> r = l0).
      { intros l0 s w0 r w0'. unfold add_schema_if_accessor, add_schema, bind, get_obj.
        destruct (heap w0 !! l0) as [o|]; [|done].
        destruct (obj_pandera o); [|by intros [= <- <-]].
        destruct (schema_accepted o s); [|done]. by intros [= <- <-]. }
      apply Hadd in Ha, Hs. congruence.
  - destruct e as [e|sid errs d|e]; [|done|done].
    intros Hrun. apply bind_Ok in Hrun as (? & w3 & _ & Hrun).
    by injection Hrun as <- <-.
Qed.

(** X10. When [validate] returns, the handler holds no error and the
    object returned is the one that came out of preprocessing and coercion:
    the caller's own object for [inplace=True] when no coercion takes place,
    and an object that did not exist before the call for [inplace=False]. *)
Theorem validate_returns_checked_object self l schema head tail sample rs lazy
    inplace w out w' :
  validate self l schema head tail sample rs lazy inplace w = (Ok out, w') ->
  error_handler w' = {| eh_lazy := lazy; eh_collected := [] |} /\
  (exists w1, validate_prepare self l schema lazy inplace w = (Ok out, w1)) /\
  (inplace = true -> coerce schema = false \/ dtype schema = None -> out = l) /\
  (inplace = false -> length (heap w) <= out).
Proof.
  intros Hrun.
  assert (Hprep : exists w1,
            validate_prepare self l schema lazy inplace w = (Ok out, w1) /\
            (lazy = true -> eh_collected (error_handler w') = [])).
  { unfold validate in Hrun. apply bind_Ok in Hrun as (co & w1 & Hp & Hrun).
    apply validate_checks_Ok in Hrun as [-> Hcl]. by exists w1. }
  destruct Hprep as (w1 & Hprep & Hcl).
  split; [|split; [by exists w1|split]].
  - destruct lazy.
    + pose proof (proj1 (validate_lazy_ends self l schema head tail sample rs
                           inplace _ (lazy_mode_new w))) as Hm.
      rewrite <- validate_after_handler, Hrun in Hm. unfold lazy_mode in Hm.
      simpl in Hm. specialize (Hcl eq_refl).
      destruct (error_handler w'). simpl in *. congruence.
    + pose proof (proj2 (proj2 (validate_exception_by_mode_aux self l schema
                                  head tail sample rs inplace w))) as He.
      by rewrite Hrun in He.
  - intros -> Hno. by apply (validate_prepare_inplace _ _ _ _ _ _ _ Hno Hprep).
  - intros ->. by apply (validate_copy_fresh _ _ _ _ _ _ _ _ _ _ _ Hrun).
Qed.

End ModeOutcomes.

(** ** Lazy and eager calls side by side *)

Section Simulation.
Context `{Collaborators}.

Lemma collected_first_handler e w w' :
  error_handler w' = error_handler w ->
  collected_first e w -> collected_first e w'.
Proof. unfold collected_first. by intros ->. Qed.

Lemma collected_first_collect_error e rc e' orig :
  ends (collected_first e) (fun _ => True) (collect_error rc e' orig).
Proof.
  intros w [Hl (rc0 & rest & Hc)]. unfold collect_error. rewrite Hl. simpl.
  split; [|done]. split; [done|]. rewrite Hc. by eexists _, _.
Qed.

Lemma keeps_first_bind {A B} (m : M A) (k : A -> M B) :
  keeps_first m -> (forall a, keeps_first (k a)) -> keeps_first (bind m k).
Proof.
  intros Hm Hk e. apply ends_bind; [apply Hm|intros a; apply Hk].
Qed.

Lemma keeps_first_ret {A} (a : A) : keeps_first (ret a).
Proof. intros e w Hw. by split. Qed.

Lemma keeps_first_raise {A} (x : Exc) : keeps_first (@raise A x).
Proof. intros e w Hw. by split. Qed.

Lemma keeps_first_run_core_checks cs fl co schema :
  keeps_first (run_core_checks cs fl co schema).
Proof.
  intros e. apply ends_run_core_checks; try done.
  - apply collected_first_handler.
  - apply collected_first_collect_error.
Qed.

Lemma keeps_first_run_checks_from cs idx acc l schema lz :
  keeps_first (run_checks_from idx cs acc l schema lz).
Proof.
  intros e. apply ends_run_checks_from; try done.
  - apply collected_first_handler.
  - apply collected_first_collect_error.
Qed.

Lemma keeps_first_validate_checks l schema head tail sample rs lazy :
  keeps_first (validate_checks l schema head tail sample rs lazy).
Proof.
  intros e. apply ends_validate_checks; try done.
  - apply collected_first_handler.
  - apply collected_first_collect_error.
Qed.

Lemma keeps_first_collected_errors : keeps_first collected_errors.
Proof. intros e w Hw. by split. Qed.


Lemma keeps_first_validate_finish l schema lazy results :
  keeps_first (validate_finish l schema lazy results).
Proof.
  unfold validate_finish. apply keeps_first_bind.
  { destruct (all results); [apply keeps_first_ret|apply keeps_first_raise]. }
  intros _. apply keeps_first_bind; [apply keeps_first_collected_errors|].
  intros errors. destruct (lazy && nonempty errors);
    [apply keeps_first_raise|apply keeps_first_ret].
Qed.

Lemma agree_blind {A} (m : M A) : blind m -> agree m m.
Proof.
  intros Hb wl we (Hh & Hc & Hl & He). left.
  destruct (Hb we) as (Hhe & Hce & Hdep).
  destruct (Hb wl) as (Hhl & Hcl & _).
  destruct (Hdep wl Hh) as [Hf Hheap].
  split; [done|]. unfold twin. repeat split; congruence.
Qed.

Lemma agree_bind {A B} (ml me : M A) (kl ke : A -> M B) :
  agree ml me -> (forall a, agree (kl a) (ke a)) ->
  (forall a, keeps_first (kl a)) ->
  agree (bind ml kl) (bind me ke).
Proof.
  intros Hm Hk Hkf wl we Htw. unfold bind.
  destruct (Hm wl we Htw) as [[Hf Htw']|(e & Hcf & He)].
  - destruct (ml wl) as [[a|x] wl1], (me we) as [[a'|x'] we1];
      simpl in *; try done.
    + injection Hf as <-. by apply Hk.
    + injection Hf as <-. left. by split.
  - right. exists e. destruct (me we) as [[a'|x'] we1]; simpl in *; [done|].
    injection He as ->. split; [|done].
    destruct (ml wl) as [[a|x] wl1]; simpl in *; [|done].
    by apply (Hkf a e wl1).
Qed.

Lemma agree_try_except {A} (m : M A) (hl he : Exc -> M A) :
  blind m -> (forall x, agree (hl x) (he x)) ->
  agree (try_except m hl) (try_except m he).
Proof.
  intros Hb Hh wl we Htw. unfold try_except.
  destruct (agree_blind m Hb wl we Htw) as [[Hf Htw']|(e & Hcf & He)].
  - destruct (m wl) as [[a|x] wl1], (m we) as [[a'|x'] we1];
      simpl in *; try done.
    + injection Hf as <-. left. by split.
    + injection Hf as <-. by apply Hh.
  - destruct (Hb wl) as (Hhl & _). destruct Htw as (_ & _ & Hl & _).
    destruct Hcf as [_ (rc & rest & Hc)]. rewrite Hhl, Hl in Hc. done.
Qed.

Lemma agree_collect_error rc e orig :
  agree (collect_error rc e orig) (collect_error rc e orig).
Proof.
  intros wl we (Hh & Hc & Hl & He). right. exists e.
  unfold collect_error. rewrite Hl, He. simpl. split; [|done].
  split; [done|]. by eexists _, _.
Qed.

Lemma agree_record_call c : agree (record_call c) (record_call c).
Proof.
  intros wl we (Hh & Hc & Hl & He). left. split; [done|].
  unfold twin, record_call. simpl. by rewrite Hc.
Qed.

Lemma keeps_first_blind {A} (m : M A) : blind m -> keeps_first m.
Proof.
  intros Hb e w Hw. destruct (Hb w) as (Hh & _).
  split; [by apply (collected_first_handler e w)|done].
Qed.

Lemma keeps_first_collect_error rc e orig :
  keeps_first (collect_error rc e orig).
Proof. intros e0. apply collected_first_collect_error. Qed.

Lemma keeps_first_record_call c : keeps_first (record_call c).
Proof. intros e w Hw. by split. Qed.

Lemma keeps_first_try_except {A} (m : M A) (h : Exc -> M A) :
  blind m -> (forall x, keeps_first (h x)) -> keeps_first (try_except m h).
Proof.
  intros Hb Hh e w Hw. unfold try_except. destruct (Hb w) as (Hhd & _).
  destruct (m w) as [[a|x] w1]; simpl in *.
  - split; [by apply (collected_first_handler e w)|done].
  - apply Hh. by apply (collected_first_handler e w).
Qed.

Ltac kf :=
  repeat first
    [ apply keeps_first_ret
    | apply keeps_first_raise
    | apply keeps_first_collect_error
    | apply keeps_first_record_call
    | apply keeps_first_collected_errors
    | apply keeps_first_run_core_checks
    | apply keeps_first_run_checks_from
    | apply keeps_first_validate_finish
    | apply keeps_first_blind;
        first [ apply blind_get_series | apply blind_is_field
              | apply blind_preprocess | apply blind_validate_subsample ]
    | match goal with
      | |- keeps_first (if ?b then _ else _) => destruct b
      | |- keeps_first (let '(_, _) := ?p in _) => destruct p
      end
    | apply keeps_first_bind; [|intros ?] ].

Lemma agree_ret {A} (a : A) : agree (ret a) (ret a).
Proof. apply agree_blind, blind_ret. Qed.

Lemma agree_raise {A} (x : Exc) : agree (@raise A x) (raise x).
Proof. apply agree_blind, blind_raise. Qed.

Lemma agree_run_core_checks cs fl co schema :
  agree (run_core_checks cs fl co schema) (run_core_checks cs fl co schema).
Proof.
  induction cs as [|[fn f] cs IH]; [apply agree_ret|].
  cbn [run_core_checks].
  apply agree_bind; [apply agree_record_call| |intros _; kf].
  intros _. apply agree_bind; [apply agree_blind, blind_get_series| |intros s; kf].
  intros s. apply agree_bind; [|intros _; apply IH|intros _; kf].
  destruct (negb (passed (f s schema)));
    [apply agree_collect_error|apply agree_ret].
Qed.

Lemma agree_handle_check_exception l schema chk idx exc :
  agree (handle_check_exception l schema chk idx exc)
        (handle_check_exception l schema chk idx exc).
Proof.
  destruct exc as [e|sid errs d|e]; simpl.
  - apply agree_collect_error.
  - apply agree_raise.
  - destruct (if is_DispatchError e then exc_cause e else Some e);
      [apply agree_collect_error|apply agree_raise].
Qed.

Lemma keeps_first_handle_check_exception l schema chk idx exc :
  keeps_first (handle_check_exception l schema chk idx exc).
Proof.
  destruct exc as [e|sid errs d|e]; simpl; [kf|kf|].
  destruct (if is_DispatchError e then exc_cause e else Some e); kf.
Qed.

Lemma agree_run_checks_from cs idx acc l schema lz1 lz2 :
  agree (run_checks_from idx cs acc l schema lz1)
        (run_checks_from idx cs acc l schema lz2).
Proof.
  revert idx acc. induction cs as [|chk cs IH]; intros idx acc;
    [apply agree_ret|]. cbn [run_checks_from].
  apply agree_bind; [apply agree_blind, blind_is_field| |].
  - intros fld. apply agree_bind; [apply agree_record_call| |].
    + intros _. apply agree_bind; [|intros acc'; apply IH|intros acc'; kf].
      apply agree_try_except.
      * apply blind_bind; [apply blind_run_check|intros ?; apply blind_ret].
      * intros x. apply agree_bind;
          [apply agree_handle_check_exception|intros _; apply agree_ret|
           intros _; kf].
    + intros _. apply keeps_first_bind; [|intros acc'; kf].
      apply keeps_first_try_except.
      * apply blind_bind; [apply blind_run_check|intros ?; apply blind_ret].
      * intros x. apply keeps_first_bind;
          [apply keeps_first_handle_check_exception|intros _; kf].
  - intros fld. apply keeps_first_bind; [kf|intros _].
    apply keeps_first_bind; [|intros acc'; kf].
    apply keeps_first_try_except.
    + apply blind_bind; [apply blind_run_check|intros ?; apply blind_ret].
    + intros x. apply keeps_first_bind;
        [apply keeps_first_handle_check_exception|intros _; kf].
Qed.

Lemma validate_checks_finish l schema head tail sample rs lazy :
  validate_checks l schema head tail sample rs lazy =
  (subsamples <- validate_subsample l schema head tail sample rs ;;
   let '(field_obj_subsample, check_obj_subsample) := subsamples in
   run_core_checks core_checks field_obj_subsample l schema ;;;
   check_results <- run_checks check_obj_subsample schema lazy ;;
   validate_finish l schema lazy check_results).
Proof. reflexivity. Qed.

Lemma agree_validate_finish l schema results :
  agree (validate_finish l schema true results)
        (validate_finish l schema false results).
Proof.
  intros wl we Htw. left. unfold validate_finish, bind.
  destruct (all results); simpl; [|by split].
  destruct Htw as (Hh & Hc & Hl & He). unfold collected_errors.
  rewrite Hl. simpl. split; [done|]. by split.
Qed.

Lemma agree_validate_checks l schema head tail sample rs :
  agree (validate_checks l schema head tail sample rs true)
        (validate_checks l schema head tail sample rs false).
Proof.
  rewrite !validate_checks_finish.
  apply agree_bind; [apply agree_blind, blind_validate_subsample| |].
  - intros [fl cl]. apply agree_bind; [apply agree_run_core_checks| |].
    + intros _. apply agree_bind; [apply agree_run_checks_from| |].
      * intros results. apply agree_validate_finish.
      * intros results. kf.
    + intros _. unfold run_checks. kf.
  - intros [fl cl]. unfold run_checks. kf.
Qed.

Lemma agree_validate_coerce self l schema :
  agree (validate_coerce self l schema) (validate_coerce self l schema).
Proof.
  unfold validate_coerce. destruct (coerce schema); [|apply agree_ret].
  apply agree_try_except; [apply blind_self_coerce_dtype|].
  intros [e|sid errs d|e]; [|apply agree_raise|apply agree_raise].
  apply agree_bind; [apply agree_collect_error|intros _; apply agree_ret|].
  intros _. kf.
Qed.

Lemma keeps_first_validate_coerce self l schema :
  keeps_first (validate_coerce self l schema).
Proof.
  intros e. apply (ends_validate_coerce _ _).
  - apply collected_first_handler.
  - done.
  - apply collected_first_collect_error.
Qed.

Lemma agree_validate self l schema head tail sample rs inplace w :
  (fst (validate self l schema head tail sample rs true inplace w) =
   fst (validate self l schema head tail sample rs false inplace w) /\
   twin (snd (validate self l schema head tail sample rs true inplace w))
        (snd (validate self l schema head tail sample rs false inplace w))) \/
  (exists e,
     collected_first e
       (snd (validate self l schema head tail sample rs true inplace w)) /\
     fst (validate self l schema head tail sample rs false inplace w) =
     Raise (ExSchemaError e)).
Proof.
  rewrite !validate_after_handler.
  assert (Hagree :
    agree
      (check_obj <- (check_obj <- preprocess l inplace ;;
                     validate_coerce self check_obj schema) ;;
       validate_checks check_obj schema head tail sample rs true)
      (check_obj <- (check_obj <- preprocess l inplace ;;
                     validate_coerce self check_obj schema) ;;
       validate_checks check_obj schema head tail sample rs false)).
  { apply agree_bind.
    - apply agree_bind; [apply agree_blind, blind_preprocess| |].
      + intros co. apply agree_validate_coerce.
      + intros co. apply keeps_first_validate_coerce.
    - intros co. apply agree_validate_checks.
    - intros co. apply keeps_first_validate_checks. }
  apply Hagree. by repeat split.
Qed.

(** In lazy mode only the last step of [validate] raises the aggregate,
    and it raises the handler's list. *)
Lemma lazy_ends_other_prepare self l schema inplace :
  ends lazy_mode other
    (check_obj <- preprocess l inplace ;; validate_coerce self check_obj schema).
Proof.
  apply ends_bind; [|intros co; apply ends_validate_coerce].
  - apply ends_other; try done;
      [apply lazy_mode_handler|apply blind_preprocess|apply raises_preprocess].
  - apply lazy_mode_handler.
  - done.
  - apply lazy_collect_error.
Qed.

Lemma lazy_ends_other_run_core_checks cs fl co schema :
  ends lazy_mode other (run_core_checks cs fl co schema).
Proof.
  apply ends_run_core_checks; [apply lazy_mode_handler|done|].
  apply lazy_collect_error.
Qed.

Lemma lazy_ends_other_run_checks_from cs idx acc l schema lz :
  ends lazy_mode other (run_checks_from idx cs acc l schema lz).
Proof.
  apply ends_run_checks_from; [apply lazy_mode_handler|done|].
  apply lazy_collect_error.
Qed.

Lemma validate_checks_raises_aggregate l schema head tail sample rs w sid errs
    d w' :
  lazy_mode w ->
  validate_checks l schema head tail sample rs true w =
    (Raise (ExSchemaErrors sid errs d), w') ->
  errs = eh_collected (error_handler w') /\ sid = sch_id schema /\ d = l.
Proof.
  intros Hw. rewrite validate_checks_finish. intros Hrun.
  apply bind_Raise in Hrun as [Hrun|([fl cl] & w1 & Hsub & Hrun)].
  { pose proof (raises_validate_subsample l schema head tail sample rs w) as Hr.
    rewrite Hrun in Hr. by destruct (Hr _ eq_refl). }
  assert (Hw1 : lazy_mode w1).
  { destruct (blind_validate_subsample l schema head tail sample rs w)
      as (Hh & _). rewrite Hsub in Hh. by apply (lazy_mode_handler w). }
  apply bind_Raise in Hrun as [Hrun|(? & w2 & Hcore & Hrun)].
  { destruct (lazy_ends_other_run_core_checks core_checks fl l schema w1 Hw1)
      as [_ Hr]. rewrite Hrun in Hr. by destruct (Hr _ eq_refl). }
  assert (Hw2 : lazy_mode w2).
  { destruct (lazy_ends_other_run_core_checks core_checks fl l schema w1 Hw1)
      as [Hp _]. by rewrite Hcore in Hp. }
  apply bind_Raise in Hrun as [Hrun|(results & w3 & Hchecks & Hrun)].
  { destruct (lazy_ends_other_run_checks_from (checks schema) 0 [] cl schema
                true w2 Hw2) as [_ Hr].
    unfold run_checks in Hrun. rewrite Hrun in Hr. by destruct (Hr _ eq_refl). }
  unfold validate_finish in Hrun.
  apply bind_Raise in Hrun as [Hrun|(? & w4 & Hassert & Hrun)].
  { destruct (all results); [done|]. by injection Hrun. }
  assert (w4 = w3) as -> by (destruct (all results); by injection Hassert).
  unfold bind, collected_errors in Hrun. cbn [andb] in Hrun.
  destruct (nonempty (eh_collected (error_handler w3))); [|done].
  by injection Hrun as <- <- <- <-.
Qed.

Lemma validate_raises_aggregate self l schema head tail sample rs inplace w sid
    errs d w' :
  validate self l schema head tail sample rs true inplace w =
    (Raise (ExSchemaErrors sid errs d), w') ->
  errs = eh_collected (error_handler w') /\ sid = sch_id schema.
Proof.
  rewrite validate_after_handler. intros Hrun.
  apply bind_Raise in Hrun as [Hrun|(co & w1 & Hprep & Hrun)].
  - destruct (lazy_ends_other_prepare self l schema inplace _ (lazy_mode_new w))
      as [_ Hr]. rewrite Hrun in Hr. by destruct (Hr _ eq_refl).
  - destruct (lazy_ends_other_prepare self l schema inplace _ (lazy_mode_new w))
      as [Hp _]. rewrite Hprep in Hp.
    destruct (validate_checks_raises_aggregate _ _ _ _ _ _ _ _ _ _ _ Hp Hrun)
      as (? & ? & ?). done.
Qed.

Lemma validate_Ok_clean self l schema head tail sample rs inplace w out w' :
  validate self l schema head tail sample rs true inplace w = (Ok out, w') ->
  eh_collected (error_handler w') = [].
Proof.
  unfold validate. intros Hrun.
  apply bind_Ok in Hrun as (co & w1 & _ & Hrun).
  apply validate_checks_Ok in Hrun as [_ Hcl]. by apply Hcl.
Qed.

(** X11. The two modes agree on every run in which no error reaches the
    handler: the eager call returns an object iff the lazy call returns it,
    an exception other than the framework's that leaves the eager call
    leaves the lazy call too, and in each case both leave the same heap and
    the same history of invocations. *)
Theorem validate_modes_agree self l schema head tail sample rs inplace w :
  (forall out we,
     validate self l schema head tail sample rs false inplace w = (Ok out, we) ->
     exists wl,
       validate self l schema head tail sample rs true inplace w = (Ok out, wl) /\
       heap wl = heap we /\ calls wl = calls we) /\
  (forall out wl,
     validate self l schema head tail sample rs true inplace w = (Ok out, wl) ->
     exists we,
       validate self l schema head tail sample rs false inplace w = (Ok out, we) /\
       heap we = heap wl /\ calls we = calls wl) /\
  (forall exc we,
     validate self l schema head tail sample rs false inplace w
       = (Raise (ExOther exc), we) ->
     exists wl,
       validate self l schema head tail sample rs true inplace w
         = (Raise (ExOther exc), wl) /\
       heap wl = heap we /\ calls wl = calls we).
Proof.
  pose proof (agree_validate self l schema head tail sample rs inplace w) as Ha.
  split; [|split].
  - intros out we Hrun. rewrite Hrun in Ha. simpl in Ha.
    destruct Ha as [[Hf (Hh & Hc & _)]|(e & _ & He)]; [|done].
    destruct (validate self l schema head tail sample rs true inplace w)
      as [r wl]. simpl in *. subst r. by exists wl.
  - intros out wl Hrun. rewrite Hrun in Ha. simpl in Ha.
    destruct Ha as [[Hf (Hh & Hc & _)]|(e & [_ (rc & rest & Hcf)] & He)].
    + destruct (validate self l schema head tail sample rs false inplace w)
        as [r we]. simpl in *. subst r. by exists we.
    + by rewrite (validate_Ok_clean _ _ _ _ _ _ _ _ _ _ _ Hrun) in Hcf.
  - intros exc we Hrun. rewrite Hrun in Ha. simpl in Ha.
    destruct Ha as [[Hf (Hh & Hc & _)]|(e & _ & He)]; [|done].
    destruct (validate self l schema head tail sample rs true inplace w)
      as [r wl]. simpl in *. subst r. by exists wl.
Qed.

(** X12. The error an eager call raises is the one a lazy call collects
    first.  When the lazy call raises its aggregate, the eager call raises
    the first error of that aggregate; when the eager call raises a
    [SchemaError], the lazy call does not return, and an aggregate it
    raises starts with that error. *)
Theorem validate_eager_raises_first_collected self l schema head tail sample rs
    inplace w :
  (forall sid errs data wl,
     validate self l schema head tail sample rs true inplace w
       = (Raise (ExSchemaErrors sid errs data), wl) ->
     exists rc e rest,
       errs = {| ce_reason_code := rc; ce_error := e |} :: rest /\
       fst (validate self l schema head tail sample rs false inplace w)
         = Raise (ExSchemaError e)) /\
  (forall e we,
     validate self l schema head tail sample rs false inplace w
       = (Raise (ExSchemaError e), we) ->
     (forall out,
        fst (validate self l schema head tail sample rs true inplace w)
        <> Ok out) /\
     (forall sid errs data,
        fst (validate self l schema head tail sample rs true inplace w)
          = Raise (ExSchemaErrors sid errs data) ->
        exists rc rest,
          errs = {| ce_reason_code := rc; ce_error := e |} :: rest)).
Proof.
  pose proof (agree_validate self l schema head tail sample rs inplace w) as Ha.
  pose proof (validate_exception_by_mode_aux self l schema head tail sample rs
                inplace w) as (Hlazy & Heager & _).
  split.
  - intros sid errs data wl Hrun.
    destruct (validate_raises_aggregate _ _ _ _ _ _ _ _ _ _ _ _ _ Hrun)
      as [Herrs _].
    rewrite Hrun in Ha. simpl in Ha.
    destruct Ha as [[Hf _]|(e & [_ (rc & rest & Hcf)] & He)].
    + symmetry in Hf. by apply Heager in Hf.
    + exists rc, e, rest. split; [congruence|done].
  - intros e we Hrun. rewrite Hrun in Ha. simpl in Ha.
    destruct Ha as [[Hf _]|(e' & [_ (rc & rest & Hcf)] & He)].
    { by apply Hlazy in Hf. }
    injection He as <-.
    destruct (validate self l schema head tail sample rs true inplace w)
      as [r wl] eqn:Hl. simpl in *. split.
    + intros out ->.
      by rewrite (validate_Ok_clean _ _ _ _ _ _ _ _ _ _ _ Hl) in Hcf.
    + intros sid errs data ->.
      destruct (validate_raises_aggregate _ _ _ _ _ _ _ _ _ _ _ _ _ Hl)
        as [Herrs _].
      exists rc, rest. congruence.
Qed.

End Simulation.

(** ** Valid data *)

Section Valid.
Context `{Collaborators}.

Arguments core_calls : simpl never.
Arguments core_entries : simpl never.

Lemma all_repeat_true n : all (repeat true n) = true.
Proof. unfold all. induction n as [|n IH]; [done|exact IH]. Qed.

Lemma core_entries_passing s co schema :
  Forall (fun g : string * (Series -> Schema -> CoreCheckResult) =>
            passed (snd g s schema) = true) core_checks ->
  core_entries core_checks s co schema = [].
Proof.
  intros Hall. unfold core_entries.
  induction Hall as [|g gs Hg _ IH]; [done|]. simpl. by rewrite Hg.
Qed.

Lemma validate_checks_passing co schema head tail sample rs h c o fld :
  h !! co = Some o ->
  field_of o (name schema) = Some fld ->
  Forall (fun g : string * (Series -> Schema -> CoreCheckResult) =>
            passed (snd g (subsampled head tail sample rs fld) schema) = true)
    core_checks ->
  checks_pass (checks schema) (subsampled_object head tail sample rs o) schema
    = true ->
  exists h',
    validate_checks co schema head tail sample rs true (lazy_world h [] c) =
    (Ok co, lazy_world h' [] (c ++ all_calls schema)).
Proof.
  intros Hco Hfld Hcore Hpass. unfold validate_checks, lazy_world.
  destruct (validate_subsample_exact co schema head tail sample rs h
              {| eh_lazy := true; eh_collected := [] |} c o fld Hco Hfld)
    as (fl & hx & Hsub & Hfl & Hcs).
  unfold bind at 1. rewrite Hsub. cbv beta iota.
  unfold bind at 1.
  rewrite (run_core_checks_lazy _ _ _ _ _ _ _ _ Hfl).
  rewrite (core_entries_passing _ _ _ Hcore).
  unfold bind at 1. unfold run_checks.
  destruct (run_checks_from_pass (checks schema) 0 []
              (subsample_loc head tail sample (length h) co o) schema true
              (h ++ hx) {| eh_lazy := true; eh_collected := [] ++ [] |}
              (c ++ core_calls core_checks) _ Hcs Hpass)
    as (h' & Hrun).
  rewrite Hrun.
  assert (Hall : all ([] ++ repeat true (length (checks schema))) = true).
  { apply all_repeat_true. }
  rewrite Hall. unfold bind at 1. unfold ret at 1.
  unfold bind at 1. unfold collected_errors at 1.
  cbn [eh_collected error_handler app nonempty andb].
  exists h'. unfold ret, all_calls. by rewrite <- !app_assoc.
Qed.

(** X13. Data that meets the schema is accepted in both modes: when
    coercion (if any) succeeds, the four core checks pass on the column and
    every declared check passes on the object it is run on, as the checks
    before it left it, [validate] returns the checked object, having
    invoked every check in order and collected nothing. *)
Theorem validate_accepts_valid_data self l schema head tail sample rs lazy
    inplace w co o fld :
  checked_object self l schema true inplace w = Some (co, o) ->
  coercion_errors self l schema true inplace w = [] ->
  field_of o (name schema) = Some fld ->
  Forall (fun g : string * (Series -> Schema -> CoreCheckResult) =>
            passed (snd g (subsampled head tail sample rs fld) schema) = true)
    core_checks ->
  checks_pass (checks schema) (subsampled_object head tail sample rs o) schema
    = true ->
  exists w',
    validate self l schema head tail sample rs lazy inplace w = (Ok co, w') /\
    calls w' = calls w ++ all_calls schema /\
    eh_collected (error_handler w') = [].
Proof.
  intros Hc Hnoerr Hfld Hcore Hpass.
  destruct (checked_object_prepare _ _ _ _ _ _ _ _ Hc) as (h1 & Hprep & Hco).
  rewrite Hnoerr in Hprep.
  destruct (validate_checks_passing co schema head tail sample rs h1 (calls w)
              o fld Hco Hfld Hcore Hpass) as (h' & Hrun).
  assert (Hlazy : validate self l schema head tail sample rs true inplace w =
                  (Ok co, lazy_world h' [] (calls w ++ all_calls schema))).
  { unfold validate, bind. rewrite Hprep. exact Hrun. }
  destruct lazy.
  - eexists. split; [exact Hlazy|]. done.
  - pose proof (agree_validate self l schema head tail sample rs inplace w)
      as Ha.
    rewrite Hlazy in Ha. simpl in Ha.
    destruct Ha as [[Hf (Hh & Hcalls & _ & He)]|(e & [_ (rc & rest & Hcf)] & _)];
      [|done].
    destruct (validate self l schema head tail sample rs false inplace w)
      as [r we]. simpl in *. subst r. exists we.
    split; [done|]. split; [congruence|]. by rewrite He.
Qed.

End Valid.

(** ** Worked examples *)

Section Examples.
#[local] Existing Instance ex_collaborators.

Lemma ex_check_pass_cause : dispatch_has_cause ex_check_pass.
Proof. intros o key o' e Hcall. discriminate Hcall. Qed.

Lemma ex_check_raise_cause : dispatch_has_cause ex_check_raise.
Proof.
  intros o key o' e Hcall. injection Hcall as _ <-. discriminate.
Qed.

Lemma ex_schema_strict_causes :
  Forall dispatch_has_cause (checks ex_schema_strict).
Proof.
  repeat constructor; [apply ex_check_raise_cause|apply ex_check_pass_cause].
Qed.

Lemma ex_check_pass_only_causes : Forall dispatch_has_cause [ex_check_pass].
Proof. repeat constructor. apply ex_check_pass_cause. Qed.

(** The keep="first" policy on [1, 1, 2, 1]. *)
Lemma check_unique_keep_policy_witness :
  failure_index (check_unique ex_1121 ex_schema_strict)
  = [1; 3]%Z.
Proof.
  exact (proj1 (proj2 (@check_unique_keep_policy ex_collaborators))
           ex_schema_strict eq_refl).
Defined.

(** [True] repeats 1: the column [1, True] is not unique, and with the
    first occurrence kept the row reported is the one holding [True]. *)
Lemma check_unique_bool_repeats_int :
  passed (check_unique (ex_series None "object" [VInt 1; VBool true])
            ex_schema_strict) = false /\
  reported_rows (check_unique (ex_series None "object" [VInt 1; VBool true])
                   ex_schema_strict) = [(1%Z, VBool true)] /\
  reported_rows (check_unique (ex_series None "object" [VInt 1; VBool true])
                   ex_schema_report_all)
  = [(0%Z, VInt 1); (1%Z, VBool true)].
Proof. repeat split. Qed.

(** An object column checked element by element without coercion, lazily:
    the one wrong_dtype entry lists row 1, which holds a string. *)
Lemma check_dtype_wrong_dtype_witness :
  exists errors e w',
    validate ArraySchemaBackend 0
      (ex_schema (Some "a") (Some ex_int_elementwise) true false false
         [ex_check_pass])
      None None None None true false (ex_world [ex_field ex_mixed None])
    = (Raise (ExSchemaErrors 1 errors 1), w') /\
    List.filter (has_reason "wrong_dtype") errors = [e] /\
    err_reason_code (ce_error e) = Some "wrong_dtype" /\
    error_index (ce_error e) = [1%Z].
Proof.
  destruct (proj1 (proj2 (@check_dtype_wrong_dtype ex_collaborators))
              ArraySchemaBackend 0
              (ex_schema (Some "a") (Some ex_int_elementwise) true false false
                 [ex_check_pass])
              None None None None false
              (ex_world [ex_field ex_mixed None])
              1 (ex_field ex_mixed None) ex_mixed
              eq_refl eq_refl eq_refl ex_check_pass_only_causes eq_refl)
    as (errors & e & w' & Hrun & Hfilter & _ & Hcode & _ & Hidx).
  exists errors, e, w'. split; [exact Hrun|]. split; [exact Hfilter|].
  split; [exact Hcode|].
  exact (Hidx ex_int_elementwise [true; false] eq_refl eq_refl).
Defined.

(** A dtype mismatch that an eager call does not report: the column is of
    dtype object where int64 is asked for, and it holds a null.  The call
    raises the error of [check_nullable]; [check_dtype] is never invoked. *)
Lemma validate_eager_hides_wrong_dtype :
  coerce ex_schema_int = false /\
  passed (check_dtype ex_nulls_dups ex_schema_int) = false /\
  fst (validate ArraySchemaBackend 0 ex_schema_int
         None None None None false false
         (ex_world [ex_field ex_nulls_dups None]))
  = Raise (ExSchemaError
             (core_check_error 1 ex_schema_int
                (check_nullable ex_nulls_dups ex_schema_int))) /\
  err_reason_code
    (core_check_error 1 ex_schema_int
       (check_nullable ex_nulls_dups ex_schema_int))
  = Some "series_contains_nulls" /\
  calls (snd (validate ArraySchemaBackend 0 ex_schema_int
                None None None None false false
                (ex_world [ex_field ex_nulls_dups None])))
  = [CallCore "check_name"; CallCore "check_nullable"].
Proof. vm_compute. repeat split. Qed.

(** A coercing schema without dtype. *)
Lemma coerce_dtype_without_dtype_witness :
  coerce_dtype 0
    (Some (ex_schema (Some "a") None true false true []))
    (ex_world [ex_field ex_mixed None])
  = (Ok 0, ex_world [ex_field ex_mixed None]) /\
  validate_coerce ArraySchemaBackend 0
    (ex_schema (Some "a") None true false true [])
    (ex_world [ex_field ex_mixed None])
  = (Ok 0, ex_world [ex_field ex_mixed None]).
Proof.
  exact ((@coerce_dtype_without_dtype ex_collaborators) 0
           (ex_schema (Some "a") None true false true [])
           (ex_world [ex_field ex_mixed None]) eq_refl).
Defined.

(** A coercion that converts cell by cell and fails at the second cell
    leaves the caller's object as it was when [inplace=False]. *)
Lemma validate_copy_leaves_input_witness :
  heap (snd (validate SeriesSchemaBackend 0
               (ex_schema (Some "a") (Some ex_int64_inplace) true false true [])
               None None None None true false
               (ex_world [ex_field ex_mixed None]))) !! 0
  = Some (ex_field ex_mixed None).
Proof.
  exact (proj2 ((@validate_copy_leaves_input ex_collaborators)
                  SeriesSchemaBackend 0
                  (ex_schema (Some "a") (Some ex_int64_inplace) true false
                     true [])
                  None None None None true
                  (ex_world [ex_field ex_mixed None]))
           0 (ex_field ex_mixed None) eq_refl).
Defined.

(** With [inplace=True] the same call changes the caller's object. *)
Lemma validate_inplace_modifies_input :
  heap (snd (validate SeriesSchemaBackend 0
               (ex_schema (Some "a") (Some ex_int64_inplace) true false true [])
               None None None None true true
               (ex_world [ex_field ex_mixed None]))) !! 0
  <> Some (ex_field ex_mixed None).
Proof. vm_compute. discriminate. Qed.

(** A null and a duplicate, reported together by a lazy call, followed by
    the error of the declared check that raises. *)
Lemma validate_lazy_aggregate_witness :
  exists w',
    validate ArraySchemaBackend 0 ex_schema_strict
      None None None None true false (ex_world [ex_field ex_nulls_dups None])
    = (Raise (ExSchemaErrors 1 (eh_collected (error_handler w')) 1), w') /\
    map ce_reason_code (eh_collected (error_handler w')) =
      [Some "series_contains_nulls"; Some "series_contains_duplicates";
       Some "check_error"] /\
    map (fun e => err_check_index (ce_error e))
      (eh_collected (error_handler w')) = [None; None; Some 0].
Proof.
  destruct ((@validate_lazy_aggregate ex_collaborators) ArraySchemaBackend 0
              ex_schema_strict None None None None false
              (ex_world [ex_field ex_nulls_dups None])
              1 (ex_field ex_nulls_dups None) ex_nulls_dups
              eq_refl eq_refl ex_schema_strict_causes)
    as (w' & Hrun & Hcoll & _).
  exists w'. rewrite Hrun, Hcoll. repeat split.
Defined.

(** A lazy call that neither returns nor raises the aggregate: the schema
    asks for column "c" of a frame that has none.  Coercion of the frame
    fails and its error is collected; taking the column out then raises
    [KeyError] before any check is invoked, and the collected error is not
    reported. *)
Lemma validate_lazy_missing_column_no_aggregate :
  fst (validate ArraySchemaBackend 0
         (ex_schema (Some "c") (Some ex_int64) true false true [ex_check_pass])
         None None None None true false (ex_world [ex_frame]))
  = Raise (KeyError "c") /\
  length (eh_collected (error_handler (snd
    (validate ArraySchemaBackend 0
       (ex_schema (Some "c") (Some ex_int64) true false true [ex_check_pass])
       None None None None true false (ex_world [ex_frame]))))) = 1 /\
  calls (snd
    (validate ArraySchemaBackend 0
       (ex_schema (Some "c") (Some ex_int64) true false true [ex_check_pass])
       None None None None true false (ex_world [ex_frame]))) = [].
Proof. vm_compute. repeat split. Qed.

Lemma ex_name_passes :
  Forall (fun g : string * (Series -> Schema -> CoreCheckResult) =>
            passed (snd g (subsampled None None None None ex_nulls_dups)
                      ex_schema_strict) = true)
    [("check_name", check_name)].
Proof. repeat constructor. Qed.

(** The same data validated eagerly: the null is reported, the duplicate
    and the declared checks are never looked at. *)
Lemma validate_eager_first_error_witness :
  exists w',
    validate ArraySchemaBackend 0 ex_schema_strict
      None None None None false false (ex_world [ex_field ex_nulls_dups None])
    = (Raise (ExSchemaError
                (core_check_error 1 ex_schema_strict
                   (check_nullable ex_nulls_dups
                      ex_schema_strict))), w') /\
    calls w' = [CallCore "check_name"; CallCore "check_nullable"].
Proof.
  destruct (proj2 (@validate_eager_first_error ex_collaborators)
              ArraySchemaBackend 0 ex_schema_strict None None None None false
              (ex_world [ex_field ex_nulls_dups None])
              1 (ex_field ex_nulls_dups None) ex_nulls_dups
              [("check_name", check_name)] "check_nullable" check_nullable
              [("check_unique", check_unique); ("check_dtype", check_dtype)]
              eq_refl eq_refl eq_refl
              ex_name_passes eq_refl)
    as (w' & Hrun & Hcalls & _).
  exists w'. split; [exact Hrun|exact Hcalls].
Defined.

Lemma ex_ints_core_pass :
  Forall (fun g : string * (Series -> Schema -> CoreCheckResult) =>
            passed (snd g (subsampled None None None None ex_ints)
                      (ex_schema (Some "a") None false true false
                         [ex_check_pass; ex_check_fail; ex_check_pass]))
            = true)
    core_checks.
Proof. repeat constructor. Qed.

(** The invocations of a complete lazy run, and those of an eager run on
    valid structure whose second declared check fails. *)
Lemma validate_check_order_witness :
  calls (snd (validate ArraySchemaBackend 0 ex_schema_strict
                None None None None true false
                (ex_world [ex_field ex_nulls_dups None])))
  = [CallCore "check_name"; CallCore "check_nullable";
     CallCore "check_unique"; CallCore "check_dtype";
     CallCheck 0; CallCheck 1] /\
  calls (snd (validate ArraySchemaBackend 0
                (ex_schema (Some "a") None false true false
                   [ex_check_pass; ex_check_fail; ex_check_pass])
                None None None None false false
                (ex_world [ex_field ex_ints None])))
  = [CallCore "check_name"; CallCore "check_nullable";
     CallCore "check_unique"; CallCore "check_dtype";
     CallCheck 0; CallCheck 1].
Proof.
  split.
  - exact (proj1 (proj1 (proj2 (@validate_check_order ex_collaborators))
             ArraySchemaBackend 0 ex_schema_strict None None None None false
             (ex_world [ex_field ex_nulls_dups None])
             1 (ex_field ex_nulls_dups None) ex_nulls_dups
             eq_refl eq_refl ex_schema_strict_causes)).
  - exact (proj1 (proj1 (proj2 (proj2 (proj2
                    (@validate_check_order ex_collaborators))))
             ArraySchemaBackend 0
             (ex_schema (Some "a") None false true false
                [ex_check_pass; ex_check_fail; ex_check_pass])
             None None None None false
             (ex_world [ex_field ex_ints None])
             1 (ex_field ex_ints None) ex_ints
             eq_refl eq_refl ex_ints_core_pass)).
Defined.

(** In eager mode the first failure ends the call: a schema named "b"
    applied to column "a" stops after [check_name]. *)
Lemma validate_eager_skips_checks :
  calls (snd (validate ArraySchemaBackend 0
                (ex_schema (Some "b") None false true false [ex_check_pass])
                None None None None false false
                (ex_world [ex_field ex_nulls_dups None])))
  = [CallCore "check_name"] /\
  ~ ran_core_checks
      (ex_world [ex_field ex_nulls_dups None])
      (snd (validate ArraySchemaBackend 0
              (ex_schema (Some "b") None false true false [ex_check_pass])
              None None None None false false
              (ex_world [ex_field ex_nulls_dups None]))).
Proof.
  split; [reflexivity|]. intros [c Hc]. vm_compute in Hc. discriminate Hc.
Qed.

(** The error [coerce_dtype] raises is built without a reason code, so it
    carries the default of the [SchemaError] constructor. *)
Lemma coerce_error_reason_code `{Collaborators} l schema dt pe :
  err_reason_code (coerce_error l schema dt pe) = default_reason_code.
Proof. reflexivity. Qed.

(** A string among integers, coerced to int64 by a lazy call: the coercion
    error comes first in the aggregate and every check has run. *)
Lemma validate_lazy_coercion_failure_witness :
  exists e rest w',
    validate ArraySchemaBackend 0 ex_schema_coerce None None None None
      true false (ex_world [ex_field ex_mixed None])
    = (Raise (ExSchemaErrors 1
                ({| ce_reason_code := err_reason_code e; ce_error := e |}
                 :: rest) 1), w') /\
    err_check e = Some (CheckStr "coerce_dtype('int64')") /\
    calls w' = all_calls ex_schema_coerce.
Proof.
  destruct (@validate_lazy_coercion_failure ex_collaborators
              ArraySchemaBackend 0 ex_schema_coerce None None None None false
              (ex_world [ex_field ex_mixed None])
              (coerce_error 1 ex_schema_coerce ex_int64
                 {| pe_message := "could not coerce to int64";
                    pe_failure_cases :=
                      [ {| fc_index := Some 1%Z; fc_value := VStr "x" |} ] |})
              {| heap := [ex_field ex_mixed None; ex_field ex_mixed None];
                 error_handler := {| eh_lazy := true; eh_collected := [] |};
                 calls := [] |}
              1 (ex_field ex_mixed None) ex_mixed
              eq_refl eq_refl eq_refl eq_refl ex_check_pass_only_causes)
    as (entries & w' & Hrun & _ & Hcalls & _).
  eexists _, _, w'. split; [exact Hrun|]. split; [reflexivity|exact Hcalls].
Defined.

(** The same call in eager mode: the coercion error is raised at once, no
    check is invoked. *)
Lemma validate_eager_coercion_failure_aborts :
  coerce ex_schema_coerce = true /\
  (exists e w',
     validate ArraySchemaBackend 0 ex_schema_coerce None None None None
       false false (ex_world [ex_field ex_mixed None])
     = (Raise (ExSchemaError e), w') /\
     err_check e = Some (CheckStr "coerce_dtype('int64')") /\
     calls w' = []) /\
  ~ ran_core_checks
      (ex_world [ex_field ex_mixed None])
      (snd (validate ArraySchemaBackend 0 ex_schema_coerce None None None None
              false false (ex_world [ex_field ex_mixed None]))).
Proof.
  split; [reflexivity|]. split.
  - eexists _, _. split; [reflexivity|]. split; reflexivity.
  - intros [c Hc]. vm_compute in Hc. discriminate Hc.
Qed.

(** A check that raises [ValueError], followed by one that passes, under
    a lazy handler. *)
Lemma run_checks_wraps_exception_witness :
  exists results entries h',
    run_checks_from 0 [ex_check_raise; ex_check_pass] [] 0 ex_schema_strict
      true (lazy_world [ex_field ex_nulls_dups None] [] [])
    = (Ok results,
       lazy_world h'
         ({| ce_reason_code := Some "check_error";
             ce_error :=
               check_error 0 ex_schema_strict ex_check_raise 0 ex_ValueError |}
          :: entries)
         [CallCheck 0; CallCheck 1]).
Proof.
  destruct (@run_checks_wraps_exception ex_collaborators 0 ex_check_raise
              [ex_check_pass] [] 0 ex_schema_strict true
              [ex_field ex_nulls_dups None] [] []
              (ex_field ex_nulls_dups None) ex_ValueError ex_ValueError
              eq_refl eq_refl eq_refl ex_check_pass_only_causes)
    as (results & entries & h' & Hrun & _).
  exists results, entries, h'. exact Hrun.
Defined.

(** The same checks under an eager handler: the wrapped error is raised
    and the second check is never invoked. *)
Lemma run_checks_eager_stops :
  (exists e w',
     run_checks 0 ex_schema_strict false
       (ex_world [ex_field ex_nulls_dups None])
     = (Raise (ExSchemaError e), w') /\
     err_check e = Some (CheckObj "broken") /\
     calls w' = [CallCheck 0]) /\
  ~ In (CallCheck 1)
      (calls (snd (run_checks 0 ex_schema_strict false
                     (ex_world [ex_field ex_nulls_dups None])))).
Proof.
  split.
  - eexists _, _. split; [vm_compute; reflexivity|]. split; reflexivity.
  - vm_compute. intros [Hc|[]]. discriminate Hc.
Qed.

(** A dispatch error that carries no cause is not wrapped: reading the
    attributes of its missing cause raises, and that exception leaves
    [run_checks] even under a lazy handler. *)
Lemma run_checks_dispatch_without_cause :
  exists e w',
    run_checks_from 0 [ex_check_dispatch_nocause; ex_check_pass] [] 0
      ex_schema_strict true (lazy_world [ex_field ex_nulls_dups None] [] [])
    = (Raise (ExOther e), w') /\
    exc_class e = "AttributeError" /\
    calls w' = [CallCheck 0].
Proof. eexists _, _. split; [vm_compute; reflexivity|]. split; reflexivity. Qed.

(** An int64 column that carries the association with schema 7, coerced
    under schema 1. *)
Lemma series_coerce_dtype_attaches_schema_witness :
  exists o',
    heap (snd (series_coerce_dtype 0 (Some ex_schema_coerce)
                 (ex_world [ex_field ex_ints (Some 7)]))) !! 1 = Some o' /\
    (is_Some (obj_pandera o') -> attached o' = Some 1).
Proof.
  pose proof (@series_coerce_dtype_attaches_schema ex_collaborators 0
                ex_schema_coerce (ex_world [ex_field ex_ints (Some 7)])
                (ex_field ex_ints (Some 7)) ex_ints
                eq_refl eq_refl (ex_intro _ _ eq_refl)) as Hm.
  vm_compute in Hm. destruct Hm as [Ho _]. exact Ho.
Defined.

(** A column that cannot be coerced: the error is raised, and the object
    handed in carries the schema of the call, attached before the coercion
    was tried. *)
Lemma series_coerce_dtype_attaches_before_coercing :
  attached (ex_field ex_mixed None) = None /\
  exists e w' o',
    series_coerce_dtype 0 (Some ex_schema_coerce)
      (ex_world [ex_field ex_mixed None]) = (Raise (ExSchemaError e), w') /\
    heap w' !! 0 = Some o' /\
    attached o' = Some 1.
Proof.
  split; [reflexivity|].
  eexists _, _, _. split; [vm_compute; reflexivity|]. split; reflexivity.
Qed.

(** On a frame the accessor refuses the schema of a series. *)
Lemma series_coerce_dtype_frame_TypeError :
  series_coerce_dtype 0 (Some ex_schema_coerce) (ex_world [ex_frame])
  = (Raise (TypeError "schema arg"), ex_world [ex_frame]).
Proof. reflexivity. Qed.

(** The association of the input is not kept as it was: the coerced object
    is associated with the schema of the call; and when the data cannot be
    coerced nothing is returned. *)
Lemma series_coerce_dtype_association_not_retained :
  attached (ex_field ex_ints (Some 7)) = Some 7 /\
  (exists out w' o',
     series_coerce_dtype 0 (Some ex_schema_coerce)
       (ex_world [ex_field ex_ints (Some 7)]) = (Ok out, w') /\
     heap w' !! out = Some o' /\
     attached o' = Some 1) /\
  attached (ex_field ex_mixed (Some 1)) = Some 1 /\
  (exists e w',
     series_coerce_dtype 0 (Some ex_schema_coerce)
       (ex_world [ex_field ex_mixed (Some 1)])
     = (Raise (ExSchemaError e), w')).
Proof.
  split; [reflexivity|]. split.
  - eexists _, _, _. split; [vm_compute; reflexivity|]. split; reflexivity.
  - split; [reflexivity|]. eexists _, _. vm_compute. reflexivity.
Qed.

(** The coercion of the array backend alone hands back the object the
    dtype built, which carries no association. *)
Lemma coerce_dtype_new_object_unattached :
  exists out w' o',
    coerce_dtype 0 (Some ex_schema_coerce)
      (ex_world [ex_field ex_ints (Some 1)]) = (Ok out, w') /\
    heap w' !! out = Some o' /\
    attached o' = None.
Proof.
  eexists _, _, _. split; [vm_compute; reflexivity|]. split; reflexivity.
Qed.

Lemma ex_positive_core_checks_pass :
  Forall (fun g : string * (Series -> Schema -> CoreCheckResult) =>
            passed (snd g (subsampled (Some 1) None None None ex_ints)
                      ex_schema_positive) = true)
    core_checks.
Proof. repeat constructor. Qed.

(** The check on positive cells passes on [1, 2] and fails on [1, -2]. *)
Lemma ex_check_positive_on_data :
  checks_pass [ex_check_positive] (ex_field ex_ints None) ex_schema_positive
  = true /\
  checks_pass [ex_check_positive]
    (ex_field (ex_series (Some "a") "int64" [VInt 1; VInt (-2)]) None)
    ex_schema_positive
  = false.
Proof. split; reflexivity. Qed.

(** Column "a" of the frame under a schema named "a". *)
Lemma check_name_passes_on_frame_column_witness :
  passed (check_name (subsampled (Some 1) None None None ex_ints)
            ex_schema_int) = true.
Proof.
  exact (proj1 (@check_name_passes_on_frame_column ex_collaborators ex_frame
                  [ex_ints; ex_series (Some "b") "object" [VStr "x"; VNull]]
                  ex_schema_int ex_ints eq_refl eq_refl
                  (Some 1) None None None 0)).
Defined.

(** The values [1, 1, 2, 1] with every duplicate reported. *)
Lemma check_unique_reports_repeated_witness :
  reported_rows (check_unique ex_1121 ex_schema_report_all)
  = repeated_rows ex_1121.
Proof.
  refine (proj1 (proj2 (@check_unique_reports_repeated ex_collaborators ex_1121
                          ex_schema_report_all _)) eq_refl eq_refl).
  intros Hps. discriminate Hps.
Defined.

(** The frame under a schema for a column "c" it does not have. *)
Lemma validate_missing_column_witness :
  fst (validate ArraySchemaBackend 0
         (ex_schema (Some "c") None false false false [ex_check_pass])
         None None None None true true (ex_world [ex_frame]))
  = Raise (KeyError "c").
Proof.
  refine (f_equal fst
            (proj1 (@validate_missing_column ex_collaborators
                      ArraySchemaBackend 0
                      (ex_schema (Some "c") None false false false
                         [ex_check_pass])
                      None None None None true true (ex_world [ex_frame])
                      0 _ ex_frame
                      [ex_ints; ex_series (Some "b") "object" [VStr "x"; VNull]]
                      eq_refl eq_refl eq_refl eq_refl))).
Defined.

(** An object associated with schema 7, handed to [coerce_dtype] without
    a schema. *)
Lemma series_coerce_dtype_without_schema_witness :
  series_coerce_dtype 0 None (ex_world [ex_field ex_ints (Some 7)]) =
    (Raise (TypeError "schema arg"), ex_world [ex_field ex_ints (Some 7)]) /\
  (attached <$> heap (ex_world [ex_field ex_ints (Some 7)]) !! 0)
  = Some (Some 7).
Proof.
  split; [|reflexivity].
  exact (proj2 (@series_coerce_dtype_without_schema ex_collaborators 0
                  (ex_world [ex_field ex_ints (Some 7)])
                  (ex_field ex_ints (Some 7)) eq_refl)).
Defined.

(** A check that raises and one that passes: one error, one result. *)
Lemma run_checks_lazy_accounts_witness :
  exists passes entries h',
    run_checks 0 ex_schema_strict true
      (lazy_world [ex_field ex_nulls_dups None] [] []) =
    (Ok (repeat true passes),
     lazy_world h' entries [CallCheck 0; CallCheck 1]) /\
    passes + length entries = 2.
Proof.
  destruct (@run_checks_lazy_accounts ex_collaborators 0 ex_schema_strict true
              [ex_field ex_nulls_dups None] [] []
              (ex_intro _ _ eq_refl) ex_schema_strict_causes)
    as (passes & entries & h' & Hrun & Hcount & _).
  exists passes, entries, h'. split; [exact Hrun|exact Hcount].
Defined.

(** An int64 column validated against an int64 schema, on a copy. *)
Lemma validate_returns_checked_object_witness :
  exists out w',
    validate ArraySchemaBackend 0 ex_schema_int None None None None
      false false (ex_world [ex_field ex_ints None]) = (Ok out, w') /\
    error_handler w' = {| eh_lazy := false; eh_collected := [] |} /\
    1 <= out.
Proof.
  assert (Hrun :
    validate ArraySchemaBackend 0 ex_schema_int None None None None
      false false (ex_world [ex_field ex_ints None]) =
    (Ok 1,
     {| heap := [ex_field ex_ints None; ex_field ex_ints None];
        error_handler := {| eh_lazy := false; eh_collected := [] |};
        calls := all_calls ex_schema_int |})) by reflexivity.
  destruct (@validate_returns_checked_object ex_collaborators
              ArraySchemaBackend 0 ex_schema_int None None None None
              false false (ex_world [ex_field ex_ints None]) _ _ Hrun)
    as (Hh & _ & _ & Hfresh).
  eexists _, _. split; [exact Hrun|]. split; [exact Hh|exact (Hfresh eq_refl)].
Defined.

(** Integers validated eagerly on their first row against a schema with
    a data-dependent check. *)
Lemma validate_accepts_valid_data_witness :
  exists w',
    validate ArraySchemaBackend 0 ex_schema_positive (Some 1) None None None
      false true (ex_world [ex_field ex_ints None]) = (Ok 0, w') /\
    calls w' = all_calls ex_schema_positive.
Proof.
  destruct (@validate_accepts_valid_data ex_collaborators
              ArraySchemaBackend 0 ex_schema_positive (Some 1) None None None
              false true (ex_world [ex_field ex_ints None])
              0 (ex_field ex_ints None) ex_ints
              eq_refl eq_refl eq_refl ex_positive_core_checks_pass
              eq_refl)
    as (w' & Hrun & Hcalls & _).
  exists w'. split; [exact Hrun|exact Hcalls].
Defined.

(** An eager call on the int64 column returns, and so does the lazy call. *)
Lemma validate_modes_agree_witness :
  exists wl,
    validate ArraySchemaBackend 0 ex_schema_int None None None None
      true false (ex_world [ex_field ex_ints None]) = (Ok 1, wl) /\
    heap wl = [ex_field ex_ints None; ex_field ex_ints None] /\
    calls wl = all_calls ex_schema_int.
Proof.
  assert (Hrun :
    validate ArraySchemaBackend 0 ex_schema_int None None None None
      false false (ex_world [ex_field ex_ints None]) =
    (Ok 1,
     {| heap := [ex_field ex_ints None; ex_field ex_ints None];
        error_handler := {| eh_lazy := false; eh_collected := [] |};
        calls := all_calls ex_schema_int |})) by reflexivity.
  exact (proj1 (@validate_modes_agree ex_collaborators
                  ArraySchemaBackend 0 ex_schema_int None None None None
                  false (ex_world [ex_field ex_ints None])) _ _ Hrun).
Defined.

(** A null and a duplicate: the eager call raises the error the lazy
    aggregate starts with. *)
Lemma validate_eager_raises_first_collected_witness :
  exists rc e rest,
    fst (validate ArraySchemaBackend 0 ex_schema_strict None None None None
           true false (ex_world [ex_field ex_nulls_dups None]))
    = Raise (ExSchemaErrors 1
               ({| ce_reason_code := rc; ce_error := e |} :: rest) 1) /\
    rc = Some "series_contains_nulls" /\
    fst (validate ArraySchemaBackend 0 ex_schema_strict None None None None
           false false (ex_world [ex_field ex_nulls_dups None]))
    = Raise (ExSchemaError e).
Proof.
  edestruct (proj1 (@validate_eager_raises_first_collected ex_collaborators
                      ArraySchemaBackend 0 ex_schema_strict None None None None
                      false (ex_world [ex_field ex_nulls_dups None])))
    as (rc & e & rest & Herrs & Heager).
  { vm_compute. reflexivity. }
  injection Herrs as <- <- <-.
  eexists _, _, _. split; [vm_compute; reflexivity|].
  split; [reflexivity|exact Heager].
Defined.

End Examples.
